(** * vkw: capability negotiation, versioned symbol tables and owning handles

    A shallow embedding of the parts of the vkw Vulkan wrapper that decide
    how a context (Instance, Device) is negotiated, which symbol tables and
    extension accessors it hands out afterwards, how errors are reported and
    how the owning handle wrapper releases native handles.

    Conventions of the embedding:
    - [uint32_t] values are [N]; the only arithmetic on them is the
      [minor + 1] / [major + 1] of the symbol loader, whose wrap-around is
      written out ([wrap32]).
    - C strings and [std::string_view] are [string]; [!a.compare(b)] is
      [String.eqb].
    - [enum class ext] and [enum class layer] are dense enums; a value is
      modelled by its underlying integer ([static_cast<unsigned>(id)]).
    - A call of [postError(e)] inside a fallible function is [Err e] in the
      [Result] monad; what [postError] then does with [e] (throw, or run the
      callbacks and terminate) is modelled once, in [Module Exception]. *)

From Stdlib Require Import DecimalString.
From stdpp Require Import gmap strings list numbers.

Local Open Scope N_scope.

(** ** Basic types *)

(** [enum class ext], [enum class layer]: the underlying value. *)
Definition ext := nat.
Definition layer := nat.

(** Native handles; [VK_NULL_HANDLE] / [nullptr] is [0]. *)
Definition Handle := Z.
Definition VK_NULL_HANDLE : Handle := 0%Z.

(** [struct ApiVersion] (Library.hpp). *)
Record ApiVersion := mkApiVersion { major : N; minor : N; revision : N }.

Global Instance ApiVersion_eq_dec : EqDecision ApiVersion.
Proof. solve_decision. Defined.

(** [constexpr auto operator<=>(ApiVersion const &) const = default]:
    member-wise, in declaration order. *)
Definition ApiVersion_compare (a b : ApiVersion) : comparison :=
  match N.compare (major a) (major b) with
  | Eq => match N.compare (minor a) (minor b) with
          | Eq => N.compare (revision a) (revision b)
          | c => c
          end
  | c => c
  end.

Definition ApiVersion_lt (a b : ApiVersion) : bool :=
  match ApiVersion_compare a b with Lt => true | _ => false end.
Definition ApiVersion_gt (a b : ApiVersion) : bool :=
  match ApiVersion_compare a b with Gt => true | _ => false end.
Definition ApiVersion_le (a b : ApiVersion) : bool := negb (ApiVersion_gt a b).
Definition ApiVersion_ge (a b : ApiVersion) : bool := negb (ApiVersion_lt a b).

(** The lexicographic order on versions, as a proposition. *)
Definition version_lt (a b : ApiVersion) : Prop :=
  (major a < major b)%N ∨
  (major a = major b ∧
   ((minor a < minor b)%N ∨
    (minor a = minor b ∧ (revision a < revision b)%N))).

Definition UINT_MAX : N := 4294967295.
Definition wrap32 (n : N) : N := n mod 4294967296.

Definition show_uint (n : N) : string := NilZero.string_of_uint (N.to_uint n).

(** [operator<<(std::ostream &, const ApiVersion &)]. *)
Definition show_ApiVersion (v : ApiVersion) : string :=
  show_uint (major v) +:+ "." +:+ show_uint (minor v) +:+ "." +:+ show_uint (revision v).

(** [VK_MAKE_API_VERSION] and the three field accessors of the Vulkan
    headers, on [uint32_t]: variant, major, minor and patch are shifted to
    bits 29, 22, 12 and 0 and combined, without masking; the accessors
    read 7, 10 and 12 bits. *)
Definition VK_MAKE_API_VERSION (variant major minor patch : N) : N :=
  N.lor (N.lor (N.lor (wrap32 (N.shiftl variant 29))
                      (wrap32 (N.shiftl major 22)))
               (wrap32 (N.shiftl minor 12)))
        patch.
Definition VK_API_VERSION_MAJOR (version : N) : N :=
  N.land (N.shiftr version 22) 127.
Definition VK_API_VERSION_MINOR (version : N) : N :=
  N.land (N.shiftr version 12) 1023.
Definition VK_API_VERSION_PATCH (version : N) : N :=
  N.land version 4095.

(** [constexpr ApiVersion::operator uint32_t() const]. *)
Definition ApiVersion_to_uint32 (v : ApiVersion) : N :=
  VK_MAKE_API_VERSION 0 (major v) (minor v) (revision v).

(** [constexpr ApiVersion(uint32_t encoded)]. *)
Definition ApiVersion_of_uint32 (encoded : N) : ApiVersion :=
  mkApiVersion (VK_API_VERSION_MAJOR encoded) (VK_API_VERSION_MINOR encoded)
               (VK_API_VERSION_PATCH encoded).

(** The [VkResult] codes the wrapper names ([VulkanError::errorString],
    [VK_CHECK_RESULT], [InstanceDestructor]). *)
Inductive VkResult :=
| VK_SUCCESS | VK_NOT_READY | VK_TIMEOUT | VK_EVENT_SET | VK_EVENT_RESET
| VK_INCOMPLETE | VK_ERROR_OUT_OF_HOST_MEMORY | VK_ERROR_OUT_OF_DEVICE_MEMORY
| VK_ERROR_OUT_OF_POOL_MEMORY | VK_ERROR_INITIALIZATION_FAILED
| VK_ERROR_DEVICE_LOST | VK_ERROR_MEMORY_MAP_FAILED | VK_ERROR_LAYER_NOT_PRESENT
| VK_ERROR_EXTENSION_NOT_PRESENT | VK_ERROR_FEATURE_NOT_PRESENT
| VK_ERROR_INCOMPATIBLE_DRIVER | VK_ERROR_TOO_MANY_OBJECTS
| VK_ERROR_FORMAT_NOT_SUPPORTED | VK_ERROR_SURFACE_LOST_KHR
| VK_ERROR_NATIVE_WINDOW_IN_USE_KHR | VK_SUBOPTIMAL_KHR
| VK_ERROR_OUT_OF_DATE_KHR | VK_ERROR_INCOMPATIBLE_DISPLAY_KHR
| VK_ERROR_VALIDATION_FAILED_EXT | VK_ERROR_INVALID_SHADER_NV
| VK_ERROR_UNKNOWN.

Global Instance VkResult_eq_dec : EqDecision VkResult.
Proof. solve_decision. Defined.

(** ** Exception.hpp and the error classes *)

Module Exception.

Inductive CompatibilityFactor := SEM_VERSION | EXACT_VERSION.

(** Every class derived from [vkw::Error] that the modelled code posts,
    with its constructor arguments. *)
Inductive Error :=
| LogicError (what : string)
| ApiVersionUnsupported (details : string) (lastSupported unsupported : ApiVersion)
                        (compatibility : CompatibilityFactor)
| SymbolsMissing (loaded requested : ApiVersion)
| VulkanLoadError (details : string)
| ExtensionNameError (name : string)
| LayerNameError (name : string)
| ExtensionMissing (id : ext) (extName : string)
| ExtensionUnsupported (id : ext) (extName : string)
| LayerMissing (id : layer) (layerName : string)
| LayerUnsupported (id : layer) (layerName : string)
| VulkanError (error : VkResult) (filename : string) (line : N).

(** [virtual std::string_view codeString() const noexcept = 0] and its
    overrides. *)
Definition codeString (e : Error) : string :=
  match e with
  | LogicError _ => "logic error"
  | ApiVersionUnsupported _ _ _ _ => "API version unsupported"
  | SymbolsMissing _ _ => "Symbols missing"
  | VulkanLoadError _ => "Vulkan load error"
  | ExtensionNameError _ => "Bad extension name"
  | LayerNameError _ => "Bad layer name"
  | ExtensionMissing _ _ => "Extension missing"
  | ExtensionUnsupported _ _ => "Extension unsupported"
  | LayerMissing _ _ => "Layer missing"
  | LayerUnsupported _ _ => "Layer unsupported"
  | VulkanError _ _ _ => "Vulkan error"
  end.

(** [VulkanError::errorString]. *)
Definition errorString (errorCode : VkResult) : string :=
  match errorCode with
  | VK_NOT_READY => "NOT_READY"
  | VK_TIMEOUT => "TIMEOUT"
  | VK_EVENT_SET => "EVENT_SET"
  | VK_EVENT_RESET => "EVENT_RESET"
  | VK_INCOMPLETE => "INCOMPLETE"
  | VK_ERROR_OUT_OF_HOST_MEMORY => "ERROR_OUT_OF_HOST_MEMORY"
  | VK_ERROR_OUT_OF_DEVICE_MEMORY => "ERROR_OUT_OF_DEVICE_MEMORY"
  | VK_ERROR_OUT_OF_POOL_MEMORY => "ERROR_OUT_OF_POOL_MEMORY"
  | VK_ERROR_INITIALIZATION_FAILED => "ERROR_INITIALIZATION_FAILED"
  | VK_ERROR_DEVICE_LOST => "ERROR_DEVICE_LOST"
  | VK_ERROR_MEMORY_MAP_FAILED => "ERROR_MEMORY_MAP_FAILED"
  | VK_ERROR_LAYER_NOT_PRESENT => "ERROR_LAYER_NOT_PRESENT"
  | VK_ERROR_EXTENSION_NOT_PRESENT => "ERROR_EXTENSION_NOT_PRESENT"
  | VK_ERROR_FEATURE_NOT_PRESENT => "ERROR_FEATURE_NOT_PRESENT"
  | VK_ERROR_INCOMPATIBLE_DRIVER => "ERROR_INCOMPATIBLE_DRIVER"
  | VK_ERROR_TOO_MANY_OBJECTS => "ERROR_TOO_MANY_OBJECTS"
  | VK_ERROR_FORMAT_NOT_SUPPORTED => "ERROR_FORMAT_NOT_SUPPORTED"
  | VK_ERROR_SURFACE_LOST_KHR => "ERROR_SURFACE_LOST_KHR"
  | VK_ERROR_NATIVE_WINDOW_IN_USE_KHR => "ERROR_NATIVE_WINDOW_IN_USE_KHR"
  | VK_SUBOPTIMAL_KHR => "SUBOPTIMAL_KHR"
  | VK_ERROR_OUT_OF_DATE_KHR => "ERROR_OUT_OF_DATE_KHR"
  | VK_ERROR_INCOMPATIBLE_DISPLAY_KHR => "ERROR_INCOMPATIBLE_DISPLAY_KHR"
  | VK_ERROR_VALIDATION_FAILED_EXT => "ERROR_VALIDATION_FAILED_EXT"
  | VK_ERROR_INVALID_SHADER_NV => "ERROR_INVALID_SHADER_NV"
  | _ => "UNKNOWN_ERROR"
  end.

Definition newline : string := String (Ascii.ascii_of_nat 10) EmptyString.

(** [std::runtime_error::what()]: the string each constructor hands to
    [Error(std::string_view what)]. *)
Definition what (e : Error) : string :=
  match e with
  | LogicError w => w
  | ApiVersionUnsupported details lastSupported unsupported compatibility =>
      details +:+ ": " +:+ show_ApiVersion unsupported +:+ " is unsupported (" +:+
      match compatibility with
      | EXACT_VERSION => "supported: =="
      | SEM_VERSION => "supported: >="
      end +:+ show_ApiVersion lastSupported +:+ ")"
  | SymbolsMissing loaded requested =>
      "vulkan symbols for " +:+ show_ApiVersion requested +:+
      " version are unavailable. Most recent version loaded: " +:+
      show_ApiVersion loaded
  | VulkanLoadError details => details
  | ExtensionNameError name => name
  | LayerNameError name => name
  | ExtensionMissing _ extName => extName
  | ExtensionUnsupported _ extName => extName
  | LayerMissing _ layerName => layerName
  | LayerUnsupported _ layerName => layerName
  | VulkanError error filename line =>
      "Vulkan function call returned VkResult: " +:+ errorString error +:+
      newline +:+ " in file " +:+ filename +:+ " on line " +:+ show_uint line
  end.

(** [ExtensionError::extName()], [LayerError::layerName()] and the
    [name()] of the two name errors all return [what()]; they exist only
    on their own classes. *)
Definition extName (e : Error) : option string :=
  match e with
  | ExtensionMissing _ _ | ExtensionUnsupported _ _ => Some (what e)
  | _ => None
  end.
Definition layerName (e : Error) : option string :=
  match e with
  | LayerMissing _ _ | LayerUnsupported _ _ => Some (what e)
  | _ => None
  end.

(** *** Reporting *)

(** A registered [std::function<void(const Error &)>] is identified by a
    number; running it is recorded as an event. Callbacks are taken to
    return normally. *)
Definition Callback := nat.

Inductive Event :=
| Invoked (callback : Callback) (e : Error)       (* callback(e) *)
| NativeDestroy (fn : Handle) (handle : Handle).  (* destroyFn(handle, allocator) *)

(** How a call leaves its frame. *)
Inductive Exit :=
| Returned
| Thrown (e : Error)
| Terminated.              (* std::terminate() *)


(** [irrecoverableError]: the range-for over the callbacks, then
    [std::terminate()]. *)
Definition irrecoverableError (irrecoverableCallbacks : list Callback)
    (e : Error) : list Event * Exit :=
  (foldl (fun trace callback => trace ++ [Invoked callback e]) []
         irrecoverableCallbacks,
   Terminated).

(** [postError]; the argument [VKW_ENABLE_EXCEPTIONS] is the build
    switch of the [#ifdef]. *)
Definition postError (VKW_ENABLE_EXCEPTIONS : bool)
    (irrecoverableCallbacks : list Callback) (e : Error) : list Event * Exit :=
  if VKW_ENABLE_EXCEPTIONS then ([], Thrown e)
  else irrecoverableError irrecoverableCallbacks e.

Definition ExceptionsDisabled (VKW_ENABLE_EXCEPTIONS : bool) : bool :=
  negb VKW_ENABLE_EXCEPTIONS.

End Exception.
Export Exception.

(** ** The error monad of fallible wrapper functions *)

Inductive Result (A : Type) :=
| Ok (a : A)
| Err (e : Error).          (* control reached [postError(e)] *)
Arguments Ok {A} a.
Arguments Err {A} e.

Global Instance Result_ret : MRet Result := fun _ a => Ok a.
Global Instance Result_bind : MBind Result := fun _ _ f r =>
  match r with
  | Ok a => f a
  | Err e => Err e
  end.

(** [std::for_each(first, last, f)] where [f] may post an error. *)
Fixpoint for_each {A} (f : A -> Result unit) (l : list A) : Result unit :=
  match l with
  | [] => Ok tt
  | x :: l' => f x ≫= fun _ => for_each f l'
  end.

(** [std::find_if] over an array, as the offset [found - begin]; [end] is
    the length. *)
Fixpoint find_if {A} (p : A -> bool) (l : list A) : nat :=
  match l with
  | [] => O
  | x :: l' => if p x then O else S (find_if p l')
  end.

(** [std::any_of], [std::ranges::none_of]. *)
Definition any_of {A} (p : A -> bool) (l : list A) : bool := existsb p l.
Definition none_of {A} (p : A -> bool) (l : list A) : bool := negb (existsb p l).

(** ** The generated tables

    [vkw/SymbolTable.inc] and [vkw/LayerMap.inc] are produced at build time
    from the Vulkan registry. Their content is a parameter of the model:
    the enumerator lists that expand into [enum class ext] / [enum class
    layer] and into the name arrays, the (major, minor) pairs for which
    [InstanceCore] / [DeviceCore] are specialised, and the constructors of
    these classes, which take the proc-address resolver and the level
    handle, resolve their entries and may post an error. *)
Record GeneratedTables := {
  ExtensionEntries : list string;   (* X of each VKW_EXTENSION_ENTRY(X) *)
  LayerEntries : list string;       (* X of each VKW_LAYER_MAP_ENTRY(X) *)
  InstanceCores : list (N * N);     (* InstanceCore<major, minor> : SymbolTableBase *)
  DeviceCores : list (N * N);       (* DeviceCore<major, minor> : SymbolTableBase *)
  InstanceCore_ctor : N * N -> (Handle -> string -> Handle) -> Handle -> Result unit;
  DeviceCore_ctor : N * N -> (Handle -> string -> Handle) -> Handle -> Result unit
}.

(** [derived_from<InstanceCore<major, minor>, SymbolTableBase<...>>]. *)
Definition core_defined (cores : list (N * N)) (major minor : N) : bool :=
  existsb (fun c => (fst c =? major)%N && (snd c =? minor)%N) cores.

(** The enumerators are distinct identifiers, and no specialisation is
    declared at the last representable index. *)
Record tables_wf (T : GeneratedTables) : Prop := {
  wf_ext_enum : NoDup (ExtensionEntries T);
  wf_layer_enum : NoDup (LayerEntries T);
  wf_instance_cores :
    Forall (fun c => (fst c < UINT_MAX)%N ∧ (snd c < UINT_MAX)%N) (InstanceCores T);
  wf_device_cores :
    Forall (fun c => (fst c < UINT_MAX)%N ∧ (snd c < UINT_MAX)%N) (DeviceCores T)
}.

(** The part of the native loader and driver the model talks to. *)
Record VkInstanceCreateInfo := {
  pApplicationInfo_apiVersion : N;                (* uint32_t *)
  ppEnabledExtensionNames : list string;
  ppEnabledLayerNames : list string
}.

Record VkDeviceCreateInfo := {
  dev_ppEnabledExtensionNames : list string
}.

(** What the driver reports for one [VkPhysicalDevice]. *)
Record NativePhysicalDevice := {
  native_handle : Handle;
  native_apiVersion : ApiVersion;               (* VkPhysicalDeviceProperties::apiVersion *)
  native_extCount : N;                          (* first vkEnumerateDeviceExtensionProperties *)
  native_extResult : VkResult;                  (* result of the second call *)
  native_extensions : list string               (* extensionName of the filled array *)
}.

(** ** Library.hpp *)

Module Library.

(** [class Library]: the enumerated properties and the entry points. A
    function pointer is a [Handle]; [0] is [nullptr]. *)
Record Library := {
  m_layer_properties : list string;              (* VkLayerProperties::layerName *)
  m_instance_extension_properties : list string; (* VkExtensionProperties::extensionName *)
  vkEnumerateInstanceVersion : option ApiVersion;
  vkCreateInstance : VkInstanceCreateInfo -> VkResult * Handle;
  vkGetInstanceProcAddr : Handle -> string -> Handle;
  (* the entry points that [vkGetInstanceProcAddr] resolves for the names
     vkCreateDevice and vkGetDeviceProcAddr, kept by [InstanceCore<1, 0>] *)
  vkCreateDevice : Handle -> VkDeviceCreateInfo -> VkResult * Handle;
  vkGetDeviceProcAddr : Handle -> string -> Handle
}.

(** [Library::instanceAPIVersion]; [None] is the null entry point, [Some v]
    an entry point that reports [v] (as decoded by [ApiVersion{encoded}]). *)
Definition instanceAPIVersion (library : Library) : ApiVersion :=
  match vkEnumerateInstanceVersion library with
  | None => mkApiVersion 1 0 0
  | Some v => v
  end.

Section Names.
Context (T : GeneratedTables).

(** [ExtensionNames[]]: [STRINGIFY(VK_##X)] of every entry. *)
Definition ExtensionNames : list string :=
  map (fun X => "VK_" +:+ X) (ExtensionEntries T).

(** [LayerNames[]]: [STRINGIFY(VK_LAYER_##X)] of every entry. *)
Definition LayerNames : list string :=
  map (fun X => "VK_LAYER_" +:+ X) (LayerEntries T).

(** The value of enumerator [ext::X]: its position in the enum. *)
Definition ext_enumerator (X : string) : ext :=
  find_if (String.eqb X) (ExtensionEntries T).

Definition KHR_get_physical_device_properties2 : ext :=
  ext_enumerator "KHR_get_physical_device_properties2".
Definition EXT_memory_budget : ext :=
  ext_enumerator "EXT_memory_budget".

(** The bound asserted by [ExtensionName] and [LayerName]: the index is
    below the number of array entries. *)
Definition valid_ext (id : ext) : Prop := (id < length ExtensionNames)%nat.
Definition valid_layer (id : layer) : Prop := (id < length LayerNames)%nat.

(** [Library::ExtensionName]; the array access is guarded by the
    assertion [valid_ext]. *)
Definition ExtensionName (id : ext) : string := nth id ExtensionNames EmptyString.

(** [Library::ExtensionId]. *)
Definition ExtensionId (extensionName : string) : Result ext :=
  let found := find_if (String.eqb extensionName) ExtensionNames in
  if (found =? length ExtensionNames)%nat
  then Err (ExtensionNameError extensionName)
  else Ok found.

(** [Library::ValidExtensionName]. *)
Definition ValidExtensionName (extensionName : string) : bool :=
  let found := find_if (String.eqb extensionName) ExtensionNames in
  negb (found =? length ExtensionNames)%nat.

(** [Library::LayerName]. *)
Definition LayerName (id : layer) : string := nth id LayerNames EmptyString.

(** [Library::LayerId]. *)
Definition LayerId (layerName : string) : Result layer :=
  let found := find_if (String.eqb layerName) LayerNames in
  if (found =? length LayerNames)%nat
  then Err (LayerNameError layerName)
  else Ok found.

(** [Library::ValidLayerName]. *)
Definition ValidLayerName (layerName : string) : bool :=
  let found := find_if (String.eqb layerName) LayerNames in
  negb (found =? length LayerNames)%nat.

(** [Library::hasLayer]. *)
Definition hasLayer (library : Library) (layerId : layer) : bool :=
  let layerName := LayerName layerId in
  any_of (fun layer => String.eqb layerName layer) (m_layer_properties library).

(** [Library::hasInstanceExtension]. *)
Definition hasInstanceExtension (library : Library) (extensionId : ext) : bool :=
  let name := ExtensionName extensionId in
  any_of (fun layer => String.eqb name layer)
         (m_instance_extension_properties library).

End Names.

End Library.
Export Library.

(** ** The symbol loader shared by Instance and Device

    [loadInstanceSymbols<major, minor>] and [loadDeviceSymbols<major,
    minor>] are the same template recursion over different tables. The
    recursion depth is bounded by [fuel]; [None] means the bound was
    reached. [make] is the [std::make_unique] of the table class with its
    constructor arguments. The value returned stands for the
    [std::unique_ptr] to the table object: the (major, minor) of its
    dynamic type. *)
Fixpoint loadSymbols (cores : list (N * N)) (details : string)
    (make : N * N -> Result unit) (fuel : nat)
    (major minor : N) (version : ApiVersion) : option (Result (N * N)) :=
  match fuel with
  | O => None
  | S fuel' =>
      if ApiVersion_gt version (mkApiVersion major minor UINT_MAX) then
        if core_defined cores major (wrap32 (minor + 1)) then
          loadSymbols cores details make fuel' major (wrap32 (minor + 1)) version
        else if core_defined cores (wrap32 (major + 1)) 0 then
          loadSymbols cores details make fuel' (wrap32 (major + 1)) 0 version
        else
          Some (Err (ApiVersionUnsupported details (mkApiVersion major minor 0)
                                           version SEM_VERSION))
      else Some (make (major, minor) ≫= fun _ => Ok (major, minor))
  end.

(** Every recursive call instantiates a different specialisation, so
    one more than the number of specialisations is enough. *)
Definition load_fuel (cores : list (N * N)) : nat := S (length cores).

(** The specialisations the recursion of [loadSymbols] instantiates from
    <major, minor> on, in order. *)
Fixpoint core_chain (cores : list (N * N)) (fuel : nat) (major minor : N)
    : list (N * N) :=
  match fuel with
  | O => []
  | S fuel' =>
      (major, minor) ::
      if core_defined cores major (wrap32 (minor + 1)) then
        core_chain cores fuel' major (wrap32 (minor + 1))
      else if core_defined cores (wrap32 (major + 1)) 0 then
        core_chain cores fuel' (wrap32 (major + 1)) 0
      else []
  end.

(** The number of specialisations that come after <major, minor> in the
    order of instantiation: the measure that bounds the recursion. *)
Definition pair_ltb (a b : N * N) : bool :=
  (fst a <? fst b)%N || ((fst a =? fst b)%N && (snd a <? snd b)%N).
Definition cores_above (cores : list (N * N)) (major minor : N) : nat :=
  length (List.filter (pair_ltb (major, minor)) cores).

(** The recursion stops at table [c] for [version]: the negation of the
    test [version > ApiVersion{major, minor, UINT_MAX}]. *)
Definition covers (c : N * N) (version : ApiVersion) : bool :=
  negb (ApiVersion_gt version (mkApiVersion (fst c) (snd c) UINT_MAX)).

(** ** Instance.hpp *)

Module InstanceHpp.

(** [struct InstanceCreateInfo] (the name and engine strings play no
    role in negotiation). *)
Record InstanceCreateInfo := {
  requestedExtensions : list ext;
  requestedLayers : list layer;
  apiVersion : ApiVersion
}.

(** The default member initialisers. *)
Definition InstanceCreateInfo_default : InstanceCreateInfo :=
  {| requestedExtensions := []; requestedLayers := [];
     apiVersion := mkApiVersion 1 0 0 |}.

Definition requestApiVersion (version : ApiVersion) (CI : InstanceCreateInfo) :=
  {| requestedExtensions := requestedExtensions CI;
     requestedLayers := requestedLayers CI;
     apiVersion := version |}.

Definition requestExtension (e : ext) (CI : InstanceCreateInfo) :=
  {| requestedExtensions := requestedExtensions CI ++ [e];
     requestedLayers := requestedLayers CI;
     apiVersion := apiVersion CI |}.

Definition requestLayer (l : layer) (CI : InstanceCreateInfo) :=
  {| requestedExtensions := requestedExtensions CI;
     requestedLayers := requestedLayers CI ++ [l];
     apiVersion := apiVersion CI |}.

(** [class Instance]: the base [vk::Instance] contributes the handle and
    the parent reference of its deleter. *)
Record Instance := {
  handle : Handle;
  parent : Library;
  m_apiVer : ApiVersion;
  m_coreInstanceSymbols : N * N;
  m_enabledExtensions : gset ext;
  m_enabledLayers : gset layer
}.

Definition isExtensionEnabled (instance : Instance) (extension : ext) : bool :=
  bool_decide (extension ∈ m_enabledExtensions instance).

Definition isLayerEnabled (instance : Instance) (layer : layer) : bool :=
  bool_decide (layer ∈ m_enabledLayers instance).

(** [Instance::core<major, minor>()]. The [static_cast] yields the loaded
    table object itself. *)
Definition core (instance : Instance) (major minor : N) : Result (N * N) :=
  let requested := mkApiVersion major minor 0 in
  if ApiVersion_lt (m_apiVer instance) requested
  then Err (SymbolsMissing (m_apiVer instance) requested)
  else Ok (m_coreInstanceSymbols instance).

(** [__FILE__] of this header. *)
Definition Instance_hpp : string := "vkw/Instance.hpp".

(** [__detail::InstanceDestructor::create]. *)
Definition InstanceDestructor_create (library : Library)
    (createInfo : VkInstanceCreateInfo) : Result Handle :=
  let '(res, ret) := vkCreateInstance library createInfo in
  if decide (res = VK_SUCCESS) then Ok ret
  else Err (VulkanError res Instance_hpp 128).


Section WithTables.
Context (T : GeneratedTables).

(** The constructor of [class CompiledInstanceCreateInfo]; the result
    is the [VkInstanceCreateInfo] that [get()] hands to the native
    call. *)
Definition CompiledInstanceCreateInfo (library : Library)
    (CI : InstanceCreateInfo) : Result VkInstanceCreateInfo :=
  (if ApiVersion_lt (instanceAPIVersion library) (apiVersion CI)
   then Err (ApiVersionUnsupported
               "Cannot create instance with requested api version"
               (instanceAPIVersion library) (apiVersion CI) SEM_VERSION)
   else Ok tt) ≫= fun _ =>
  for_each (fun id =>
              if negb (hasLayer T library id)
              then Err (LayerUnsupported id (LayerName T id))
              else Ok tt)
           (requestedLayers CI) ≫= fun _ =>
  for_each (fun id =>
              if negb (hasInstanceExtension T library id)
              then Err (ExtensionUnsupported id (ExtensionName T id))
              else Ok tt)
           (requestedExtensions CI) ≫= fun _ =>
  let requestedExtensions :=
    if hasInstanceExtension T library (KHR_get_physical_device_properties2 T) &&
       none_of (fun extension =>
                  (extension =? KHR_get_physical_device_properties2 T)%nat)
               (requestedExtensions CI)
    then requestedExtensions CI ++ [KHR_get_physical_device_properties2 T]
    else requestedExtensions CI in
  Ok {| pApplicationInfo_apiVersion := ApiVersion_to_uint32 (apiVersion CI);
        ppEnabledExtensionNames := map (ExtensionName T) requestedExtensions;
        ppEnabledLayerNames := map (LayerName T) (requestedLayers CI) |}.

(** [Instance::loadInstanceSymbols<1, 0>]; the table is built from
    [library.vkGetInstanceProcAddr] and the instance handle. *)
Definition loadInstanceSymbols (library : Library) (instance : Handle)
    (version : ApiVersion) : option (Result (N * N)) :=
  loadSymbols (InstanceCores T)
    "Could not load instance symbols for requested api version"
    (fun c => InstanceCore_ctor T c (vkGetInstanceProcAddr library) instance)
    (load_fuel (InstanceCores T)) 1 0 version.

(** [Instance::Instance]: base [vk::Instance(library,
    CompiledInstanceCreateInfo(library, createInfo))], then the members
    in declaration order, then the body. *)
Definition Instance_ctor (library : Library)
    (createInfo : InstanceCreateInfo) : option (Result Instance) :=
  match CompiledInstanceCreateInfo library createInfo
          ≫= InstanceDestructor_create library with
  | Err e => Some (Err e)
  | Ok h =>
      match loadInstanceSymbols library h (apiVersion createInfo) with
      | None => None
      | Some (Err e) => Some (Err e)
      | Some (Ok symbols) =>
          Some (Ok {| handle := h;
                      parent := library;
                      m_apiVer := apiVersion createInfo;
                      m_coreInstanceSymbols := symbols;
                      m_enabledExtensions :=
                        list_to_set (requestedExtensions createInfo);
                      m_enabledLayers :=
                        list_to_set (requestedLayers createInfo) |})
      end
  end.

End WithTables.

End InstanceHpp.

(** ** Layers.hpp *)

Module LayersHpp.

(** An object of [class Layer<id>]. *)
Record Layer := { layer_id : layer }.

(** [Layer<id>::Layer(Instance const &)]. *)
Definition Layer_ctor (T : GeneratedTables) (id : layer)
    (instance : InstanceHpp.Instance) : Result Layer :=
  if negb (InstanceHpp.isLayerEnabled instance id)
  then Err (LayerMissing id (LayerName T id))
  else Ok {| layer_id := id |}.

End LayersHpp.

(** ** PhysicalDevice.hpp *)

Module PhysicalDeviceHpp.

(** [class PhysicalDevice], restricted to version and extension state. *)
Record PhysicalDevice := {
  m_physicalDevice : Handle;
  m_properties_apiVersion : ApiVersion;
  m_supportedExtensions : list ext;
  m_enabledExtensions : list ext;
  m_requestedApiVersion : ApiVersion
}.

Definition supportedApiVersion (pd : PhysicalDevice) : ApiVersion :=
  m_properties_apiVersion pd.

Definition requestedApiVersion (pd : PhysicalDevice) : ApiVersion :=
  m_requestedApiVersion pd.

(** [std::ranges::count]. *)
Definition count (l : list ext) (id : ext) : nat :=
  length (filter (fun x => x = id) l).

(** [isExtensionEnabled]: the count converted to [bool]. *)
Definition isExtensionEnabled (pd : PhysicalDevice) (id : ext) : bool :=
  negb (count (m_enabledExtensions pd) id =? 0)%nat.

(** [PhysicalDevice::requestApiVersion]. *)
Definition requestApiVersion (version : ApiVersion) (pd : PhysicalDevice)
    : Result PhysicalDevice :=
  if ApiVersion_gt version (supportedApiVersion pd)
  then Err (ApiVersionUnsupported "Cannot create device with requested version"
                                  (supportedApiVersion pd) version SEM_VERSION)
  else Ok {| m_physicalDevice := m_physicalDevice pd;
             m_properties_apiVersion := m_properties_apiVersion pd;
             m_supportedExtensions := m_supportedExtensions pd;
             m_enabledExtensions := m_enabledExtensions pd;
             m_requestedApiVersion := version |}.

(** [PhysicalDevice::extensionSupported]: [std::find != end]. *)
Definition extensionSupported (pd : PhysicalDevice) (extension : ext) : bool :=
  bool_decide (extension ∈ m_supportedExtensions pd).

Section WithTables.
Context (T : GeneratedTables).

(** [PhysicalDevice::enableExtension]. *)
Definition enableExtension (extension : ext) (pd : PhysicalDevice)
    : Result PhysicalDevice :=
  if negb (extensionSupported pd extension)
  then Err (ExtensionUnsupported extension (ExtensionName T extension))
  else if bool_decide (extension ∈ m_enabledExtensions pd)
  then Ok pd
  else Ok {| m_physicalDevice := m_physicalDevice pd;
             m_properties_apiVersion := m_properties_apiVersion pd;
             m_supportedExtensions := m_supportedExtensions pd;
             m_enabledExtensions := m_enabledExtensions pd ++ [extension];
             m_requestedApiVersion := m_requestedApiVersion pd |}.

(** The range-for of the constructor over the enumerated
    [VkExtensionProperties], appending to [m_supportedExtensions]. *)
Fixpoint collectSupported (extensions : list string)
    (m_supportedExtensions : list ext) : Result (list ext) :=
  match extensions with
  | [] => Ok m_supportedExtensions
  | props :: rest =>
      if negb (ValidExtensionName T props)
      then collectSupported rest m_supportedExtensions
      else ExtensionId T props ≫= fun id =>
           collectSupported rest (m_supportedExtensions ++ [id])
  end.

(** [PhysicalDevice::PhysicalDevice(Instance const &, VkPhysicalDevice)].
    Every native query goes through [instance.core<1, 0>()]; the
    features query of version 1.1 goes through [instance.core<1, 1>()]
    under its version test. *)
Definition PhysicalDevice_ctor (instance : InstanceHpp.Instance)
    (device : NativePhysicalDevice) : Result PhysicalDevice :=
  InstanceHpp.core instance 1 0 ≫= fun _ =>
  (if ApiVersion_ge (InstanceHpp.m_apiVer instance) (mkApiVersion 1 1 0)
   then InstanceHpp.core instance 1 1 ≫= fun _ => Ok tt
   else Ok tt) ≫= fun _ =>
  (if (0 <? native_extCount device)%N
   then if decide (native_extResult device = VK_SUCCESS)
        then collectSupported (native_extensions device) []
        else Ok []
   else Ok []) ≫= fun supported =>
  Ok {| m_physicalDevice := native_handle device;
        m_properties_apiVersion := native_apiVersion device;
        m_supportedExtensions := supported;
        m_enabledExtensions := [];
        m_requestedApiVersion := mkApiVersion 1 0 0 |}.

End WithTables.

End PhysicalDeviceHpp.

(** ** Device.hpp *)

Module DeviceHpp.
Import PhysicalDeviceHpp.

(** [class DeviceInfo]. *)
Record DeviceInfo := {
  m_ph_device : PhysicalDevice;
  m_enabledExtensionsRaw : list string;
  m_apiVer : ApiVersion
}.

(** [class Device : public DeviceInfo, public vk::Device]. *)
Record Device := {
  info : DeviceInfo;
  handle : Handle;
  parent : InstanceHpp.Instance;
  m_coreDeviceSymbols : N * N
}.

Definition physicalDevice (device : Device) : PhysicalDevice :=
  m_ph_device (info device).

Definition apiVersion (device : Device) : ApiVersion := m_apiVer (info device).

(** [Device::core<major, minor>()]. *)
Definition core (device : Device) (major minor : N) : Result (N * N) :=
  let requested := mkApiVersion major minor 0 in
  if ApiVersion_lt (apiVersion device) requested
  then Err (SymbolsMissing (apiVersion device) requested)
  else Ok (m_coreDeviceSymbols device).

Definition Device_hpp : string := "vkw/Device.hpp".

(** [__detail::DeviceDestructor::create]; the constructor entry point
    is [creator.core<1, 0>().vkCreateDevice]. *)
Definition DeviceDestructor_create (instance : InstanceHpp.Instance)
    (createInfo : Handle * VkDeviceCreateInfo) : Result Handle :=
  InstanceHpp.core instance 1 0 ≫= fun _ =>
  let '(res, ret) := vkCreateDevice (InstanceHpp.parent instance)
                                    (fst createInfo) (snd createInfo) in
  if decide (res = VK_SUCCESS) then Ok ret
  else Err (VulkanError res Device_hpp 44).

Section WithTables.
Context (T : GeneratedTables).

(** [DeviceInfo::DeviceInfo]. *)
Definition DeviceInfo_ctor (parent : InstanceHpp.Instance)
    (phDevice : PhysicalDevice) : Result DeviceInfo :=
  (if InstanceHpp.isExtensionEnabled parent (KHR_get_physical_device_properties2 T) &&
      extensionSupported phDevice (EXT_memory_budget T) &&
      none_of (fun extension => (extension =? EXT_memory_budget T)%nat)
              (m_enabledExtensions phDevice)
   then enableExtension T (EXT_memory_budget T) phDevice
   else Ok phDevice) ≫= fun m_ph_device =>
  Ok {| m_ph_device := m_ph_device;
        m_enabledExtensionsRaw :=
          map (ExtensionName T) (m_enabledExtensions m_ph_device);
        m_apiVer := requestedApiVersion m_ph_device |}.

(** [Device::loadDeviceSymbols<1, 0>]; the table is built from
    [instance.core<1, 0>().vkGetDeviceProcAddr] and the device handle. *)
Definition loadDeviceSymbols (instance : InstanceHpp.Instance) (device : Handle)
    (version : ApiVersion) : option (Result (N * N)) :=
  loadSymbols (DeviceCores T)
    "Could not load device symbols for requested api version"
    (fun c => InstanceHpp.core instance 1 0 ≫= fun _ =>
              DeviceCore_ctor T c
                (vkGetDeviceProcAddr (InstanceHpp.parent instance)) device)
    (load_fuel (DeviceCores T)) 1 0 version.

(** [Device::Device]. *)
Definition Device_ctor (instance : InstanceHpp.Instance)
    (phDevice : PhysicalDevice) : option (Result Device) :=
  match DeviceInfo_ctor instance phDevice with
  | Err e => Some (Err e)
  | Ok inf =>
      match DeviceDestructor_create instance
              (m_physicalDevice (m_ph_device inf),
               {| dev_ppEnabledExtensionNames := m_enabledExtensionsRaw inf |}) with
      | Err e => Some (Err e)
      | Ok h =>
          match loadDeviceSymbols instance h
                  (requestedApiVersion (m_ph_device inf)) with
          | None => None
          | Some (Err e) => Some (Err e)
          | Some (Ok symbols) =>
              Some (Ok {| info := inf; handle := h; parent := instance;
                          m_coreDeviceSymbols := symbols |})
          end
      end
  end.

End WithTables.

End DeviceHpp.

(** ** Extensions.hpp *)

Module ExtensionsHpp.

(** The overload set [__detail::isExtensionEnabled] / [getProcAddrOf]
    that [ExtensionBase<id, T>] is written against. *)
Class ExtensionLevel (L : Type) := {
  isExtensionEnabled : L -> ext -> bool;
  getProcAddrOf : L -> Result unit
}.

Global Instance Instance_level : ExtensionLevel InstanceHpp.Instance := {|
  isExtensionEnabled instance id := InstanceHpp.isExtensionEnabled instance id;
  getProcAddrOf instance := Ok tt
|}.

Global Instance Device_level : ExtensionLevel DeviceHpp.Device := {|
  isExtensionEnabled device id :=
    PhysicalDeviceHpp.isExtensionEnabled (DeviceHpp.physicalDevice device) id;
  getProcAddrOf device :=
    InstanceHpp.core (DeviceHpp.parent device) 1 0 ≫= fun _ => Ok tt
|}.

(** An object of [ExtensionBase<id, T>]: the symbol table base bound to
    its level. *)
Record ExtensionBase (L : Type) := { ext_id : ext; m_level : L }.
Arguments ext_id {L} _.
Arguments m_level {L} _.

(** [ExtensionBase<id, T>::ExtensionBase(T const &)]. *)
Definition ExtensionBase_ctor (T : GeneratedTables) {L} `{ExtensionLevel L}
    (id : ext) (handle : L) : Result (ExtensionBase L) :=
  getProcAddrOf handle ≫= fun _ =>
  if negb (isExtensionEnabled handle id)
  then Err (ExtensionMissing id (ExtensionName T id))
  else Ok {| ext_id := id; m_level := handle |}.

End ExtensionsHpp.

(** ** SymbolTable.hpp: [Unique<T>] and its deleter *)

Module UniqueHpp.

(** [Unique<T>] is a [std::unique_ptr<std::remove_pointer_t<T>, Deleter>]:
    the stored handle and the deleter, which keeps the reference to the
    creator. A creator is identified by a number. *)
Record Unique := { get : Handle; get_deleter : nat }.

(** One invocation [Deleter::operator()(handle)]: the native destroy
    entry point of [creator] applied to [handle]. *)
Inductive DeleterCall := Deleted (creator : nat) (handle : Handle).

Definition deleted_handle (c : DeleterCall) : Handle :=
  match c with Deleted _ h => h end.

Definition SymbolTable_hpp : string := "vkw/SymbolTable.hpp".

(** [UniqueDeleter<T>::create]: [VK_CHECK_RESULT] around the native
    constructor, whose result and out-parameter are [native]. *)
Definition UniqueDeleter_create (native : VkResult * Handle) : Result Handle :=
  let '(res, ret) := native in
  if decide (res = VK_SUCCESS) then Ok ret
  else Err (VulkanError res SymbolTable_hpp 233).

(** [Unique<T>::Unique(creator, createInfo)]:
    [unique_ptr(Deleter::create(creator, createInfo), Deleter(creator))]. *)
Definition Unique_ctor (native : VkResult * Handle) (creator : nat) : Result Unique :=
  UniqueDeleter_create native ≫= fun h =>
  Ok {| get := h; get_deleter := creator |}.

(** [~unique_ptr()]: [if (get() != nullptr) get_deleter()(get())]. *)
Definition destroy (u : Unique) : list DeleterCall :=
  if decide (get u = VK_NULL_HANDLE) then []
  else [Deleted (get_deleter u) (get u)].

(** [release()]: returns the handle, leaves [nullptr]. *)
Definition release (u : Unique) : Handle * Unique :=
  (get u, {| get := VK_NULL_HANDLE; get_deleter := get_deleter u |}).

(** [reset(p)]: stores [p], then deletes the old handle if it was not
    null. *)
Definition reset (p : Handle) (u : Unique) : list DeleterCall * Unique :=
  (destroy u, {| get := p; get_deleter := get_deleter u |}).

(** The programs that use owning wrappers: named objects, a native
    allocator that hands out a fresh handle per successful create call,
    and the log of deleter invocations. *)
Record World := {
  objects : gmap nat Unique;
  next_handle : Z;
  created : list Handle;
  deleter_calls : list DeleterCall
}.

Definition deleted_handles (w : World) : list Handle :=
  map deleted_handle (deleter_calls w).

Definition init_world : World :=
  {| objects := ∅; next_handle := 1; created := []; deleter_calls := [] |}.

Inductive Command :=
| Construct (x creator : nat) (res : VkResult)  (* Unique x(creator, info) *)
| MoveConstruct (dst src : nat)                 (* Unique dst(std::move(src)) *)
| MoveAssign (dst src : nat)                    (* dst = std::move(src) *)
| Destroy (x : nat).                            (* x leaves scope *)

(** One statement. [None]: the statement is not well-formed in the
    current scope (unknown or redeclared name). *)
Definition step (w : World) (c : Command) : option World :=
  match c with
  | Construct x creator res =>
      match objects w !! x with
      | Some _ => None
      | None =>
          match Unique_ctor (res, next_handle w) creator with
          | Err _ => Some w
          | Ok u =>
              Some {| objects := <[x := u]> (objects w);
                      next_handle := next_handle w + 1;
                      created := created w ++ [get u];
                      deleter_calls := deleter_calls w |}
          end
      end
  | MoveConstruct dst src =>
      match objects w !! src, objects w !! dst with
      | Some a, None =>
          let '(p, a') := release a in
          Some {| objects := <[dst := {| get := p; get_deleter := get_deleter a |}]>
                               (<[src := a']> (objects w));
                  next_handle := next_handle w;
                  created := created w;
                  deleter_calls := deleter_calls w |}
      | _, _ => None
      end
  | MoveAssign dst src =>
      (* reset(u.release()); get_deleter() = std::move(u.get_deleter()) *)
      match objects w !! src with
      | Some a =>
          let '(p, a') := release a in
          let objects1 := <[src := a']> (objects w) in
          match objects1 !! dst with
          | Some b =>
              let '(calls, b') := reset p b in
              Some {| objects := <[dst := {| get := get b';
                                             get_deleter := get_deleter a |}]> objects1;
                      next_handle := next_handle w;
                      created := created w;
                      deleter_calls := deleter_calls w ++ calls |}
          | None => None
          end
      | None => None
      end
  | Destroy x =>
      match objects w !! x with
      | Some u =>
          Some {| objects := delete x (objects w);
                  next_handle := next_handle w;
                  created := created w;
                  deleter_calls := deleter_calls w ++ destroy u |}
      | None => None
      end
  end.

Fixpoint run (w : World) (cs : list Command) : option World :=
  match cs with
  | [] => Some w
  | c :: cs' =>
      match step w c with
      | Some w' => run w' cs'
      | None => None
      end
  end.

(** The ownership invariant: a non-null handle has one holder, was
    returned by a create call and has not been handed to a deleter; the
    deleter log has no repetition and holds created handles only. *)
Record world_inv (w : World) : Prop := {
  inv_next : (0 < next_handle w)%Z;
  inv_held : ∀ x u, objects w !! x = Some u → get u ≠ VK_NULL_HANDLE →
                    get u ∈ created w ∧ get u ∉ deleted_handles w;
  inv_unique : ∀ x y u v, objects w !! x = Some u → objects w !! y = Some v →
                          get u = get v → get u ≠ VK_NULL_HANDLE → x = y;
  inv_created : ∀ h, h ∈ created w → (0 < h < next_handle w)%Z;
  inv_deleted_created : ∀ h, h ∈ deleted_handles w → h ∈ created w;
  inv_deleted_nodup : NoDup (deleted_handles w)
}.

End UniqueHpp.

(** ** Sample data used by the concrete examples *)

Module Samples.
Import InstanceHpp.

(** A small instance of the generated tables. *)
Definition tables : GeneratedTables :=
  {| ExtensionEntries := ["KHR_surface"; "KHR_swapchain";
                          "KHR_get_physical_device_properties2";
                          "EXT_memory_budget"; "EXT_debug_utils"];
     LayerEntries := ["KHRONOS_validation"];
     InstanceCores := [(1, 0); (1, 1); (1, 2); (1, 3)]%N;
     DeviceCores := [(1, 0); (1, 1); (1, 2); (1, 3)]%N;
     InstanceCore_ctor := fun _ _ _ => Ok tt;
     DeviceCore_ctor := fun _ _ _ => Ok tt |}.

Definition KHR_surface : ext := ext_enumerator tables "KHR_surface".
Definition KHR_swapchain : ext := ext_enumerator tables "KHR_swapchain".
Definition KHRONOS_validation : layer := 0%nat.

(** A loader whose native calls succeed. *)
Definition library (version : ApiVersion) : Library :=
  {| m_layer_properties := ["VK_LAYER_KHRONOS_validation"];
     m_instance_extension_properties :=
       ["VK_KHR_surface"; "VK_KHR_get_physical_device_properties2";
        "VK_EXT_debug_utils"];
     vkEnumerateInstanceVersion := Some version;
     vkCreateInstance := fun _ => (VK_SUCCESS, 1000%Z);
     vkGetInstanceProcAddr := fun _ name =>
       if String.eqb name "vkDestroyInstance" then 77%Z else 0%Z;
     vkCreateDevice := fun _ _ => (VK_SUCCESS, 2000%Z);
     vkGetDeviceProcAddr := fun _ _ => 88%Z |}.


(** A driver report that mixes registered and unregistered names. *)
Definition gpu : NativePhysicalDevice :=
  {| native_handle := 500%Z;
     native_apiVersion := mkApiVersion 1 3 0;
     native_extCount := 4;
     native_extResult := VK_SUCCESS;
     native_extensions := ["VK_KHR_swapchain"; "VK_NV_unregistered";
                           "VK_EXT_memory_budget"; "VK_KHR_swapchain"] |}.

(** A request for version 1.1.0 with one extension, and the contexts
    built from it. *)
Definition request11 : InstanceCreateInfo :=
  requestExtension KHR_surface
    (requestApiVersion (mkApiVersion 1 1 0) InstanceCreateInfo_default).

Definition instance11 : Instance :=
  {| handle := 1000%Z;
     parent := library (mkApiVersion 1 3 0);
     m_apiVer := mkApiVersion 1 1 0;
     m_coreInstanceSymbols := (1, 1)%N;
     m_enabledExtensions := list_to_set [KHR_surface];
     m_enabledLayers := list_to_set [] |}.

Definition physical_device12 : PhysicalDeviceHpp.PhysicalDevice :=
  {| PhysicalDeviceHpp.m_physicalDevice := 500%Z;
     PhysicalDeviceHpp.m_properties_apiVersion := mkApiVersion 1 3 0;
     PhysicalDeviceHpp.m_supportedExtensions := [1; 3; 1]%nat;
     PhysicalDeviceHpp.m_enabledExtensions := [KHR_swapchain];
     PhysicalDeviceHpp.m_requestedApiVersion := mkApiVersion 1 2 0 |}.

Definition device12 : DeviceHpp.Device :=
  {| DeviceHpp.info :=
       {| DeviceHpp.m_ph_device := physical_device12;
          DeviceHpp.m_enabledExtensionsRaw := ["VK_KHR_swapchain"];
          DeviceHpp.m_apiVer := mkApiVersion 1 2 0 |};
     DeviceHpp.handle := 2000%Z;
     DeviceHpp.parent := instance11;
     DeviceHpp.m_coreDeviceSymbols := (1, 2)%N |}.

(** A request that names the same extension twice. *)
Definition duplicate_request : InstanceCreateInfo :=
  requestExtension KHR_surface
    (requestExtension KHR_surface InstanceCreateInfo_default).

(** The scenario: version 1.3.0, layer Debug, extensions ExtA and ExtB
    advertised; version 1.2.0 and ExtA requested. *)
Definition scenario_tables : GeneratedTables :=
  {| ExtensionEntries := ["ExtA"; "ExtB"];
     LayerEntries := ["Debug"];
     InstanceCores := [(1, 0); (1, 1); (1, 2); (1, 3)]%N;
     DeviceCores := [(1, 0); (1, 1); (1, 2); (1, 3)]%N;
     InstanceCore_ctor := fun _ _ _ => Ok tt;
     DeviceCore_ctor := fun _ _ _ => Ok tt |}.

Definition ExtA : ext := ext_enumerator scenario_tables "ExtA".
Definition ExtB : ext := ext_enumerator scenario_tables "ExtB".

Definition scenario_registry : Library :=
  {| m_layer_properties := ["VK_LAYER_Debug"];
     m_instance_extension_properties := ["VK_ExtA"; "VK_ExtB"];
     vkEnumerateInstanceVersion := Some (mkApiVersion 1 3 0);
     vkCreateInstance := fun _ => (VK_SUCCESS, 1000%Z);
     vkGetInstanceProcAddr := fun _ _ => 77%Z;
     vkCreateDevice := fun _ _ => (VK_SUCCESS, 2000%Z);
     vkGetDeviceProcAddr := fun _ _ => 88%Z |}.

Definition scenario_request : InstanceCreateInfo :=
  requestExtension ExtA
    (requestApiVersion (mkApiVersion 1 2 0) InstanceCreateInfo_default).

End Samples.

(** ** PhysicalDevice.hpp: [class QueueFamily] *)

Module QueueFamilyHpp.

(** [class QueueFamily::NotEnoughQueues], with its constructor arguments. *)
Record NotEnoughQueues := {
  neq_index : N;
  neq_requested : N;
  neq_max : N
}.

Definition NotEnoughQueues_what (e : NotEnoughQueues) : string :=
  "Requested for " +:+ show_uint (neq_requested e) +:+
  " queues in queue family index " +:+ show_uint (neq_index e) +:+
  ", when it only supports at max " +:+ show_uint (neq_max e).

Definition NotEnoughQueues_codeString (e : NotEnoughQueues) : string :=
  "Not enough device queues".

(** The three capability masks of [VkQueueFlags] that the class tests.
    Their values are fixed by the Vulkan headers; the model takes them as
    parameters. *)
Record VkQueueFlagBits := {
  VK_QUEUE_GRAPHICS_BIT : Z;
  VK_QUEUE_COMPUTE_BIT : Z;
  VK_QUEUE_TRANSFER_BIT : Z
}.

(** The masks are single bits at three different positions. *)
Definition distinct_single_bits (B : VkQueueFlagBits) : Prop :=
  ∃ g c t : Z,
    (0 ≤ g)%Z ∧ (0 ≤ c)%Z ∧ (0 ≤ t)%Z ∧ g ≠ c ∧ g ≠ t ∧ c ≠ t ∧
    VK_QUEUE_GRAPHICS_BIT B = (2 ^ g)%Z ∧
    VK_QUEUE_COMPUTE_BIT B = (2 ^ c)%Z ∧
    VK_QUEUE_TRANSFER_BIT B = (2 ^ t)%Z.

(** [enum { GRAPHICS = 0x1, TRANSFER = 0x2, COMPUTE = 0x4 }]. *)
Definition GRAPHICS : Z := 1.
Definition TRANSFER : Z := 2.
Definition COMPUTE : Z := 4.

(** [struct Type { unsigned value : 3; Type(unsigned val) }]: the
    bit-field keeps the three low bits. *)
Definition Type_ctor (val : Z) : Z := Z.land val 7.

(** The conversion of an integer to [bool]. *)
Definition nonzero (z : Z) : bool := negb (z =? 0)%Z.

(** [VkQueueFamilyProperties], restricted to the members the class reads. *)
Record VkQueueFamilyProperties := {
  queueFlags : Z;
  queueCount : N
}.

Section WithFloat.
(** The priorities are [float]s that are stored and handed on, never
    computed with; their type is left open. *)
Context {float : Type}.

Record QueueFamily := {
  m_queuesRequested : list float;
  m_index : N;
  m_family : VkQueueFamilyProperties
}.

(** [QueueFamily(VkQueueFamilyProperties family, unsigned index)]. *)
Definition QueueFamily_ctor (family : VkQueueFamilyProperties) (index : N)
    : QueueFamily :=
  {| m_queuesRequested := []; m_index := index; m_family := family |}.

(** [QueueFamily::strictly]. *)
Definition strictly (B : VkQueueFlagBits) (family : QueueFamily) (type : Z) : bool :=
  let flags := 0%Z in
  let flags := if nonzero (Z.land type GRAPHICS)
               then Z.lor flags (VK_QUEUE_GRAPHICS_BIT B) else flags in
  let flags := if nonzero (Z.land type TRANSFER)
               then Z.lor flags (VK_QUEUE_TRANSFER_BIT B) else flags in
  let flags := if nonzero (Z.land type COMPUTE)
               then Z.lor flags (VK_QUEUE_COMPUTE_BIT B) else flags in
  let result := Z.lxor flags (queueFlags (m_family family)) in
  negb (nonzero (Z.land result (VK_QUEUE_GRAPHICS_BIT B))) &&
  negb (nonzero (Z.land result (VK_QUEUE_TRANSFER_BIT B))) &&
  negb (nonzero (Z.land result (VK_QUEUE_COMPUTE_BIT B))).

Definition graphics (B : VkQueueFlagBits) (family : QueueFamily) : bool :=
  nonzero (Z.land (queueFlags (m_family family)) (VK_QUEUE_GRAPHICS_BIT B)).
Definition transfer (B : VkQueueFlagBits) (family : QueueFamily) : bool :=
  nonzero (Z.land (queueFlags (m_family family)) (VK_QUEUE_TRANSFER_BIT B)).
Definition compute (B : VkQueueFlagBits) (family : QueueFamily) : bool :=
  nonzero (Z.land (queueFlags (m_family family)) (VK_QUEUE_COMPUTE_BIT B)).

Definition queueRequestedCount (family : QueueFamily) : N :=
  wrap32 (N.of_nat (length (m_queuesRequested family))).

Definition hasRequestedQueues (family : QueueFamily) : bool :=
  match m_queuesRequested family with [] => false | _ => true end.

(** [QueueFamily::requestQueue]; [inl] is the posted error. *)
Definition requestQueue (priority : float) (family : QueueFamily)
    : NotEnoughQueues + QueueFamily :=
  if (N.of_nat (length (m_queuesRequested family))
      =? queueCount (m_family family))%N
  then inl {| neq_index := m_index family;
              neq_requested := wrap32 (queueCount (m_family family) + 1);
              neq_max := queueCount (m_family family) |}
  else inr {| m_queuesRequested := m_queuesRequested family ++ [priority];
              m_index := m_index family;
              m_family := m_family family |}.

(** A sequence of calls [family.requestQueue(p)], one per priority, that
    stops at the first posted error. *)
Fixpoint requestQueues (priorities : list float) (family : QueueFamily)
    : NotEnoughQueues + QueueFamily :=
  match priorities with
  | [] => inr family
  | p :: rest =>
      match requestQueue p family with
      | inl e => inl e
      | inr family' => requestQueues rest family'
      end
  end.

(** [VkDeviceQueueCreateInfo], as filled by [DeviceInfo]. *)
Record VkDeviceQueueCreateInfo := {
  queueFamilyIndex : N;
  info_queueCount : N;
  pQueuePriorities : list float
}.

(** The [std::for_each] over the queue families in [DeviceInfo::DeviceInfo]
    that fills [m_queueCreateInfo]. *)
Fixpoint queueCreateInfos (queueFamilies : list QueueFamily)
    : list VkDeviceQueueCreateInfo :=
  match queueFamilies with
  | [] => []
  | family :: rest =>
      if negb (hasRequestedQueues family) then queueCreateInfos rest
      else {| queueFamilyIndex := m_index family;
              info_queueCount := queueRequestedCount family;
              pQueuePriorities := m_queuesRequested family |}
           :: queueCreateInfos rest
  end.

(** The [std::transform] of [PhysicalDevice::PhysicalDevice] that builds
    [m_queueFamilyProperties] with [indexAcc++]. *)
Fixpoint makeQueueFamilies (rawQueueProps : list VkQueueFamilyProperties)
    (indexAcc : N) : list QueueFamily :=
  match rawQueueProps with
  | [] => []
  | rawProp :: rest =>
      QueueFamily_ctor rawProp indexAcc :: makeQueueFamilies rest (wrap32 (indexAcc + 1))
  end.

End WithFloat.
Arguments QueueFamily : clear implicits.
Arguments VkDeviceQueueCreateInfo : clear implicits.

End QueueFamilyHpp.

(** ** PhysicalDevice.hpp: enumeration, extension and feature requests *)

Module PhysicalDeviceRequests.
Import PhysicalDeviceHpp.

(** [std::transform] with a callable that may post an error: the first
    error ends the loop. *)
Fixpoint transform {A B : Type} (f : A → Result B) (l : list A)
    : Result (list B) :=
  match l with
  | [] => Ok []
  | x :: rest => f x ≫= fun y => transform f rest ≫= fun ys => Ok (y :: ys)
  end.

Section WithTables.
Context (T : GeneratedTables).

(** [PhysicalDevice::enumerate].  [deviceCount] is what the first
    [vkEnumeratePhysicalDevices] call stores, [written] the handles the
    second call stores into the resized vector (never more than
    [deviceCount] of them), and [properties] what the native queries of the
    constructor answer for a handle.  Each [PhysicalDevice] is constructed
    from the handle in its slot of the vector. *)
Definition enumerate (instance : InstanceHpp.Instance)
    (deviceCount : N) (written : list Handle)
    (properties : Handle → NativePhysicalDevice)
    : Result (list PhysicalDevice) :=
  InstanceHpp.core instance 1 0 ≫= fun _ =>
  if (deviceCount =? 0)%N then Ok []
  else
    let devs := resize (N.to_nat deviceCount) VK_NULL_HANDLE written in
    InstanceHpp.core instance 1 0 ≫= fun _ =>
    transform
      (fun device =>
         PhysicalDevice_ctor T instance
           {| native_handle := device;
              native_apiVersion := native_apiVersion (properties device);
              native_extCount := native_extCount (properties device);
              native_extResult := native_extResult (properties device);
              native_extensions := native_extensions (properties device) |})
      devs.

(** A sequence of calls [enableExtension(e)], one per element, that stops
    at the first posted error. *)
Fixpoint enableExtensions (extensions : list ext) (pd : PhysicalDevice)
    : Result PhysicalDevice :=
  match extensions with
  | [] => Ok pd
  | extension :: rest =>
      enableExtension T extension pd ≫= enableExtensions rest
  end.

End WithTables.

(** The feature switches.  [feature] stands for the enumeration generated
    from [DeviceFeatures.inc], a structure of [VkBool32] members is a
    function from the enumeration, and [m_featureNameMap] is the generated
    name table. *)
Section WithFeatures.
Context {feature : Type} `{EqDecision feature}.
Context (m_featureNameMap : feature → string).

Definition VkPhysicalDeviceFeatures := feature → N.

Record Features := {
  m_features : VkPhysicalDeviceFeatures;
  m_enabledFeatures : VkPhysicalDeviceFeatures
}.

(** [PhysicalDevice::FeatureUnsupported]. *)
Record FeatureUnsupported := {
  unsupported_feature : feature;
  unsupported_what : string
}.

Definition FeatureUnsupported_codeString (e : FeatureUnsupported) : string :=
  "Device feature unsupported".

(** [isFeatureSupported]: the member converted to [bool]. *)
Definition isFeatureSupported (pd : Features) (f : feature) : bool :=
  negb (m_features pd f =? 0)%N.

(** [enableFeature]. *)
Definition enableFeature (f : feature) (pd : Features)
    : FeatureUnsupported + Features :=
  if negb (isFeatureSupported pd f)
  then inl {| unsupported_feature := f;
              unsupported_what := m_featureNameMap f |}
  else inr {| m_features := m_features pd;
              m_enabledFeatures :=
                fun g => if decide (g = f) then 1%N
                         else m_enabledFeatures pd g |}.

(** A sequence of calls [enableFeature(f)] that stops at the first
    posted error. *)
Fixpoint enableFeatures (fs : list feature) (pd : Features)
    : FeatureUnsupported + Features :=
  match fs with
  | [] => inr pd
  | f :: rest =>
      match enableFeature f pd with
      | inl e => inl e
      | inr pd' => enableFeatures rest pd'
      end
  end.

End WithFeatures.

End PhysicalDeviceRequests.

(** ** Surface.hpp: presentation support *)

Module SurfaceHpp.

Definition Surface_hpp : string := "vkw/Surface.hpp".

(** The [for] loop of
    [Surface::getQueueFamilyIndicesThatSupportPresenting]; [remaining]
    counts the iterations left, [i] is the loop variable. The native
    [vkGetPhysicalDeviceSurfaceSupportKHR] answers, for a family index, a
    result code and the [VkBool32] it stores. *)
Fixpoint presentingLoop (vkGetPhysicalDeviceSurfaceSupportKHR : N → VkResult * N)
    (remaining : nat) (i : N) (ret : list N) : Result (list N) :=
  match remaining with
  | O => Ok ret
  | S remaining' =>
      let '(res, supported) := vkGetPhysicalDeviceSurfaceSupportKHR i in
      if decide (res = VK_SUCCESS)
      then presentingLoop vkGetPhysicalDeviceSurfaceSupportKHR remaining'
             (i + 1)%N (if (supported =? 0)%N then ret else ret ++ [i])
      else Err (VulkanError res Surface_hpp 149)
  end.

(** The values the loop variable takes in [remaining] iterations that
    start at [i]. *)
Fixpoint loopIndices (i : N) (remaining : nat) : list N :=
  match remaining with
  | O => []
  | S remaining' => i :: loopIndices (i + 1)%N remaining'
  end.

(** [Surface::getQueueFamilyIndicesThatSupportPresenting]; the count is
    what [vkGetPhysicalDeviceQueueFamilyProperties] stores. *)
Definition getQueueFamilyIndicesThatSupportPresenting
    (parent : InstanceHpp.Instance) (queueFamilyCount : N)
    (vkGetPhysicalDeviceSurfaceSupportKHR : N → VkResult * N)
    : Result (list N) :=
  InstanceHpp.core parent 1 0 ≫= fun _ =>
  presentingLoop vkGetPhysicalDeviceSurfaceSupportKHR
    (N.to_nat queueFamilyCount) 0%N [].

End SurfaceHpp.

(** ** DescriptorPool.hpp *)

Module DescriptorPoolHpp.

Definition DescriptorPool_hpp : string := "vkw/DescriptorPool.hpp".

(** [class DescriptorPool]: the parent device, the creation flags and
    the counter of live sets. *)
Record DescriptorPool := {
  parent : DeviceHpp.Device;
  flags : Z;
  m_setCount : N
}.

Definition currentSetsCount (pool : DescriptorPool) : N := m_setCount pool.

(** [DescriptorPool::allocateSet]; [native] is the result code of
    [vkAllocateDescriptorSets] and the handle it stores. *)
Definition allocateSet (pool : DescriptorPool) (native : VkResult * Handle)
    : Result (Handle * DescriptorPool) :=
  DeviceHpp.core (parent pool) 1 0 ≫= fun _ =>
  let '(res, set) := native in
  if decide (res = VK_SUCCESS)
  then Ok (set, {| parent := parent pool; flags := flags pool;
                   m_setCount := wrap32 (m_setCount pool + 1) |})
  else Err (VulkanError res DescriptorPool_hpp 60).

(** The body of the [try] block of [freeSet]. *)
Definition freeSet_try (pool : DescriptorPool) (native : VkResult)
    : Result unit :=
  DeviceHpp.core (parent pool) 1 0 ≫= fun _ =>
  if decide (native = VK_SUCCESS) then Ok tt
  else Err (VulkanError native DescriptorPool_hpp 76).

(** [DescriptorPool::freeSet], a [noexcept] function: an exception that
    its [catch (VulkanError &)] does not take ends in [std::terminate()].
    The decrement of the [uint32_t] counter adds [UINT_MAX] modulo 2^32.
    The last argument of the mask test is
    [VK_DESCRIPTOR_POOL_CREATE_FREE_DESCRIPTOR_SET_BIT]. *)
Definition freeSet (VKW_ENABLE_EXCEPTIONS : bool)
    (irrecoverableCallbacks : list Callback)
    (VK_DESCRIPTOR_POOL_CREATE_FREE_DESCRIPTOR_SET_BIT : Z)
    (pool : DescriptorPool) (native : VkResult)
    : list Event * Exit * DescriptorPool :=
  if (Z.land (flags pool) VK_DESCRIPTOR_POOL_CREATE_FREE_DESCRIPTOR_SET_BIT =? 0)%Z
  then ([], Returned, pool)
  else
    match freeSet_try pool native with
    | Ok _ =>
        ([], Returned,
         {| parent := parent pool; flags := flags pool;
            m_setCount := wrap32 (m_setCount pool + UINT_MAX) |})
    | Err e =>
        let '(trace, exit) :=
          postError VKW_ENABLE_EXCEPTIONS irrecoverableCallbacks e in
        match exit with
        | Thrown (VulkanError error filename line) =>
            let '(trace', exit') :=
              irrecoverableError irrecoverableCallbacks
                                 (VulkanError error filename line) in
            (trace ++ trace', exit', pool)
        | Thrown _ => (trace, Terminated, pool)
        | _ => (trace, exit, pool)
        end
    end.

End DescriptorPoolHpp.

(** ** Accounting of created handles *)

Module UniqueAccounting.
Import UniqueHpp.

(** Every handle a create call returned is held by a live object or was
    handed to a deleter; the list of created handles has no repetition,
    since the allocator of [World] answers each create call with a fresh
    handle. *)
Record accounted (w : World) : Prop := {
  acc_nodup : NoDup (created w);
  acc_held_or_deleted :
    ∀ h, h ∈ created w →
      h ∈ deleted_handles w ∨ ∃ x u, objects w !! x = Some u ∧ get u = h
}.

End UniqueAccounting.

(** ** Library.hpp: property lookups *)

Module LibraryQueries.

Section WithTables.
Context (T : GeneratedTables).

(** [Library::layerProperties]; an advertised entry is modelled by its
    name, so the returned [VkLayerProperties] is the name found. *)
Definition layerProperties (library : Library) (layerId : layer)
    : Result string :=
  let layerName := LayerName T layerId in
  let found := find_if (fun layer => String.eqb layerName layer)
                       (m_layer_properties library) in
  if (found =? length (m_layer_properties library))%nat
  then Err (LayerMissing layerId layerName)
  else Ok (nth found (m_layer_properties library) EmptyString).

(** [Library::instanceExtensionProperties]. *)
Definition instanceExtensionProperties (library : Library) (extensionId : ext)
    : Result string :=
  let name := ExtensionName T extensionId in
  let found := find_if (fun layer => String.eqb name layer)
                       (m_instance_extension_properties library) in
  if (found =? length (m_instance_extension_properties library))%nat
  then Err (ExtensionMissing extensionId name)
  else Ok (nth found (m_instance_extension_properties library) EmptyString).

(** An extension or layer error carries the registered name of the ID it
    carries. *)
Definition names_its_id (e : Error) : Prop :=
  match e with
  | ExtensionMissing id extName | ExtensionUnsupported id extName =>
      extName = ExtensionName T id
  | LayerMissing id layerName | LayerUnsupported id layerName =>
      layerName = LayerName T id
  | _ => True
  end.

End WithTables.

End LibraryQueries.

(** ** Deleters that report through [postError] *)

Module CommandRecorderHpp.



End CommandRecorderHpp.

Module ImageHpp.


End ImageHpp.

(** * Properties *)

(** ** Version order *)

Section VersionOrder.

Lemma ApiVersion_lt_spec a b : ApiVersion_lt a b = true ↔ version_lt a b.
Proof.
  unfold ApiVersion_lt, ApiVersion_compare, version_lt.
  destruct (N.compare_spec (major a) (major b));
    destruct (N.compare_spec (minor a) (minor b));
    destruct (N.compare_spec (revision a) (revision b));
    split; intros; try discriminate; try reflexivity; lia.
Qed.

Lemma ApiVersion_gt_lt a b : ApiVersion_gt a b = ApiVersion_lt b a.
Proof.
  unfold ApiVersion_gt, ApiVersion_lt, ApiVersion_compare.
  rewrite (N.compare_antisym (major a) (major b)).
  rewrite (N.compare_antisym (minor a) (minor b)).
  rewrite (N.compare_antisym (revision a) (revision b)).
  destruct (major a ?= major b)%N, (minor a ?= minor b)%N,
           (revision a ?= revision b)%N; reflexivity.
Qed.

Lemma ApiVersion_lt_false a b :
  ApiVersion_lt a b = false ↔ ¬ version_lt a b.
Proof.
  rewrite <- ApiVersion_lt_spec. destruct (ApiVersion_lt a b); split; intros.
  - discriminate.
  - exfalso; auto.
  - discriminate.
  - reflexivity.
Qed.

Lemma ApiVersion_le_spec a b : ApiVersion_le a b = true ↔ ¬ version_lt b a.
Proof.
  unfold ApiVersion_le. rewrite ApiVersion_gt_lt, negb_true_iff.
  apply ApiVersion_lt_false.
Qed.

Lemma ApiVersion_le_trans a b c :
  ApiVersion_le a b = true → ApiVersion_le b c = true → ApiVersion_le a c = true.
Proof.
  rewrite !ApiVersion_le_spec. unfold version_lt. lia.
Qed.

(** Exactly one of [requested <= v] and [requested > v] holds. *)
Lemma ApiVersion_le_gt a b : ApiVersion_le a b = negb (ApiVersion_gt a b).
Proof. reflexivity. Qed.

End VersionOrder.

(** ** Searching the name arrays *)

Section FindIf.
Context {A : Type}.
Implicit Types (p : A → bool) (l : list A).

Lemma find_if_le p l : (find_if p l ≤ length l)%nat.
Proof. induction l as [|x l IH]; simpl; [lia|]. destruct (p x); simpl; lia. Qed.

Lemma find_if_none p l :
  (∀ x, x ∈ l → p x = false) → find_if p l = length l.
Proof.
  induction l as [|x l IH]; intros Hall; simpl; [reflexivity|].
  rewrite (Hall x) by apply list_elem_of_here.
  f_equal. apply IH. intros y Hy. apply Hall. by apply list_elem_of_further.
Qed.

Lemma find_if_found p l :
  (find_if p l < length l)%nat →
  ∃ x, l !! find_if p l = Some x ∧ p x = true.
Proof.
  induction l as [|x l IH]; simpl; [lia|].
  destruct (p x) eqn:Hpx; simpl; intros Hlt.
  - exists x. by split.
  - apply IH. lia.
Qed.

Lemma find_if_end p l :
  find_if p l = length l → ∀ x, x ∈ l → p x = false.
Proof.
  induction l as [|x l IH]; simpl; intros Hend y Hy.
  - by apply elem_of_nil in Hy.
  - destruct (p x) eqn:Hpx; [discriminate|].
    apply elem_of_cons in Hy as [->|Hy]; [done|].
    apply IH; [lia|done].
Qed.

End FindIf.

Lemma find_if_nth (l : list string) (i : nat) :
  NoDup l → (i < length l)%nat →
  find_if (String.eqb (nth i l EmptyString)) l = i.
Proof.
  revert i. induction l as [|x l IH]; intros i Hnd Hi; simpl in *; [lia|].
  apply list.NoDup_cons in Hnd as [Hx Hnd].
  destruct i as [|i].
  - by rewrite String.eqb_refl.
  - destruct (String.eqb (nth i l EmptyString) x) eqn:Heq.
    + apply String.eqb_eq in Heq. exfalso. apply Hx. rewrite <- Heq.
      apply list_elem_of_In, nth_In. lia.
    + f_equal. apply IH; [done|lia].
Qed.

Lemma NoDup_prefixed (prefix : string) (l : list string) :
  NoDup l → NoDup (map (fun X => prefix +:+ X) l).
Proof.
  assert (Hinj : ∀ a b, prefix +:+ a = prefix +:+ b → a = b).
  { induction prefix as [|c prefix IH]; simpl; intros a b Hab; [done|].
    injection Hab as Hab. by apply IH. }
  induction 1 as [|x l Hx Hnd IH]; simpl; [constructor|].
  apply list.NoDup_cons. split; [|done].
  intros Hin. apply list_elem_of_In, in_map_iff in Hin as (y & Hy & Hin).
  apply Hinj in Hy as ->. by apply Hx, list_elem_of_In.
Qed.

(** ** Name and ID translation *)

Section Translation.
Context (T : GeneratedTables).

Lemma ExtensionNames_NoDup : tables_wf T → NoDup (ExtensionNames T).
Proof. intros [Hwf _ _ _]. by apply NoDup_prefixed. Qed.

Lemma LayerNames_NoDup : tables_wf T → NoDup (LayerNames T).
Proof. intros [_ Hwf _ _]. by apply NoDup_prefixed. Qed.

(** A successful [ExtensionId] yields an index of the array, and the
    entry at that index is the name looked up. *)
Lemma ExtensionId_Ok name id :
  ExtensionId T name = Ok id → valid_ext T id ∧ ExtensionName T id = name.
Proof.
  unfold ExtensionId, valid_ext, ExtensionName.
  pose proof (find_if_le (String.eqb name) (ExtensionNames T)) as Hle.
  destruct (Nat.eqb_spec (find_if (String.eqb name) (ExtensionNames T))
                         (length (ExtensionNames T))) as [Heq|Hne];
    [discriminate|].
  intros [= <-].
  assert (Hlt : (find_if (String.eqb name) (ExtensionNames T)
                 < length (ExtensionNames T))%nat) by lia.
  split; [done|].
  destruct (find_if_found _ _ Hlt) as (x & Hx & Hp).
  apply String.eqb_eq in Hp as ->.
  by rewrite (nth_lookup_Some _ _ _ _ Hx).
Qed.

Lemma ValidExtensionName_true name :
  ValidExtensionName T name = true → ∃ id, ExtensionId T name = Ok id.
Proof.
  unfold ValidExtensionName, ExtensionId.
  destruct (find_if _ _ =? _)%nat; [discriminate|]. eauto.
Qed.

End Translation.

(** C6. Name/ID translation round-trips and fails closed: for tables whose
    enumerators are distinct, [ExtensionId (ExtensionName id) = id] for
    every extension ID inside the table and [LayerId (LayerName id) = id]
    for every layer ID inside the table; a string that is no entry of the
    name array makes [ExtensionId] post [ExtensionNameError] and [LayerId]
    post [LayerNameError], carrying that string. *)
Theorem C6_name_id_round_trip (T : GeneratedTables) :
  tables_wf T →
  (∀ id, valid_ext T id → ExtensionId T (ExtensionName T id) = Ok id) ∧
  (∀ id, valid_layer T id → LayerId T (LayerName T id) = Ok id) ∧
  (∀ name, name ∉ ExtensionNames T →
           ExtensionId T name = Err (ExtensionNameError name)) ∧
  (∀ name, name ∉ LayerNames T →
           LayerId T name = Err (LayerNameError name)).
Proof.
  intros Hwf. repeat split.
  - intros id Hid. unfold ExtensionId, ExtensionName.
    rewrite find_if_nth by (done || by apply ExtensionNames_NoDup).
    destruct (Nat.eqb_spec id (length (ExtensionNames T))); [|done].
    unfold valid_ext in Hid. lia.
  - intros id Hid. unfold LayerId, LayerName.
    rewrite find_if_nth by (done || by apply LayerNames_NoDup).
    destruct (Nat.eqb_spec id (length (LayerNames T))); [|done].
    unfold valid_layer in Hid. lia.
  - intros name Hname. unfold ExtensionId.
    rewrite find_if_none, Nat.eqb_refl; [done|].
    intros x Hx. apply String.eqb_neq. by intros ->.
  - intros name Hname. unfold LayerId.
    rewrite find_if_none, Nat.eqb_refl; [done|].
    intros x Hx. apply String.eqb_neq. by intros ->.
Qed.

Ltac solve_tables_wf :=
  split; simpl;
  [ apply (bool_decide_unpack _); vm_compute; exact I
  | apply (bool_decide_unpack _); vm_compute; exact I
  | repeat constructor
  | repeat constructor ].

Lemma C6_name_id_round_trip_witness :
  ExtensionId Samples.tables (ExtensionName Samples.tables 2%nat) = Ok 2%nat ∧
  LayerId Samples.tables (LayerName Samples.tables 0%nat) = Ok 0%nat ∧
  ExtensionId Samples.tables "VK_NV_unregistered"
    = Err (ExtensionNameError "VK_NV_unregistered") ∧
  LayerId Samples.tables "VK_LAYER_unknown"
    = Err (LayerNameError "VK_LAYER_unknown").
Proof.
  assert (Hwf : tables_wf Samples.tables) by solve_tables_wf.
  destruct (C6_name_id_round_trip Samples.tables Hwf) as (He & Hl & Hne & Hnl).
  split; [|split; [|split]].
  - apply He. unfold valid_ext. simpl. lia.
  - apply Hl. unfold valid_layer. simpl. lia.
  - apply Hne. apply (bool_decide_unpack _). vm_compute. exact I.
  - apply Hnl. apply (bool_decide_unpack _). vm_compute. exact I.
Defined.

(** ** The symbol loader *)

Section Loader.
Context (cores : list (N * N)) (details : string) (make : N * N → Result unit).

(** The table the loader returns is one at which the recursion's test
    fails, so it is not older than the negotiated version; its
    constructor has succeeded. *)
Lemma loadSymbols_Ok_covers fuel M m version c :
  loadSymbols cores details make fuel M m version = Some (Ok c) →
  covers c version = true ∧ make c = Ok tt.
Proof.
  revert M m. induction fuel as [|fuel IH]; intros M m; simpl; [discriminate|].
  destruct (ApiVersion_gt version (mkApiVersion M m UINT_MAX)) eqn:Hgt.
  - destruct (core_defined cores M (wrap32 (m + 1))); [apply IH|].
    destruct (core_defined cores (wrap32 (M + 1)) 0); [apply IH|discriminate].
  - destruct (make (M, m)) as [[]|e] eqn:Hmake; simpl; [|discriminate].
    intros [= <-]. unfold covers. simpl. by rewrite Hgt.
Qed.

(** If some table on the loader's chain covers the version, the loader
    constructs the first such table. *)
Lemma loadSymbols_covered fuel M m version :
  (∃ c, c ∈ core_chain cores fuel M m ∧ covers c version = true) →
  ∃ c, loadSymbols cores details make fuel M m version
         = Some (make c ≫= fun _ => Ok c) ∧
       c ∈ core_chain cores fuel M m ∧ covers c version = true.
Proof.
  revert M m. induction fuel as [|fuel IH]; intros M m (c & Hc & Hcov); simpl in *.
  { by apply elem_of_nil in Hc. }
  destruct (ApiVersion_gt version (mkApiVersion M m UINT_MAX)) eqn:Hgt.
  - apply elem_of_cons in Hc as [->|Hc].
    { unfold covers in Hcov. simpl in Hcov. by rewrite Hgt in Hcov. }
    destruct (core_defined cores M (wrap32 (m + 1))).
    + destruct (IH M (wrap32 (m + 1))) as (c' & Hl & Hin & Hcov'); [eauto|].
      exists c'. split; [done|]. split; [|done]. by apply list_elem_of_further.
    + destruct (core_defined cores (wrap32 (M + 1)) 0).
      * destruct (IH (wrap32 (M + 1)) 0%N) as (c' & Hl & Hin & Hcov'); [eauto|].
        exists c'. split; [done|]. split; [|done]. by apply list_elem_of_further.
      * by apply elem_of_nil in Hc.
  - exists (M, m). split; [done|]. split; [apply list_elem_of_here|].
    unfold covers. simpl. by rewrite Hgt.
Qed.

End Loader.

(** *** The fuel of the loader is enough *)

Lemma filter_length_lt {A} (P Q : A → bool) (x : A) (l : list A) :
  (∀ y, Q y = true → P y = true) →
  x ∈ l → P x = true → Q x = false →
  (length (List.filter Q l) < length (List.filter P l))%nat.
Proof.
  intros HQP Hx HPx HQx.
  assert (Hle : ∀ l', (length (List.filter Q l') ≤ length (List.filter P l'))%nat).
  { induction l' as [|y l' IH]; simpl; [lia|].
    destruct (Q y) eqn:HQy.
    - rewrite (HQP y HQy). simpl. lia.
    - destruct (P y); simpl; lia. }
  induction l as [|y l IH]; [by apply elem_of_nil in Hx|].
  apply elem_of_cons in Hx as [<-|Hx]; simpl.
  - rewrite HPx, HQx. simpl. specialize (Hle l). lia.
  - specialize (IH Hx). destruct (Q y) eqn:HQy.
    + rewrite (HQP y HQy). simpl. lia.
    + destruct (P y); simpl; lia.
Qed.

Lemma core_defined_elem cores M m :
  core_defined cores M m = true → (M, m) ∈ cores.
Proof.
  unfold core_defined. intros H. apply existsb_exists in H as ([a b] & Hin & Hab).
  simpl in Hab. apply andb_true_iff in Hab as [Ha Hb].
  apply N.eqb_eq in Ha as ->. apply N.eqb_eq in Hb as ->.
  by apply list_elem_of_In.
Qed.

Section LoaderFuel.
Context (cores : list (N * N)) (details : string) (make : N * N → Result unit).
Hypothesis cores_bounded :
  Forall (fun c => (fst c < UINT_MAX)%N ∧ (snd c < UINT_MAX)%N) cores.

Lemma wrap32_succ n : (n < UINT_MAX)%N → wrap32 (n + 1) = (n + 1)%N.
Proof. unfold wrap32, UINT_MAX. intros H. apply N.mod_small. lia. Qed.

Lemma pair_ltb_spec a b :
  pair_ltb a b = true ↔
  (fst a < fst b)%N ∨ (fst a = fst b ∧ (snd a < snd b)%N).
Proof.
  unfold pair_ltb.
  rewrite orb_true_iff, andb_true_iff, !N.ltb_lt, N.eqb_eq. tauto.
Qed.

Lemma pair_ltb_irrefl a : pair_ltb a a = false.
Proof.
  destruct (pair_ltb a a) eqn:H; [|done].
  apply pair_ltb_spec in H. lia.
Qed.

Lemma cores_above_step M m M' m' :
  (M', m') ∈ cores → pair_ltb (M, m) (M', m') = true →
  (cores_above cores M' m' < cores_above cores M m)%nat.
Proof.
  intros Hin Hlt. unfold cores_above.
  apply (filter_length_lt _ _ (M', m')); [|done|done|apply pair_ltb_irrefl].
  intros [a b] Hab. apply pair_ltb_spec in Hab, Hlt. apply pair_ltb_spec.
  simpl in *. lia.
Qed.

Lemma loadSymbols_fuel fuel M m version :
  (M < UINT_MAX)%N → (m < UINT_MAX)%N →
  (cores_above cores M m < fuel)%nat →
  ∃ r, loadSymbols cores details make fuel M m version = Some r.
Proof.
  revert M m. induction fuel as [|fuel IH]; intros M m HM Hm Hfuel; [lia|].
  simpl. destruct (ApiVersion_gt version (mkApiVersion M m UINT_MAX)); [|eauto].
  rewrite (wrap32_succ m Hm), (wrap32_succ M HM).
  destruct (core_defined cores M (m + 1)) eqn:Hd1.
  - apply core_defined_elem in Hd1.
    pose proof (proj1 (list.Forall_forall _ _) cores_bounded _ Hd1) as [? ?].
    apply IH; [done|done|].
    assert (pair_ltb (M, m) (M, (m + 1)%N) = true) as Hlt.
    { apply pair_ltb_spec. simpl. lia. }
    pose proof (cores_above_step M m M (m + 1)%N Hd1 Hlt). lia.
  - destruct (core_defined cores (M + 1) 0) eqn:Hd2; [|eauto].
    apply core_defined_elem in Hd2.
    pose proof (proj1 (list.Forall_forall _ _) cores_bounded _ Hd2) as [? ?].
    apply IH; [done|done|].
    assert (pair_ltb (M, m) ((M + 1)%N, 0%N) = true) as Hlt.
    { apply pair_ltb_spec. simpl. lia. }
    pose proof (cores_above_step M m (M + 1)%N 0%N Hd2 Hlt). lia.
Qed.

(** The loader started at <1, 0> with [load_fuel] always returns. *)
Lemma loadSymbols_total version :
  ∃ r, loadSymbols cores details make (load_fuel cores) 1 0 version = Some r.
Proof.
  apply loadSymbols_fuel; [done|done|].
  unfold load_fuel, cores_above.
  pose proof (List.filter_length_le (pair_ltb (1%N, 0%N)) cores). lia.
Qed.

End LoaderFuel.

(** ** What a constructed context records *)

Section Constructed.
Context (T : GeneratedTables).
Import InstanceHpp.

Lemma Instance_ctor_Ok library createInfo instance :
  Instance_ctor T library createInfo = Some (Ok instance) →
  ∃ info symbols,
    CompiledInstanceCreateInfo T library createInfo = Ok info ∧
    InstanceDestructor_create library info = Ok (handle instance) ∧
    loadInstanceSymbols T library (handle instance) (apiVersion createInfo)
      = Some (Ok symbols) ∧
    instance = {| handle := handle instance;
                  parent := library;
                  m_apiVer := apiVersion createInfo;
                  m_coreInstanceSymbols := symbols;
                  m_enabledExtensions := list_to_set (requestedExtensions createInfo);
                  m_enabledLayers := list_to_set (requestedLayers createInfo) |}.
Proof.
  unfold Instance_ctor.
  destruct (CompiledInstanceCreateInfo T library createInfo) as [info|e] eqn:Hc;
    simpl; [|discriminate].
  destruct (InstanceDestructor_create library info) as [h|e] eqn:Hn;
    [|discriminate].
  destruct (loadInstanceSymbols T library h (apiVersion createInfo))
    as [[symbols|e]|] eqn:Hl; try discriminate.
  intros [= <-]. exists info, symbols. by simpl.
Qed.

Lemma Device_ctor_Ok instance phDevice device :
  DeviceHpp.Device_ctor T instance phDevice = Some (Ok device) →
  DeviceHpp.DeviceInfo_ctor T instance phDevice = Ok (DeviceHpp.info device) ∧
  DeviceHpp.loadDeviceSymbols T instance (DeviceHpp.handle device)
    (PhysicalDeviceHpp.requestedApiVersion
       (DeviceHpp.m_ph_device (DeviceHpp.info device)))
    = Some (Ok (DeviceHpp.m_coreDeviceSymbols device)) ∧
  core instance 1 0 = Ok (m_coreInstanceSymbols instance) ∧
  DeviceHpp.parent device = instance.
Proof.
  unfold DeviceHpp.Device_ctor.
  destruct (DeviceHpp.DeviceInfo_ctor T instance phDevice) as [inf|e] eqn:Hi;
    [|discriminate].
  destruct (DeviceHpp.DeviceDestructor_create instance _) as [h|e] eqn:Hn;
    [|discriminate].
  destruct (DeviceHpp.loadDeviceSymbols T instance h _) as [[symbols|e]|] eqn:Hl;
    try discriminate.
  unfold DeviceHpp.DeviceDestructor_create, core in *.
  destruct (ApiVersion_lt (m_apiVer instance) (mkApiVersion 1 0 0)) eqn:Hv;
    simpl in *; [discriminate|].
  intros [= <-]. by simpl.
Qed.

Lemma enableExtension_requestedApiVersion extension pd pd' :
  PhysicalDeviceHpp.enableExtension T extension pd = Ok pd' →
  PhysicalDeviceHpp.requestedApiVersion pd'
    = PhysicalDeviceHpp.requestedApiVersion pd.
Proof.
  unfold PhysicalDeviceHpp.enableExtension.
  repeat case_match; try discriminate; by intros [= <-].
Qed.

Lemma DeviceInfo_ctor_apiVer instance phDevice inf :
  DeviceHpp.DeviceInfo_ctor T instance phDevice = Ok inf →
  DeviceHpp.m_apiVer inf = PhysicalDeviceHpp.requestedApiVersion phDevice ∧
  PhysicalDeviceHpp.requestedApiVersion (DeviceHpp.m_ph_device inf)
    = PhysicalDeviceHpp.requestedApiVersion phDevice.
Proof.
  unfold DeviceHpp.DeviceInfo_ctor.
  destruct (_ && _ && _).
  - destruct (PhysicalDeviceHpp.enableExtension T _ phDevice) as [pd'|e] eqn:He;
      simpl; [|discriminate].
    intros [= <-]. simpl. split; by eapply enableExtension_requestedApiVersion.
  - simpl. by intros [= <-].
Qed.

End Constructed.

(** C1. For a context, Instance or Device, that was constructed (so its
    negotiated version [v] is the requested one), the versioned query
    [core<M, m>()] returns the loaded table whenever [(M, m, 0) <= v], and
    that table is not older than [(M, m)]; whenever [(M, m, 0) > v] the
    query posts [SymbolsMissing] built from [v] and [(M, m, 0)]. The
    failure belongs to the query: construction has succeeded. *)
Theorem C1_core_version_gate (T : GeneratedTables) :
  (∀ library createInfo instance M m,
     InstanceHpp.Instance_ctor T library createInfo = Some (Ok instance) →
     InstanceHpp.m_apiVer instance = InstanceHpp.apiVersion createInfo ∧
     (ApiVersion_le (mkApiVersion M m 0) (InstanceHpp.m_apiVer instance) = true →
        InstanceHpp.core instance M m
          = Ok (InstanceHpp.m_coreInstanceSymbols instance) ∧
        covers (InstanceHpp.m_coreInstanceSymbols instance)
               (mkApiVersion M m 0) = true) ∧
     (ApiVersion_gt (mkApiVersion M m 0) (InstanceHpp.m_apiVer instance) = true →
        InstanceHpp.core instance M m
          = Err (SymbolsMissing (InstanceHpp.m_apiVer instance)
                                (mkApiVersion M m 0)))) ∧
  (∀ instance phDevice device M m,
     DeviceHpp.Device_ctor T instance phDevice = Some (Ok device) →
     DeviceHpp.apiVersion device
       = PhysicalDeviceHpp.requestedApiVersion phDevice ∧
     (ApiVersion_le (mkApiVersion M m 0) (DeviceHpp.apiVersion device) = true →
        DeviceHpp.core device M m = Ok (DeviceHpp.m_coreDeviceSymbols device) ∧
        covers (DeviceHpp.m_coreDeviceSymbols device) (mkApiVersion M m 0) = true) ∧
     (ApiVersion_gt (mkApiVersion M m 0) (DeviceHpp.apiVersion device) = true →
        DeviceHpp.core device M m
          = Err (SymbolsMissing (DeviceHpp.apiVersion device)
                                (mkApiVersion M m 0)))).
Proof.
  split.
  - intros library createInfo instance M m Hctor.
    destruct (Instance_ctor_Ok T _ _ _ Hctor) as (info & symbols & _ & _ & Hload & ->).
    simpl. split; [done|]. unfold InstanceHpp.core. simpl.
    apply loadSymbols_Ok_covers in Hload as [Hcov _].
    split.
    + intros Hle. split.
      * unfold ApiVersion_le in Hle. rewrite ApiVersion_gt_lt in Hle.
        apply negb_true_iff in Hle. by rewrite Hle.
      * unfold covers in *. eapply ApiVersion_le_trans; [exact Hle|exact Hcov].
    + intros Hgt. rewrite ApiVersion_gt_lt in Hgt. by rewrite Hgt.
  - intros instance phDevice device M m Hctor.
    destruct (Device_ctor_Ok T _ _ _ Hctor) as (Hinfo & Hload & _ & _).
    destruct (DeviceInfo_ctor_apiVer T _ _ _ Hinfo) as [Hver Hreq].
    unfold DeviceHpp.apiVersion. split; [done|].
    unfold DeviceHpp.core, DeviceHpp.apiVersion.
    apply loadSymbols_Ok_covers in Hload as [Hcov _].
    split.
    + intros Hle. split.
      * unfold ApiVersion_le in Hle. rewrite ApiVersion_gt_lt in Hle.
        apply negb_true_iff in Hle. by rewrite Hle.
      * unfold covers in *. eapply ApiVersion_le_trans; [exact Hle|].
        rewrite Hver, <- Hreq. exact Hcov.
    + intros Hgt. rewrite ApiVersion_gt_lt in Hgt. by rewrite Hgt.
Qed.

Lemma C1_core_version_gate_witness :
  (InstanceHpp.core Samples.instance11 1 1 = Ok (1, 1)%N ∧
   InstanceHpp.core Samples.instance11 1 2
     = Err (SymbolsMissing (mkApiVersion 1 1 0) (mkApiVersion 1 2 0))) ∧
  (DeviceHpp.core Samples.device12 1 2 = Ok (1, 2)%N ∧
   DeviceHpp.core Samples.device12 1 3
     = Err (SymbolsMissing (mkApiVersion 1 2 0) (mkApiVersion 1 3 0))).
Proof.
  assert (Hi : InstanceHpp.Instance_ctor Samples.tables
                 (Samples.library (mkApiVersion 1 3 0)) Samples.request11
               = Some (Ok Samples.instance11)) by (vm_compute; reflexivity).
  assert (Hd : DeviceHpp.Device_ctor Samples.tables Samples.instance11
                 Samples.physical_device12
               = Some (Ok Samples.device12)) by (vm_compute; reflexivity).
  destruct (C1_core_version_gate Samples.tables) as [HI HD].
  split; split.
  - apply (HI _ _ _ 1%N 1%N Hi). reflexivity.
  - apply (HI _ _ _ 1%N 2%N Hi). reflexivity.
  - apply (HD _ _ _ 1%N 2%N Hd). reflexivity.
  - apply (HD _ _ _ 1%N 3%N Hd). reflexivity.
Defined.

(** ** Error reporting *)

Lemma foldl_snoc_map {A B} (f : A → B) (l : list A) (acc : list B) :
  foldl (fun trace x => trace ++ [f x]) acc l = acc ++ map f l.
Proof.
  revert acc. induction l as [|x l IH]; intros acc; simpl.
  - by rewrite app_nil_r.
  - rewrite IH. by rewrite <- app_assoc.
Qed.






(** ** Capability accessors *)

(** C3. Constructing an extension accessor on an Instance or on a
    constructed Device whose enabled set lacks the extension posts
    [ExtensionMissing] with the ID and its canonical name; constructing a
    [Layer] on an Instance whose enabled set lacks the layer posts
    [LayerMissing] likewise; on a context where the extension or layer is
    enabled, construction succeeds. In the scenario (version 1.3.0, layer
    Debug and extensions ExtA, ExtB advertised; version 1.2.0 and ExtA
    requested) construction succeeds at version 1.2.0, ExtA is enabled,
    ExtB is supported but not enabled, and the accessor for ExtB fails
    with [ExtensionMissing], whose code string is not that of
    [ExtensionUnsupported]. *)
Theorem C3_accessor_requires_enabled (T : GeneratedTables) :
  (∀ (instance : InstanceHpp.Instance) (id : ext),
     (InstanceHpp.isExtensionEnabled instance id = false →
      ExtensionsHpp.ExtensionBase_ctor T id instance
        = Err (ExtensionMissing id (ExtensionName T id)) ∧
      extName (ExtensionMissing id (ExtensionName T id))
        = Some (ExtensionName T id)) ∧
     (InstanceHpp.isExtensionEnabled instance id = true →
      ExtensionsHpp.ExtensionBase_ctor T id instance
        = Ok {| ExtensionsHpp.ext_id := id; ExtensionsHpp.m_level := instance |})) ∧
  (∀ (instance : InstanceHpp.Instance) (id : layer),
     (InstanceHpp.isLayerEnabled instance id = false →
      LayersHpp.Layer_ctor T id instance = Err (LayerMissing id (LayerName T id)) ∧
      layerName (LayerMissing id (LayerName T id)) = Some (LayerName T id)) ∧
     (InstanceHpp.isLayerEnabled instance id = true →
      LayersHpp.Layer_ctor T id instance = Ok {| LayersHpp.layer_id := id |})) ∧
  (∀ instance phDevice (device : DeviceHpp.Device) (id : ext),
     DeviceHpp.Device_ctor T instance phDevice = Some (Ok device) →
     (PhysicalDeviceHpp.isExtensionEnabled (DeviceHpp.physicalDevice device) id
        = false →
      ExtensionsHpp.ExtensionBase_ctor T id device
        = Err (ExtensionMissing id (ExtensionName T id))) ∧
     (PhysicalDeviceHpp.isExtensionEnabled (DeviceHpp.physicalDevice device) id
        = true →
      ExtensionsHpp.ExtensionBase_ctor T id device
        = Ok {| ExtensionsHpp.ext_id := id; ExtensionsHpp.m_level := device |})) ∧
  (∃ context,
     InstanceHpp.Instance_ctor Samples.scenario_tables Samples.scenario_registry
                               Samples.scenario_request = Some (Ok context) ∧
     InstanceHpp.m_apiVer context = mkApiVersion 1 2 0 ∧
     InstanceHpp.isExtensionEnabled context Samples.ExtA = true ∧
     InstanceHpp.isExtensionEnabled context Samples.ExtB = false ∧
     hasInstanceExtension Samples.scenario_tables Samples.scenario_registry
                          Samples.ExtB = true ∧
     ExtensionsHpp.ExtensionBase_ctor Samples.scenario_tables Samples.ExtB context
       = Err (ExtensionMissing Samples.ExtB "VK_ExtB") ∧
     codeString (ExtensionMissing Samples.ExtB "VK_ExtB")
       ≠ codeString (ExtensionUnsupported Samples.ExtB "VK_ExtB")).
Proof.
  split; [|split; [|split]].
  - intros instance id. unfold ExtensionsHpp.ExtensionBase_ctor. simpl.
    split; intros ->; simpl; auto.
  - intros instance id. unfold LayersHpp.Layer_ctor.
    split; intros ->; simpl; auto.
  - intros instance phDevice device id Hctor.
    destruct (Device_ctor_Ok T _ _ _ Hctor) as (_ & _ & Hcore & Hparent).
    unfold ExtensionsHpp.ExtensionBase_ctor. simpl.
    rewrite Hparent, Hcore. simpl.
    split; intros ->; simpl; auto.
  - eexists. split; [vm_compute; reflexivity|].
    repeat (split; [vm_compute; reflexivity|]).
    vm_compute. discriminate.
Qed.

Lemma C3_accessor_requires_enabled_witness :
  ExtensionsHpp.ExtensionBase_ctor Samples.tables Samples.KHR_swapchain
                                   Samples.instance11
    = Err (ExtensionMissing Samples.KHR_swapchain
             (ExtensionName Samples.tables Samples.KHR_swapchain)) ∧
  ExtensionsHpp.ExtensionBase_ctor Samples.tables Samples.KHR_surface
                                   Samples.instance11
    = Ok {| ExtensionsHpp.ext_id := Samples.KHR_surface;
            ExtensionsHpp.m_level := Samples.instance11 |} ∧
  LayersHpp.Layer_ctor Samples.tables Samples.KHRONOS_validation Samples.instance11
    = Err (LayerMissing Samples.KHRONOS_validation
             (LayerName Samples.tables Samples.KHRONOS_validation)) ∧
  ExtensionsHpp.ExtensionBase_ctor Samples.tables Samples.KHR_swapchain
                                   Samples.device12
    = Ok {| ExtensionsHpp.ext_id := Samples.KHR_swapchain;
            ExtensionsHpp.m_level := Samples.device12 |}.
Proof.
  destruct (C3_accessor_requires_enabled Samples.tables) as (HI & HL & HD & _).
  split; [|split; [|split]].
  - apply (HI Samples.instance11 Samples.KHR_swapchain). vm_compute. reflexivity.
  - apply (HI Samples.instance11 Samples.KHR_surface). vm_compute. reflexivity.
  - apply (HL Samples.instance11 Samples.KHRONOS_validation). vm_compute. reflexivity.
  - apply (HD Samples.instance11 Samples.physical_device12 Samples.device12
              Samples.KHR_swapchain).
    + vm_compute. reflexivity.
    + vm_compute. reflexivity.
Defined.

(** ** Negotiation at instance level *)

Lemma for_each_check {A} (ok : A → bool) (err : A → Error) (l : list A) :
  for_each (fun x => if negb (ok x) then Err (err x) else Ok tt) l
  = match List.find (fun x => negb (ok x)) l with
    | Some x => Err (err x)
    | None => Ok tt
    end.
Proof.
  induction l as [|x l IH]; simpl; [done|].
  destruct (negb (ok x)); simpl; [done|apply IH].
Qed.

Lemma find_negb_Some {A} (ok : A → bool) (l : list A) (x : A) :
  List.find (fun x => negb (ok x)) l = Some x → x ∈ l ∧ ok x = false.
Proof.
  intros H. apply find_some in H as [Hin Hx].
  split; [by apply list_elem_of_In|by apply negb_true_iff].
Qed.

Lemma find_negb_None {A} (ok : A → bool) (l : list A) :
  List.find (fun x => negb (ok x)) l = None ↔ Forall (fun x => ok x = true) l.
Proof.
  induction l as [|x l IH]; simpl.
  - split; [constructor|done].
  - destruct (ok x) eqn:Hx; simpl.
    + rewrite IH. split; [by constructor|by inversion 1].
    + split; [done|]. inversion 1; congruence.
Qed.

Section Negotiation.
Context (T : GeneratedTables).
Import InstanceHpp.

(** The three checks of [CompiledInstanceCreateInfo], in their order. *)
Lemma CompiledInstanceCreateInfo_checks library CI :
  CompiledInstanceCreateInfo T library CI =
  if ApiVersion_lt (instanceAPIVersion library) (apiVersion CI) then
    Err (ApiVersionUnsupported "Cannot create instance with requested api version"
           (instanceAPIVersion library) (apiVersion CI) SEM_VERSION)
  else match List.find (fun id => negb (hasLayer T library id)) (requestedLayers CI) with
  | Some id => Err (LayerUnsupported id (LayerName T id))
  | None =>
  match List.find (fun id => negb (hasInstanceExtension T library id))
                  (requestedExtensions CI) with
  | Some id => Err (ExtensionUnsupported id (ExtensionName T id))
  | None =>
      Ok {| pApplicationInfo_apiVersion := ApiVersion_to_uint32 (apiVersion CI);
            ppEnabledExtensionNames :=
              map (ExtensionName T)
                (if hasInstanceExtension T library (KHR_get_physical_device_properties2 T) &&
                    none_of (fun extension =>
                               (extension =? KHR_get_physical_device_properties2 T)%nat)
                            (requestedExtensions CI)
                 then requestedExtensions CI ++ [KHR_get_physical_device_properties2 T]
                 else requestedExtensions CI);
            ppEnabledLayerNames := map (LayerName T) (requestedLayers CI) |}
  end end.
Proof.
  unfold CompiledInstanceCreateInfo.
  destruct (ApiVersion_lt _ _); simpl; [done|].
  rewrite (for_each_check (hasLayer T library)
             (fun id => LayerUnsupported id (LayerName T id))).
  destruct (List.find _ (requestedLayers CI)); simpl; [done|].
  rewrite (for_each_check (hasInstanceExtension T library)
             (fun id => ExtensionUnsupported id (ExtensionName T id))).
  by destruct (List.find _ (requestedExtensions CI)).
Qed.

Lemma Instance_ctor_compile_Err library CI e :
  CompiledInstanceCreateInfo T library CI = Err e →
  Instance_ctor T library CI = Some (Err e).
Proof. unfold Instance_ctor. by intros ->. Qed.

End Negotiation.

(** C5, as amended. For every request whose version is not above the
    advertised one and that names at least one layer or extension absent
    from the advertised set, construction fails with [LayerUnsupported] or
    [ExtensionUnsupported] for a requested layer or extension that is
    absent, and the error's name accessor yields the canonical name of
    that layer or extension. *)
Theorem C5_unsupported_names_offender (T : GeneratedTables) library CI :
  ApiVersion_le (InstanceHpp.apiVersion CI) (instanceAPIVersion library) = true →
  ((∃ id, id ∈ InstanceHpp.requestedLayers CI ∧ hasLayer T library id = false) ∨
   (∃ id, id ∈ InstanceHpp.requestedExtensions CI ∧
          hasInstanceExtension T library id = false)) →
  ∃ e, InstanceHpp.Instance_ctor T library CI = Some (Err e) ∧
       ((∃ id, id ∈ InstanceHpp.requestedLayers CI ∧
               hasLayer T library id = false ∧
               e = LayerUnsupported id (LayerName T id) ∧
               layerName e = Some (LayerName T id)) ∨
        (∃ id, id ∈ InstanceHpp.requestedExtensions CI ∧
               hasInstanceExtension T library id = false ∧
               e = ExtensionUnsupported id (ExtensionName T id) ∧
               extName e = Some (ExtensionName T id))).
Proof.
  intros Hver Hmissing.
  unfold ApiVersion_le in Hver. rewrite ApiVersion_gt_lt in Hver.
  apply negb_true_iff in Hver.
  pose proof (CompiledInstanceCreateInfo_checks T library CI) as Hc.
  rewrite Hver in Hc.
  destruct (List.find _ (InstanceHpp.requestedLayers CI)) as [l|] eqn:Hfl.
  { apply find_negb_Some in Hfl as [Hin Hno].
    eexists. split; [by apply Instance_ctor_compile_Err|].
    left. exists l. by repeat split. }
  destruct (List.find _ (InstanceHpp.requestedExtensions CI)) as [x|] eqn:Hfe.
  { apply find_negb_Some in Hfe as [Hin Hno].
    eexists. split; [by apply Instance_ctor_compile_Err|].
    right. exists x. by repeat split. }
  exfalso.
  apply find_negb_None in Hfl, Hfe.
  destruct Hmissing as [(id & Hin & Hno)|(id & Hin & Hno)].
  - pose proof (proj1 (list.Forall_forall _ _) Hfl id Hin). congruence.
  - pose proof (proj1 (list.Forall_forall _ _) Hfe id Hin). congruence.
Qed.

Lemma C5_unsupported_names_offender_witness :
  ∃ e, InstanceHpp.Instance_ctor Samples.tables
         (Samples.library (mkApiVersion 1 3 0))
         (InstanceHpp.requestExtension Samples.KHR_swapchain Samples.request11)
       = Some (Err e) ∧
       ((∃ id, id ∈ InstanceHpp.requestedLayers
                      (InstanceHpp.requestExtension Samples.KHR_swapchain
                                                    Samples.request11) ∧
               hasLayer Samples.tables (Samples.library (mkApiVersion 1 3 0)) id
                 = false ∧
               e = LayerUnsupported id (LayerName Samples.tables id) ∧
               layerName e = Some (LayerName Samples.tables id)) ∨
        (∃ id, id ∈ InstanceHpp.requestedExtensions
                      (InstanceHpp.requestExtension Samples.KHR_swapchain
                                                    Samples.request11) ∧
               hasInstanceExtension Samples.tables
                 (Samples.library (mkApiVersion 1 3 0)) id = false ∧
               e = ExtensionUnsupported id (ExtensionName Samples.tables id) ∧
               extName e = Some (ExtensionName Samples.tables id))).
Proof.
  apply (C5_unsupported_names_offender Samples.tables).
  - vm_compute. reflexivity.
  - right. exists Samples.KHR_swapchain. split.
    + apply (bool_decide_unpack _). vm_compute. exact I.
    + vm_compute. reflexivity.
Defined.

(** The claim without the restriction on the version fails: a request
    above the advertised version that also names an absent extension is
    rejected with [ApiVersionUnsupported], which carries no name. *)
Lemma C5_counterexample :
  ¬ (∀ (T : GeneratedTables) library CI,
       ((∃ id, id ∈ InstanceHpp.requestedLayers CI ∧ hasLayer T library id = false) ∨
        (∃ id, id ∈ InstanceHpp.requestedExtensions CI ∧
               hasInstanceExtension T library id = false)) →
       ∃ e, InstanceHpp.Instance_ctor T library CI = Some (Err e) ∧
            ((∃ id, e = LayerUnsupported id (LayerName T id)) ∨
             (∃ id, e = ExtensionUnsupported id (ExtensionName T id)))).
Proof.
  intros Hclaim.
  destruct (Hclaim Samples.tables (Samples.library (mkApiVersion 1 0 0))
              (InstanceHpp.requestExtension Samples.KHR_swapchain Samples.request11))
    as (e & Hctor & He).
  - right. exists Samples.KHR_swapchain. split.
    + apply (bool_decide_unpack _). vm_compute. exact I.
    + vm_compute. reflexivity.
  - vm_compute in Hctor. injection Hctor as <-.
    destruct He as [[id He]|[id He]]; discriminate.
Qed.

Section Success.
Context (T : GeneratedTables).
Import InstanceHpp.

Lemma Instance_ctor_succeeds library CI :
  ApiVersion_le (apiVersion CI) (instanceAPIVersion library) = true →
  Forall (fun id => hasLayer T library id = true) (requestedLayers CI) →
  Forall (fun id => hasInstanceExtension T library id = true)
         (requestedExtensions CI) →
  (∀ info, CompiledInstanceCreateInfo T library CI = Ok info →
           fst (vkCreateInstance library info) = VK_SUCCESS) →
  (∃ c, c ∈ core_chain (InstanceCores T) (load_fuel (InstanceCores T)) 1 0 ∧
        covers c (apiVersion CI) = true) →
  (∀ c h, c ∈ core_chain (InstanceCores T) (load_fuel (InstanceCores T)) 1 0 →
          InstanceCore_ctor T c (vkGetInstanceProcAddr library) h = Ok tt) →
  ∃ instance, Instance_ctor T library CI = Some (Ok instance) ∧
              m_apiVer instance = apiVersion CI ∧
              parent instance = library.
Proof.
  intros Hver Hl He Hnative Hchain Hresolve.
  unfold ApiVersion_le in Hver. rewrite ApiVersion_gt_lt in Hver.
  apply negb_true_iff in Hver.
  pose proof (CompiledInstanceCreateInfo_checks T library CI) as Hc.
  rewrite Hver in Hc.
  rewrite (proj2 (find_negb_None _ _) Hl) in Hc.
  rewrite (proj2 (find_negb_None _ _) He) in Hc.
  specialize (Hnative _ Hc).
  unfold Instance_ctor. rewrite Hc. simpl.
  unfold InstanceDestructor_create.
  destruct (vkCreateInstance library _) as [res ret]. simpl in Hnative. subst res.
  simpl. unfold loadInstanceSymbols.
  destruct (loadSymbols_covered (InstanceCores T)
              "Could not load instance symbols for requested api version"
              (fun c => InstanceCore_ctor T c (vkGetInstanceProcAddr library) ret)
              _ _ _ _ Hchain) as (c & Hload & Hin & _).
  rewrite Hload, (Hresolve c ret Hin). simpl.
  eexists. split; [reflexivity|]. by simpl.
Qed.

Lemma requestApiVersion_succeeds pd version :
  ApiVersion_le version (PhysicalDeviceHpp.supportedApiVersion pd) = true →
  ∃ pd', PhysicalDeviceHpp.requestApiVersion version pd = Ok pd' ∧
         PhysicalDeviceHpp.requestedApiVersion pd' = version ∧
         PhysicalDeviceHpp.m_enabledExtensions pd'
           = PhysicalDeviceHpp.m_enabledExtensions pd.
Proof.
  intros Hle. unfold ApiVersion_le in Hle. apply negb_true_iff in Hle.
  unfold PhysicalDeviceHpp.requestApiVersion. rewrite Hle.
  eexists. split; [reflexivity|]. by simpl.
Qed.

Lemma DeviceInfo_ctor_succeeds instance phDevice :
  ∃ inf, DeviceHpp.DeviceInfo_ctor T instance phDevice = Ok inf.
Proof.
  unfold DeviceHpp.DeviceInfo_ctor.
  destruct (isExtensionEnabled instance _) eqn:H1; simpl; [|eauto].
  destruct (PhysicalDeviceHpp.extensionSupported phDevice _) eqn:H2; simpl; [|eauto].
  destruct (none_of _ _); simpl; [|eauto].
  unfold PhysicalDeviceHpp.enableExtension. rewrite H2. simpl.
  destruct (bool_decide _); simpl; eauto.
Qed.

Lemma Device_ctor_succeeds instance phDevice :
  ApiVersion_le (mkApiVersion 1 0 0) (m_apiVer instance) = true →
  (∀ physical info,
     fst (vkCreateDevice (parent instance) physical info) = VK_SUCCESS) →
  (∃ c, c ∈ core_chain (DeviceCores T) (load_fuel (DeviceCores T)) 1 0 ∧
        covers c (PhysicalDeviceHpp.requestedApiVersion phDevice) = true) →
  (∀ c h, c ∈ core_chain (DeviceCores T) (load_fuel (DeviceCores T)) 1 0 →
          DeviceCore_ctor T c (vkGetDeviceProcAddr (parent instance)) h = Ok tt) →
  ∃ device, DeviceHpp.Device_ctor T instance phDevice = Some (Ok device) ∧
            DeviceHpp.apiVersion device
              = PhysicalDeviceHpp.requestedApiVersion phDevice.
Proof.
  intros Hinst Hnative Hchain Hresolve.
  unfold ApiVersion_le in Hinst. rewrite ApiVersion_gt_lt in Hinst.
  apply negb_true_iff in Hinst.
  destruct (DeviceInfo_ctor_succeeds instance phDevice) as [inf Hinf].
  destruct (DeviceInfo_ctor_apiVer T _ _ _ Hinf) as [Hver Hreq].
  unfold DeviceHpp.Device_ctor. rewrite Hinf.
  unfold DeviceHpp.DeviceDestructor_create, core. rewrite Hinst. simpl.
  specialize (Hnative (PhysicalDeviceHpp.m_physicalDevice (DeviceHpp.m_ph_device inf))
                {| dev_ppEnabledExtensionNames := DeviceHpp.m_enabledExtensionsRaw inf |}).
  destruct (vkCreateDevice (parent instance) _ _) as [res ret].
  simpl in Hnative. subst res. simpl.
  unfold DeviceHpp.loadDeviceSymbols. rewrite Hreq.
  destruct (loadSymbols_covered (DeviceCores T)
              "Could not load device symbols for requested api version"
              (fun c => core instance 1 0 ≫= fun _ =>
                        DeviceCore_ctor T c (vkGetDeviceProcAddr (parent instance)) ret)
              _ _ _ _ Hchain) as (c & Hload & Hin & _).
  rewrite Hload. unfold core. rewrite Hinst. simpl.
  rewrite (Hresolve c ret Hin). simpl.
  eexists. split; [reflexivity|]. unfold DeviceHpp.apiVersion. by simpl.
Qed.

End Success.

(** On well-formed tables both constructors return: the recursion bound of
    the loader is never reached. *)
Lemma constructors_return (T : GeneratedTables) :
  tables_wf T →
  (∀ library CI, ∃ r, InstanceHpp.Instance_ctor T library CI = Some r) ∧
  (∀ instance phDevice, ∃ r, DeviceHpp.Device_ctor T instance phDevice = Some r).
Proof.
  intros [_ _ Hi Hd]. split.
  - intros library CI. unfold InstanceHpp.Instance_ctor.
    destruct (_ ≫= _) as [h|e]; [|eauto].
    unfold InstanceHpp.loadInstanceSymbols.
    destruct (loadSymbols_total (InstanceCores T)
                "Could not load instance symbols for requested api version"
                (fun c => InstanceCore_ctor T c (vkGetInstanceProcAddr library) h)
                Hi (InstanceHpp.apiVersion CI)) as [[symbols|e] ->]; eauto.
  - intros instance phDevice. unfold DeviceHpp.Device_ctor.
    destruct (DeviceHpp.DeviceInfo_ctor T instance phDevice) as [inf|e]; [|eauto].
    destruct (DeviceHpp.DeviceDestructor_create instance _) as [h|e]; [|eauto].
    unfold DeviceHpp.loadDeviceSymbols.
    destruct (loadSymbols_total (DeviceCores T)
                "Could not load device symbols for requested api version"
                (fun c => InstanceHpp.core instance 1 0 ≫= fun _ =>
                          DeviceCore_ctor T c
                            (vkGetDeviceProcAddr (InstanceHpp.parent instance)) h)
                Hd (PhysicalDeviceHpp.requestedApiVersion
                      (DeviceHpp.m_ph_device inf))) as [[symbols|e] ->]; eauto.
Qed.

(** C4, as amended. For every request whose version is not above the
    advertised maximum and whose layers and extensions are all advertised,
    provided the native create call returns [VK_SUCCESS], a core table on
    the loader's chain covers the requested version and the tables on that
    chain resolve their symbols, construction of the Instance succeeds and
    the recorded version is the requested one. At device level
    [requestApiVersion] accepts every version not above the supported one
    and records it unchanged, and under the same provisos (and an instance
    of version 1.0.0 or later) the Device is constructed with exactly that
    version. *)
Theorem C4_within_advertised_succeeds (T : GeneratedTables) :
  (∀ library CI,
     ApiVersion_le (InstanceHpp.apiVersion CI) (instanceAPIVersion library) = true →
     Forall (fun id => hasLayer T library id = true) (InstanceHpp.requestedLayers CI) →
     Forall (fun id => hasInstanceExtension T library id = true)
            (InstanceHpp.requestedExtensions CI) →
     (∀ info, InstanceHpp.CompiledInstanceCreateInfo T library CI = Ok info →
              fst (vkCreateInstance library info) = VK_SUCCESS) →
     (∃ c, c ∈ core_chain (InstanceCores T) (load_fuel (InstanceCores T)) 1 0 ∧
           covers c (InstanceHpp.apiVersion CI) = true) →
     (∀ c h, c ∈ core_chain (InstanceCores T) (load_fuel (InstanceCores T)) 1 0 →
             InstanceCore_ctor T c (vkGetInstanceProcAddr library) h = Ok tt) →
     ∃ instance, InstanceHpp.Instance_ctor T library CI = Some (Ok instance) ∧
                 InstanceHpp.m_apiVer instance = InstanceHpp.apiVersion CI) ∧
  (∀ pd version,
     ApiVersion_le version (PhysicalDeviceHpp.supportedApiVersion pd) = true →
     ∃ pd', PhysicalDeviceHpp.requestApiVersion version pd = Ok pd' ∧
            PhysicalDeviceHpp.requestedApiVersion pd' = version) ∧
  (∀ instance phDevice,
     ApiVersion_le (mkApiVersion 1 0 0) (InstanceHpp.m_apiVer instance) = true →
     (∀ physical info,
        fst (vkCreateDevice (InstanceHpp.parent instance) physical info)
          = VK_SUCCESS) →
     (∃ c, c ∈ core_chain (DeviceCores T) (load_fuel (DeviceCores T)) 1 0 ∧
           covers c (PhysicalDeviceHpp.requestedApiVersion phDevice) = true) →
     (∀ c h, c ∈ core_chain (DeviceCores T) (load_fuel (DeviceCores T)) 1 0 →
             DeviceCore_ctor T c
               (vkGetDeviceProcAddr (InstanceHpp.parent instance)) h = Ok tt) →
     ∃ device, DeviceHpp.Device_ctor T instance phDevice = Some (Ok device) ∧
               DeviceHpp.apiVersion device
                 = PhysicalDeviceHpp.requestedApiVersion phDevice).
Proof.
  split; [|split].
  - intros library CI Hver Hl He Hnative Hchain Hresolve.
    destruct (Instance_ctor_succeeds T library CI Hver Hl He Hnative Hchain Hresolve)
      as (instance & Hctor & Hv & _).
    by exists instance.
  - intros pd version Hle.
    destruct (requestApiVersion_succeeds pd version Hle) as (pd' & Hreq & Hv & _).
    by exists pd'.
  - intros instance phDevice. apply Device_ctor_succeeds.
Qed.

Lemma C4_within_advertised_succeeds_witness :
  (∃ instance,
     InstanceHpp.Instance_ctor Samples.tables
       (Samples.library (mkApiVersion 1 3 0)) Samples.request11
       = Some (Ok instance) ∧
     InstanceHpp.m_apiVer instance = InstanceHpp.apiVersion Samples.request11) ∧
  (∃ pd', PhysicalDeviceHpp.requestApiVersion (mkApiVersion 1 1 5)
            Samples.physical_device12 = Ok pd' ∧
          PhysicalDeviceHpp.requestedApiVersion pd' = mkApiVersion 1 1 5) ∧
  (∃ device,
     DeviceHpp.Device_ctor Samples.tables Samples.instance11
       Samples.physical_device12 = Some (Ok device) ∧
     DeviceHpp.apiVersion device
       = PhysicalDeviceHpp.requestedApiVersion Samples.physical_device12).
Proof.
  destruct (C4_within_advertised_succeeds Samples.tables) as (HI & HR & HD).
  split; [|split].
  - apply HI.
    + vm_compute. reflexivity.
    + constructor.
    + repeat constructor.
    + intros info _. reflexivity.
    + exists (1, 1)%N. split.
      * apply (bool_decide_unpack _). vm_compute. exact I.
      * vm_compute. reflexivity.
    + intros c h _. reflexivity.
  - apply HR. vm_compute. reflexivity.
  - apply HD.
    + vm_compute. reflexivity.
    + intros physical info. reflexivity.
    + exists (1, 2)%N. split.
      * apply (bool_decide_unpack _). vm_compute. exact I.
      * vm_compute. reflexivity.
    + intros c h _. reflexivity.
Defined.

(** Without the provisos the claim fails: a loader that advertises
    version 1.4.0 accepts a request for 1.4.0 with no layers and no
    extensions, the native call succeeds, and construction still fails in
    the symbol loader, whose tables end at 1.3. *)
Lemma C4_counterexample :
  ¬ (∀ (T : GeneratedTables) library CI,
       ApiVersion_le (InstanceHpp.apiVersion CI) (instanceAPIVersion library) = true →
       Forall (fun id => hasLayer T library id = true)
              (InstanceHpp.requestedLayers CI) →
       Forall (fun id => hasInstanceExtension T library id = true)
              (InstanceHpp.requestedExtensions CI) →
       ∃ instance, InstanceHpp.Instance_ctor T library CI = Some (Ok instance) ∧
                   InstanceHpp.m_apiVer instance = InstanceHpp.apiVersion CI).
Proof.
  intros Hclaim.
  destruct (Hclaim Samples.tables (Samples.library (mkApiVersion 1 4 0))
              (InstanceHpp.requestApiVersion (mkApiVersion 1 4 0)
                 InstanceHpp.InstanceCreateInfo_default))
    as (instance & Hctor & _).
  - vm_compute. reflexivity.
  - constructor.
  - constructor.
  - vm_compute in Hctor. discriminate.
Qed.

Example Instance_ctor_beyond_tables :
  InstanceHpp.Instance_ctor Samples.tables (Samples.library (mkApiVersion 1 4 0))
    (InstanceHpp.requestApiVersion (mkApiVersion 1 4 0)
       InstanceHpp.InstanceCreateInfo_default)
  = Some (Err (ApiVersionUnsupported
                 "Could not load instance symbols for requested api version"
                 (mkApiVersion 1 3 0) (mkApiVersion 1 4 0) SEM_VERSION)).
Proof. vm_compute. reflexivity. Qed.

(** ** The name arrays handed to the native create calls *)

Section NativeNames.
Context (T : GeneratedTables).
Import InstanceHpp.

Lemma any_of_eqb_elem (name : string) (l : list string) :
  any_of (fun x => String.eqb name x) l = true ↔ name ∈ l.
Proof.
  unfold any_of. rewrite existsb_exists. split.
  - intros (x & Hin & Heq). apply String.eqb_eq in Heq as ->.
    by apply list_elem_of_In.
  - intros Hin. exists name. split; [by apply list_elem_of_In|apply String.eqb_refl].
Qed.

(** The extension array of a compiled create info: the request, followed
    by the auto-enabled extension when it was appended. *)
Lemma CompiledInstanceCreateInfo_Ok library CI info :
  CompiledInstanceCreateInfo T library CI = Ok info →
  Forall (fun id => hasLayer T library id = true) (requestedLayers CI) ∧
  Forall (fun id => hasInstanceExtension T library id = true)
         (requestedExtensions CI) ∧
  ppEnabledLayerNames info = map (LayerName T) (requestedLayers CI) ∧
  ppEnabledExtensionNames info
  = map (ExtensionName T)
      (if hasInstanceExtension T library (KHR_get_physical_device_properties2 T) &&
          none_of (fun extension =>
                     (extension =? KHR_get_physical_device_properties2 T)%nat)
                  (requestedExtensions CI)
       then requestedExtensions CI ++ [KHR_get_physical_device_properties2 T]
       else requestedExtensions CI).
Proof.
  rewrite CompiledInstanceCreateInfo_checks.
  destruct (ApiVersion_lt _ _); [discriminate|].
  destruct (List.find _ (requestedLayers CI)) eqn:Hfl; [discriminate|].
  destruct (List.find _ (requestedExtensions CI)) eqn:Hfe; [discriminate|].
  intros [= <-]. simpl.
  split; [by apply find_negb_None|]. split; [by apply find_negb_None|]. done.
Qed.

(** Every name that reaches [vkCreateInstance] has been checked against
    the advertised layers and extensions. *)
Lemma instance_names_validated library CI info :
  CompiledInstanceCreateInfo T library CI = Ok info →
  (∀ name, name ∈ ppEnabledExtensionNames info →
           name ∈ m_instance_extension_properties library) ∧
  (∀ name, name ∈ ppEnabledLayerNames info → name ∈ m_layer_properties library).
Proof.
  intros Hc. apply CompiledInstanceCreateInfo_Ok in Hc as (Hl & He & -> & ->).
  split.
  - intros name Hin. apply list_elem_of_In, in_map_iff in Hin as (id & <- & Hin).
    destruct (hasInstanceExtension T library (KHR_get_physical_device_properties2 T))
      eqn:Hk; simpl in Hin.
    + assert (In id (requestedExtensions CI ++ [KHR_get_physical_device_properties2 T]))
        as Hin' by (destruct (none_of _ _); [done|apply in_or_app; by left]).
      apply in_app_or in Hin' as [Hin'|[<-|[]]].
      * apply any_of_eqb_elem.
        apply (proj1 (list.Forall_forall _ _) He id). by apply list_elem_of_In.
      * by apply any_of_eqb_elem.
    + apply any_of_eqb_elem.
      apply (proj1 (list.Forall_forall _ _) He id). by apply list_elem_of_In.
  - intros name Hin. apply list_elem_of_In, in_map_iff in Hin as (id & <- & Hin).
    apply any_of_eqb_elem.
    apply (proj1 (list.Forall_forall _ _) Hl id). by apply list_elem_of_In.
Qed.

(** Auto-enabling only appends: every requested extension keeps its place
    in the array. *)
Lemma auto_enable_additive library CI info :
  CompiledInstanceCreateInfo T library CI = Ok info →
  map (ExtensionName T) (requestedExtensions CI)
    `prefix_of` ppEnabledExtensionNames info.
Proof.
  intros Hc. apply CompiledInstanceCreateInfo_Ok in Hc as (_ & _ & _ & ->).
  destruct (_ && _).
  - rewrite map_app. by eexists.
  - done.
Qed.

(** The device path: [enableExtension] never stores an ID twice. *)
Lemma enableExtension_NoDup extension pd pd' :
  NoDup (PhysicalDeviceHpp.m_enabledExtensions pd) →
  PhysicalDeviceHpp.enableExtension T extension pd = Ok pd' →
  NoDup (PhysicalDeviceHpp.m_enabledExtensions pd') ∧
  extension ∈ PhysicalDeviceHpp.m_enabledExtensions pd' ∧
  extension ∈ PhysicalDeviceHpp.m_supportedExtensions pd.
Proof.
  intros Hnd. unfold PhysicalDeviceHpp.enableExtension,
    PhysicalDeviceHpp.extensionSupported.
  destruct (bool_decide_reflect
              (extension ∈ PhysicalDeviceHpp.m_supportedExtensions pd)) as [Hs|Hs];
    simpl; [|discriminate].
  destruct (bool_decide_reflect
              (extension ∈ PhysicalDeviceHpp.m_enabledExtensions pd)) as [He|He];
    intros [= <-]; simpl.
  - done.
  - split; [|split; [|done]].
    + apply list.NoDup_app. split; [done|]. split; [|apply NoDup_singleton].
      intros x Hx Hx'. apply list_elem_of_singleton in Hx' as ->. done.
    + apply elem_of_app. right. by apply list_elem_of_singleton.
Qed.

(** The device path records what it auto-enables: every name in the array
    built by [DeviceInfo] belongs to an extension that the device reports
    as enabled. *)
Lemma DeviceInfo_records_enabled instance phDevice inf name :
  DeviceHpp.DeviceInfo_ctor T instance phDevice = Ok inf →
  name ∈ DeviceHpp.m_enabledExtensionsRaw inf →
  ∃ id, name = ExtensionName T id ∧
        PhysicalDeviceHpp.isExtensionEnabled (DeviceHpp.m_ph_device inf) id = true.
Proof.
  intros Hinf Hin.
  assert (DeviceHpp.m_enabledExtensionsRaw inf
          = map (ExtensionName T)
              (PhysicalDeviceHpp.m_enabledExtensions (DeviceHpp.m_ph_device inf)))
    as Hraw.
  { revert Hinf. unfold DeviceHpp.DeviceInfo_ctor.
    destruct (_ && _ && _);
      [destruct (PhysicalDeviceHpp.enableExtension T _ phDevice); simpl;
         [|discriminate]|simpl]; by intros [= <-]. }
  rewrite Hraw in Hin.
  apply list_elem_of_In, in_map_iff in Hin as (id & <- & Hin).
  exists id. split; [done|].
  unfold PhysicalDeviceHpp.isExtensionEnabled, PhysicalDeviceHpp.count.
  apply negb_true_iff, Nat.eqb_neq.
  apply list_elem_of_In in Hin.
  assert (id ∈ filter (fun x => x = id)
                 (PhysicalDeviceHpp.m_enabledExtensions (DeviceHpp.m_ph_device inf)))
    as Hf by (by apply list_elem_of_filter).
  destruct (filter _ _); [by apply elem_of_nil in Hf|simpl; lia].
Qed.

End NativeNames.

(** C9. The instance path does not deduplicate: for the request that
    names [KHR_surface] twice, every check passes, and the extension array
    handed to [vkCreateInstance] holds [VK_KHR_surface] twice (followed by
    the auto-enabled extension); construction succeeds with it. *)
Theorem C9_instance_names_not_deduplicated :
  ∃ info instance,
    InstanceHpp.CompiledInstanceCreateInfo Samples.tables
      (Samples.library (mkApiVersion 1 3 0)) Samples.duplicate_request = Ok info ∧
    InstanceHpp.Instance_ctor Samples.tables
      (Samples.library (mkApiVersion 1 3 0)) Samples.duplicate_request
      = Some (Ok instance) ∧
    ppEnabledExtensionNames info
      = ["VK_KHR_surface"; "VK_KHR_surface";
         "VK_KHR_get_physical_device_properties2"] ∧
    ¬ NoDup (ppEnabledExtensionNames info).
Proof.
  eexists. eexists.
  split; [vm_compute; reflexivity|].
  split; [vm_compute; reflexivity|].
  split; [vm_compute; reflexivity|].
  simpl. intros Hnd. apply list.NoDup_cons in Hnd as [Hnotin _].
  apply Hnotin. apply list_elem_of_here.
Qed.

(** C2. The instance path does not record what it auto-enables: for a
    request that does not name [KHR_get_physical_device_properties2] on a
    loader that supports it, the name is appended to the array handed to
    [vkCreateInstance], construction succeeds, and the constructed Instance
    reports the extension as not enabled. *)
Theorem C2_auto_enabled_not_recorded :
  ∃ info instance,
    InstanceHpp.CompiledInstanceCreateInfo Samples.tables
      (Samples.library (mkApiVersion 1 3 0)) Samples.request11 = Ok info ∧
    InstanceHpp.Instance_ctor Samples.tables
      (Samples.library (mkApiVersion 1 3 0)) Samples.request11
      = Some (Ok instance) ∧
    ((KHR_get_physical_device_properties2 Samples.tables)
       ∉ (InstanceHpp.requestedExtensions Samples.request11)) ∧
    (ExtensionName Samples.tables (KHR_get_physical_device_properties2 Samples.tables))
      ∈ (ppEnabledExtensionNames info) ∧
    InstanceHpp.isExtensionEnabled instance
      (KHR_get_physical_device_properties2 Samples.tables) = false.
Proof.
  eexists. eexists.
  split; [vm_compute; reflexivity|].
  split; [vm_compute; reflexivity|].
  split; [apply (bool_decide_unpack _); vm_compute; exact I|].
  split; [apply (bool_decide_unpack _); vm_compute; exact I|].
  vm_compute. reflexivity.
Qed.

(** ** Enumerating the extensions of a physical device *)

Section Enumeration.
Context (T : GeneratedTables).
Import PhysicalDeviceHpp.

Lemma ValidExtensionName_index name :
  ValidExtensionName T name = true ↔
  (find_if (String.eqb name) (ExtensionNames T) < length (ExtensionNames T))%nat.
Proof.
  unfold ValidExtensionName.
  pose proof (find_if_le (String.eqb name) (ExtensionNames T)).
  rewrite negb_true_iff, Nat.eqb_neq. lia.
Qed.

(** The loop keeps, in order, the index of every registered name and
    drops the others; it never reaches the [postError] of [ExtensionId]. *)
Lemma collectSupported_spec (extensions : list string) (acc : list ext) :
  collectSupported T extensions acc
  = Ok (acc ++ map (fun name => find_if (String.eqb name) (ExtensionNames T))
                   (List.filter (ValidExtensionName T) extensions)).
Proof.
  revert acc. induction extensions as [|props rest IH]; intros acc; simpl.
  - by rewrite app_nil_r.
  - destruct (ValidExtensionName T props) eqn:Hvalid; simpl; [|apply IH].
    unfold ExtensionId.
    apply ValidExtensionName_index in Hvalid.
    destruct (Nat.eqb_spec (find_if (String.eqb props) (ExtensionNames T))
                           (length (ExtensionNames T))); [lia|].
    simpl. rewrite IH. by rewrite <- app_assoc.
Qed.

Lemma collected_valid (extensions : list string) :
  Forall (fun id => valid_ext T id ∧ ExtensionName T id ∈ extensions)
         (map (fun name => find_if (String.eqb name) (ExtensionNames T))
              (List.filter (ValidExtensionName T) extensions)).
Proof.
  apply list.Forall_forall. intros id Hid.
  apply list_elem_of_In, in_map_iff in Hid as (name & <- & Hin).
  apply filter_In in Hin as [Hin Hvalid].
  apply ValidExtensionName_index in Hvalid.
  split; [done|].
  destruct (find_if_found _ _ Hvalid) as (x & Hx & Heq).
  apply String.eqb_eq in Heq as <-.
  unfold ExtensionName. rewrite (nth_lookup_Some _ _ _ _ Hx).
  by apply list_elem_of_In.
Qed.

Lemma PhysicalDevice_ctor_cases instance device :
  PhysicalDevice_ctor T instance device =
  if ApiVersion_lt (InstanceHpp.m_apiVer instance) (mkApiVersion 1 0 0)
  then Err (SymbolsMissing (InstanceHpp.m_apiVer instance) (mkApiVersion 1 0 0))
  else Ok {| m_physicalDevice := native_handle device;
             m_properties_apiVersion := native_apiVersion device;
             m_supportedExtensions :=
               if (0 <? native_extCount device)%N
               then if decide (native_extResult device = VK_SUCCESS)
                    then map (fun name => find_if (String.eqb name) (ExtensionNames T))
                             (List.filter (ValidExtensionName T)
                                          (native_extensions device))
                    else []
               else [];
             m_enabledExtensions := [];
             m_requestedApiVersion := mkApiVersion 1 0 0 |}.
Proof.
  unfold PhysicalDevice_ctor, InstanceHpp.core.
  destruct (ApiVersion_lt (InstanceHpp.m_apiVer instance) (mkApiVersion 1 0 0));
    simpl; [done|].
  unfold ApiVersion_ge.
  destruct (ApiVersion_lt (InstanceHpp.m_apiVer instance) (mkApiVersion 1 1 0));
    simpl.
  - destruct (0 <? native_extCount device)%N; simpl; [|done].
    destruct (decide _); simpl; [|done].
    by rewrite collectSupported_spec.
  - destruct (0 <? native_extCount device)%N; simpl; [|done].
    destruct (decide _); simpl; [|done].
    by rewrite collectSupported_spec.
Qed.

End Enumeration.

(** C10. While a PhysicalDevice is constructed, every enumerated extension
    name that is not in the wrapper's name array is skipped and every
    other name is translated to its index, in order. The constructor
    posts no name error (its only error is the [SymbolsMissing] of
    [core<1, 0>()] on an instance below version 1.0.0, and it succeeds on
    every other instance). The supported list holds only IDs inside the
    table, each the ID of an enumerated name, so [extensionSupported]
    accepts only such IDs, [enableExtension] succeeds only for them, and
    the enabled list, empty at construction, stays inside the table. *)
Theorem C10_unknown_extensions_skipped (T : GeneratedTables)
    (instance : InstanceHpp.Instance) (device : NativePhysicalDevice) :
  (∀ e, PhysicalDeviceHpp.PhysicalDevice_ctor T instance device = Err e →
        e = SymbolsMissing (InstanceHpp.m_apiVer instance) (mkApiVersion 1 0 0) ∧
        ApiVersion_lt (InstanceHpp.m_apiVer instance) (mkApiVersion 1 0 0) = true) ∧
  (ApiVersion_le (mkApiVersion 1 0 0) (InstanceHpp.m_apiVer instance) = true →
   ∃ pd, PhysicalDeviceHpp.PhysicalDevice_ctor T instance device = Ok pd) ∧
  (∀ pd, PhysicalDeviceHpp.PhysicalDevice_ctor T instance device = Ok pd →
     PhysicalDeviceHpp.m_enabledExtensions pd = [] ∧
     ((0 < native_extCount device)%N → native_extResult device = VK_SUCCESS →
      PhysicalDeviceHpp.m_supportedExtensions pd
      = map (fun name => find_if (String.eqb name) (ExtensionNames T))
            (List.filter (ValidExtensionName T) (native_extensions device))) ∧
     Forall (valid_ext T) (PhysicalDeviceHpp.m_supportedExtensions pd) ∧
     (∀ id, PhysicalDeviceHpp.extensionSupported pd id = true →
            valid_ext T id ∧ ExtensionName T id ∈ native_extensions device) ∧
     (∀ id pd', PhysicalDeviceHpp.enableExtension T id pd = Ok pd' →
                valid_ext T id)) ∧
  (∀ pd id pd',
     Forall (valid_ext T) (PhysicalDeviceHpp.m_supportedExtensions pd) →
     Forall (valid_ext T) (PhysicalDeviceHpp.m_enabledExtensions pd) →
     PhysicalDeviceHpp.enableExtension T id pd = Ok pd' →
     Forall (valid_ext T) (PhysicalDeviceHpp.m_supportedExtensions pd') ∧
     Forall (valid_ext T) (PhysicalDeviceHpp.m_enabledExtensions pd')).
Proof.
  pose proof (PhysicalDevice_ctor_cases T instance device) as Hcases.
  assert (Hsupp : ∀ pd,
    PhysicalDeviceHpp.PhysicalDevice_ctor T instance device = Ok pd →
    Forall (fun id => valid_ext T id ∧ ExtensionName T id ∈ native_extensions device)
           (PhysicalDeviceHpp.m_supportedExtensions pd)).
  { intros pd Hpd. rewrite Hcases in Hpd.
    destruct (ApiVersion_lt _ _); [discriminate|]. injection Hpd as <-. simpl.
    destruct (0 <? native_extCount device)%N; [|constructor].
    destruct (decide _); [|constructor]. apply collected_valid. }
  split; [|split; [|split]].
  - intros e He. rewrite Hcases in He.
    destruct (ApiVersion_lt _ _); [|discriminate]. by injection He as <-.
  - intros Hle. unfold ApiVersion_le in Hle. rewrite ApiVersion_gt_lt in Hle.
    apply negb_true_iff in Hle. rewrite Hcases, Hle. eauto.
  - intros pd Hpd. specialize (Hsupp pd Hpd).
    assert (Hmem : ∀ id, PhysicalDeviceHpp.extensionSupported pd id = true →
                         valid_ext T id ∧ ExtensionName T id ∈ native_extensions device).
    { intros id Hid. unfold PhysicalDeviceHpp.extensionSupported in Hid.
      apply bool_decide_eq_true in Hid.
      exact (proj1 (list.Forall_forall _ _) Hsupp id Hid). }
    split; [|split; [|split; [|split]]].
    + rewrite Hcases in Hpd. destruct (ApiVersion_lt _ _); [discriminate|].
      by injection Hpd as <-.
    + intros Hcount Hres. rewrite Hcases in Hpd.
      destruct (ApiVersion_lt _ _); [discriminate|]. injection Hpd as <-. simpl.
      apply N.ltb_lt in Hcount. rewrite Hcount.
      by destruct (decide _).
    + eapply list.Forall_impl; [exact Hsupp|]. by intros id [? _].
    + exact Hmem.
    + intros id pd' Hen. unfold PhysicalDeviceHpp.enableExtension in Hen.
      destruct (PhysicalDeviceHpp.extensionSupported pd id) eqn:Hs;
        [|discriminate]. by apply Hmem.
  - intros pd id pd' Hs He Hen.
    unfold PhysicalDeviceHpp.enableExtension,
      PhysicalDeviceHpp.extensionSupported in Hen.
    destruct (bool_decide_reflect (id ∈ PhysicalDeviceHpp.m_supportedExtensions pd))
      as [Hin|Hin]; simpl in Hen; [|discriminate].
    destruct (bool_decide _); injection Hen as <-; simpl; [done|].
    split; [done|]. apply Forall_app. split; [done|].
    constructor; [|constructor].
    exact (proj1 (list.Forall_forall _ _) Hs id Hin).
Qed.

Lemma C10_unknown_extensions_skipped_witness :
  ∃ pd, PhysicalDeviceHpp.PhysicalDevice_ctor Samples.tables Samples.instance11
          Samples.gpu = Ok pd ∧
        PhysicalDeviceHpp.m_supportedExtensions pd = [1; 3; 1]%nat ∧
        Forall (valid_ext Samples.tables)
               (PhysicalDeviceHpp.m_supportedExtensions pd) ∧
        valid_ext Samples.tables Samples.KHR_swapchain.
Proof.
  destruct (C10_unknown_extensions_skipped Samples.tables Samples.instance11
              Samples.gpu) as (_ & Hok & Hpd & _).
  destruct Hok as [pd Hctor]; [vm_compute; reflexivity|].
  destruct (Hpd pd Hctor) as (_ & Hlist & Hvalid & Hmem & _).
  exists pd. split; [done|]. split; [|split; [done|]].
  - rewrite Hlist; [vm_compute; reflexivity|reflexivity|reflexivity].
  - apply (Hmem Samples.KHR_swapchain).
    unfold PhysicalDeviceHpp.extensionSupported.
    rewrite Hlist; [vm_compute; reflexivity|reflexivity|reflexivity].
Defined.


(** ** The owning wrapper *)

Section Ownership.
Import UniqueHpp.

Lemma destroy_handles (u : Unique) :
  map deleted_handle (destroy u)
  = if decide (get u = VK_NULL_HANDLE) then [] else [get u].
Proof. unfold destroy. by destruct (decide _). Qed.

Lemma init_world_inv : world_inv init_world.
Proof.
  split; simpl.
  - done.
  - intros x u Hx. by rewrite lookup_empty in Hx.
  - intros x y u v Hx. by rewrite lookup_empty in Hx.
  - intros h Hh. by apply elem_of_nil in Hh.
  - intros h Hh. by apply elem_of_nil in Hh.
  - constructor.
Qed.

Lemma step_Construct_inv w x creator res w' :
  world_inv w → step w (Construct x creator res) = Some w' → world_inv w'.
Proof.
  intros [Hnext Hheld Huniq Hcreated Hdc Hnd]. simpl.
  destruct (objects w !! x) eqn:Hx; [discriminate|].
  unfold Unique_ctor, UniqueDeleter_create.
  destruct (decide (res = VK_SUCCESS)); simpl; intros [= <-]; [|by split].
  assert (Hfresh : ∀ y v, objects w !! y = Some v → get v ≠ VK_NULL_HANDLE →
                          get v ≠ next_handle w).
  { intros y v Hy Hnn Heq. destruct (Hheld y v Hy Hnn) as [Hc _].
    apply Hcreated in Hc. lia. }
  split; simpl.
  - lia.
  - intros y v Hy Hnn. destruct (decide (x = y)) as [<-|Hne].
    + rewrite lookup_insert_eq in Hy. injection Hy as <-. simpl in *. split.
      * apply elem_of_app. right. by apply list_elem_of_singleton.
      * intros Hd. apply Hdc, Hcreated in Hd. lia.
    + rewrite lookup_insert_ne in Hy by done.
      destruct (Hheld y v Hy Hnn) as [Hc Hd]. split; [|done].
      apply elem_of_app. by left.
  - intros y z u v Hy Hz Heq Hnn.
    destruct (decide (x = y)) as [<-|Hney], (decide (x = z)) as [<-|Hnez];
      try done.
    + rewrite lookup_insert_eq in Hy. rewrite lookup_insert_ne in Hz by done.
      injection Hy as <-. simpl in *. exfalso.
      apply (Hfresh z v Hz); [congruence|congruence].
    + rewrite lookup_insert_eq in Hz. rewrite lookup_insert_ne in Hy by done.
      injection Hz as <-. simpl in *. exfalso.
      apply (Hfresh y u Hy); [congruence|congruence].
    + rewrite lookup_insert_ne in Hy, Hz by done. by eapply Huniq.
  - intros h Hh. apply elem_of_app in Hh as [Hh|Hh].
    + apply Hcreated in Hh. lia.
    + apply list_elem_of_singleton in Hh as ->. lia.
  - intros h Hh. apply elem_of_app. left. by apply Hdc.
  - done.
Qed.

(** A statement that creates no handle keeps the invariant when every
    handle still held was held before, holders stay unique, and the
    handles it gives to deleters were held before and are held no more. *)
Lemma inv_transfer w objects' calls :
  world_inv w →
  (∀ y v, objects' !! y = Some v → get v ≠ VK_NULL_HANDLE →
          ∃ y0 v0, objects w !! y0 = Some v0 ∧ get v0 = get v) →
  (∀ y z u v, objects' !! y = Some u → objects' !! z = Some v →
              get u = get v → get u ≠ VK_NULL_HANDLE → y = z) →
  (∀ h, h ∈ map deleted_handle calls →
        h ≠ VK_NULL_HANDLE ∧
        (∃ y0 v0, objects w !! y0 = Some v0 ∧ get v0 = h) ∧
        (∀ y v, objects' !! y = Some v → get v ≠ h)) →
  NoDup (map deleted_handle calls) →
  world_inv {| objects := objects'; next_handle := next_handle w;
               created := created w;
               deleter_calls := deleter_calls w ++ calls |}.
Proof.
  intros [Hnext Hheld Huniq Hcreated Hdc Hnd] Hfrom Huniq' Hcalls Hnd'.
  split; unfold deleted_handles in *; simpl.
  - done.
  - intros y v Hy Hnn.
    destruct (Hfrom y v Hy Hnn) as (y0 & v0 & Hy0 & Heq).
    destruct (Hheld y0 v0 Hy0) as [Hc Hd]; [congruence|].
    rewrite <- Heq. split; [done|].
    rewrite map_app. intros Hin. apply elem_of_app in Hin as [Hin|Hin]; [done|].
    destruct (Hcalls _ Hin) as (_ & _ & Hgone). by apply (Hgone y v Hy).
  - exact Huniq'.
  - exact Hcreated.
  - intros h Hh. rewrite map_app in Hh. apply elem_of_app in Hh as [Hh|Hh].
    + by apply Hdc.
    + destruct (Hcalls _ Hh) as (Hnn & (y0 & v0 & Hy0 & <-) & _).
      by apply (Hheld y0 v0 Hy0).
  - rewrite map_app. apply list.NoDup_app. split; [done|]. split; [|done].
    intros h Hh Hh'.
    destruct (Hcalls _ Hh') as (Hnn & (y0 & v0 & Hy0 & <-) & _).
    by destruct (Hheld y0 v0 Hy0 Hnn).
Qed.

Lemma step_MoveConstruct_inv w dst src w' :
  world_inv w → step w (MoveConstruct dst src) = Some w' → world_inv w'.
Proof.
  intros Hinv. simpl.
  destruct (objects w !! src) as [a|] eqn:Hsrc; [|discriminate].
  destruct (objects w !! dst) eqn:Hdst; [discriminate|].
  simpl. intros [= <-].
  assert (Hne : src ≠ dst) by congruence.
  rewrite <- (app_nil_r (deleter_calls w)).
  apply inv_transfer; [done| | | |constructor].
  - intros y v Hy Hnn.
    destruct (decide (dst = y)) as [<-|?].
    { rewrite lookup_insert_eq in Hy. injection Hy as <-. simpl. eauto. }
    rewrite lookup_insert_ne in Hy by done.
    destruct (decide (src = y)) as [<-|?].
    { rewrite lookup_insert_eq in Hy. injection Hy as <-. by simpl in Hnn. }
    rewrite lookup_insert_ne in Hy by done. eauto.
  - assert (Hother : ∀ y v, y ≠ dst →
              <[dst:={| get := get a; get_deleter := get_deleter a |}]>
                (<[src:={| get := VK_NULL_HANDLE; get_deleter := get_deleter a |}]>
                   (objects w)) !! y = Some v →
              get v ≠ VK_NULL_HANDLE → get v = get a → False).
    { intros y v Hy Hl Hnn Heq. rewrite lookup_insert_ne in Hl by done.
      destruct (decide (src = y)) as [<-|?].
      - rewrite lookup_insert_eq in Hl. injection Hl as <-. by simpl in Hnn.
      - rewrite lookup_insert_ne in Hl by done.
        by pose proof (inv_unique w Hinv y src v a Hl Hsrc Heq Hnn). }
    intros y z u v Hy Hz Heq Hnn.
    destruct (decide (y = dst)) as [->|Hy'], (decide (z = dst)) as [->|Hz'];
      try done.
    + rewrite lookup_insert_eq in Hy. injection Hy as <-. simpl in *.
      exfalso. apply (Hother z v Hz' Hz); congruence.
    + rewrite lookup_insert_eq in Hz. injection Hz as <-. simpl in *.
      exfalso. apply (Hother y u Hy' Hy); congruence.
    + rewrite lookup_insert_ne in Hy, Hz by done.
      destruct (decide (src = y)) as [<-|?].
      { rewrite lookup_insert_eq in Hy. injection Hy as <-. by simpl in Hnn. }
      destruct (decide (src = z)) as [<-|?].
      { rewrite lookup_insert_eq in Hz. injection Hz as <-. simpl in *. congruence. }
      rewrite lookup_insert_ne in Hy, Hz by done.
      by apply (inv_unique w Hinv y z u v).
  - intros h Hh. by apply elem_of_nil in Hh.
Qed.

Lemma step_Destroy_inv w x w' :
  world_inv w → step w (Destroy x) = Some w' → world_inv w'.
Proof.
  intros Hinv. simpl.
  destruct (objects w !! x) as [u|] eqn:Hx; [|discriminate].
  intros [= <-].
  apply inv_transfer; [done| | | |].
  - intros y v Hy Hnn. apply lookup_delete_Some in Hy as [_ Hy]. eauto.
  - intros y z u' v Hy Hz. apply lookup_delete_Some in Hy as [_ Hy].
    apply lookup_delete_Some in Hz as [_ Hz]. by apply (inv_unique w Hinv).
  - intros h Hh. rewrite destroy_handles in Hh.
    destruct (decide (get u = VK_NULL_HANDLE)) as [|Hnn];
      [by apply elem_of_nil in Hh|].
    apply list_elem_of_singleton in Hh as ->.
    split; [done|]. split; [eauto|].
    intros y v Hy Heq. apply lookup_delete_Some in Hy as [Hne Hy].
    apply Hne. apply (inv_unique w Hinv x y u v Hx Hy); congruence.
  - rewrite destroy_handles. destruct (decide _); [constructor|apply NoDup_singleton].
Qed.

Lemma step_MoveAssign_inv w dst src w' :
  world_inv w → step w (MoveAssign dst src) = Some w' → world_inv w'.
Proof.
  intros Hinv. simpl.
  destruct (objects w !! src) as [a|] eqn:Hsrc; [|discriminate].
  simpl.
  destruct (decide (src = dst)) as [<-|Hne].
  - rewrite lookup_insert_eq. simpl. intros [= <-].
    rewrite insert_insert_eq.
    apply inv_transfer; [done| | | |].
    + intros y v Hy Hnn. destruct (decide (src = y)) as [<-|?].
      * rewrite lookup_insert_eq in Hy. injection Hy as <-. simpl. eauto.
      * rewrite lookup_insert_ne in Hy by done. eauto.
    + intros y z u v Hy Hz Heq Hnn.
      assert (Hback : ∀ k t, <[src:={| get := get a; get_deleter := get_deleter a |}]>
                               (objects w) !! k = Some t →
                             ∃ t0, objects w !! k = Some t0 ∧ get t0 = get t).
      { intros k t Hk. destruct (decide (src = k)) as [<-|?].
        - rewrite lookup_insert_eq in Hk. injection Hk as <-. simpl. eauto.
        - rewrite lookup_insert_ne in Hk by done. eauto. }
      destruct (Hback y u Hy) as (u0 & Hu0 & Hgu).
      destruct (Hback z v Hz) as (v0 & Hv0 & Hgv).
      apply (inv_unique w Hinv y z u0 v0); congruence.
    + unfold destroy. simpl. intros h Hh. by apply elem_of_nil in Hh.
    + unfold destroy. simpl. constructor.
  - rewrite lookup_insert_ne by done.
    destruct (objects w !! dst) as [b|] eqn:Hdst; [|discriminate].
    simpl. intros [= <-].
    assert (Hlook : ∀ y v,
              <[dst:={| get := get a; get_deleter := get_deleter a |}]>
                (<[src:={| get := VK_NULL_HANDLE; get_deleter := get_deleter a |}]>
                   (objects w)) !! y = Some v →
              get v ≠ VK_NULL_HANDLE →
              (y = dst ∧ get v = get a) ∨
              (y ≠ dst ∧ y ≠ src ∧ objects w !! y = Some v)).
    { intros y v Hy Hnn. destruct (decide (dst = y)) as [<-|?].
      - rewrite lookup_insert_eq in Hy. injection Hy as <-. by left.
      - rewrite lookup_insert_ne in Hy by done.
        destruct (decide (src = y)) as [<-|?].
        + rewrite lookup_insert_eq in Hy. injection Hy as <-. by simpl in Hnn.
        + rewrite lookup_insert_ne in Hy by done. right. by repeat split. }
    apply inv_transfer; [done| | | |].
    + intros y v Hy Hnn. destruct (Hlook y v Hy Hnn) as [[-> Hg]|(_ & _ & Hy')];
        eauto.
    + intros y z u v Hy Hz Heq Hnn.
      destruct (Hlook y u Hy Hnn) as [[-> Hgu]|(Hyd & Hys & Hy')],
               (Hlook z v Hz) as [[-> Hgv]|(Hzd & Hzs & Hz')];
        try congruence.
      * exfalso. apply Hzs.
        apply (inv_unique w Hinv z src v a Hz' Hsrc); congruence.
      * exfalso. apply Hys.
        apply (inv_unique w Hinv y src u a Hy' Hsrc); congruence.
      * by apply (inv_unique w Hinv y z u v).
    + intros h Hh. rewrite destroy_handles in Hh.
      destruct (decide (get b = VK_NULL_HANDLE)) as [|Hnn];
        [by apply elem_of_nil in Hh|].
      apply list_elem_of_singleton in Hh as ->.
      split; [done|]. split; [eauto|].
      intros y v Hy Heq.
      destruct (Hlook y v Hy) as [[-> Hg]|(Hyd & Hys & Hy')]; [congruence| |].
      * apply Hne. apply (inv_unique w Hinv src dst a b Hsrc Hdst); congruence.
      * apply Hyd. apply (inv_unique w Hinv y dst v b Hy' Hdst); congruence.
    + rewrite destroy_handles. destruct (decide _); [constructor|apply NoDup_singleton].
Qed.

Lemma step_inv w c w' : world_inv w → step w c = Some w' → world_inv w'.
Proof.
  destruct c.
  - apply step_Construct_inv.
  - apply step_MoveConstruct_inv.
  - apply step_MoveAssign_inv.
  - apply step_Destroy_inv.
Qed.

Lemma run_inv cs : ∀ w w', world_inv w → run w cs = Some w' → world_inv w'.
Proof.
  induction cs as [|c cs IH]; intros w w' Hinv; simpl.
  - by intros [= <-].
  - destruct (step w c) as [w1|] eqn:Hstep; [|discriminate].
    apply IH. by eapply step_inv.
Qed.

End Ownership.

Lemma step_Destroy_Some w x u :
  UniqueHpp.objects w !! x = Some u →
  ∃ w', UniqueHpp.step w (UniqueHpp.Destroy x) = Some w' ∧
        UniqueHpp.objects w' = delete x (UniqueHpp.objects w) ∧
        UniqueHpp.deleter_calls w'
          = UniqueHpp.deleter_calls w ++ UniqueHpp.destroy u.
Proof. intros Hx. simpl. rewrite Hx. eexists. by split. Qed.

Lemma step_MoveConstruct_Some w a b u :
  UniqueHpp.objects w !! a = Some u →
  UniqueHpp.objects w !! b = None →
  ∃ w', UniqueHpp.step w (UniqueHpp.MoveConstruct b a) = Some w' ∧
        UniqueHpp.objects w'
          = <[b := {| UniqueHpp.get := UniqueHpp.get u;
                      UniqueHpp.get_deleter := UniqueHpp.get_deleter u |}]>
              (<[a := {| UniqueHpp.get := VK_NULL_HANDLE;
                         UniqueHpp.get_deleter := UniqueHpp.get_deleter u |}]>
                 (UniqueHpp.objects w)) ∧
        UniqueHpp.deleter_calls w' = UniqueHpp.deleter_calls w.
Proof. intros Ha Hb. simpl. rewrite Ha, Hb. simpl. eexists. by split. Qed.

Lemma step_MoveAssign_Some w a b u v :
  a ≠ b →
  UniqueHpp.objects w !! a = Some u →
  UniqueHpp.objects w !! b = Some v →
  ∃ w', UniqueHpp.step w (UniqueHpp.MoveAssign b a) = Some w' ∧
        UniqueHpp.objects w'
          = <[b := {| UniqueHpp.get := UniqueHpp.get u;
                      UniqueHpp.get_deleter := UniqueHpp.get_deleter u |}]>
              (<[a := {| UniqueHpp.get := VK_NULL_HANDLE;
                         UniqueHpp.get_deleter := UniqueHpp.get_deleter u |}]>
                 (UniqueHpp.objects w)) ∧
        UniqueHpp.deleter_calls w'
          = UniqueHpp.deleter_calls w ++ UniqueHpp.destroy v.
Proof.
  intros Hne Ha Hb. simpl. rewrite Ha. simpl.
  rewrite lookup_insert_ne by done. rewrite Hb. simpl. eexists. by split.
Qed.

(** After either move, the source is null and silent, and the
    destination releases the moved handle once. *)
Lemma moved_then_destroyed w1 a b u :
  a ≠ b →
  UniqueHpp.get u ≠ VK_NULL_HANDLE →
  UniqueHpp.objects w1 !! a
    = Some {| UniqueHpp.get := VK_NULL_HANDLE;
              UniqueHpp.get_deleter := UniqueHpp.get_deleter u |} →
  UniqueHpp.objects w1 !! b
    = Some {| UniqueHpp.get := UniqueHpp.get u;
              UniqueHpp.get_deleter := UniqueHpp.get_deleter u |} →
  ∃ w2 w3,
    UniqueHpp.step w1 (UniqueHpp.Destroy a) = Some w2 ∧
    UniqueHpp.deleter_calls w2 = UniqueHpp.deleter_calls w1 ∧
    UniqueHpp.step w2 (UniqueHpp.Destroy b) = Some w3 ∧
    UniqueHpp.deleter_calls w3
      = UniqueHpp.deleter_calls w2
        ++ [UniqueHpp.Deleted (UniqueHpp.get_deleter u) (UniqueHpp.get u)].
Proof.
  intros Hne Hnn Ha Hb.
  destruct (step_Destroy_Some w1 a _ Ha) as (w2 & Hs2 & Ho2 & Hc2).
  assert (UniqueHpp.objects w2 !! b
          = Some {| UniqueHpp.get := UniqueHpp.get u;
                    UniqueHpp.get_deleter := UniqueHpp.get_deleter u |}) as Hb2.
  { rewrite Ho2. by rewrite lookup_delete_ne. }
  destruct (step_Destroy_Some w2 b _ Hb2) as (w3 & Hs3 & Ho3 & Hc3).
  exists w2, w3. split; [done|]. split.
  { rewrite Hc2. unfold UniqueHpp.destroy. simpl. apply app_nil_r. }
  split; [done|].
  rewrite Hc3. unfold UniqueHpp.destroy. simpl. by destruct (decide _).
Qed.

(** C7. In every execution of construct, move and destroy statements from
    the empty program state, the deleter log has no repetition, never holds
    the null handle and holds handles returned by a create call only. In
    any such state, after [Unique b(std::move(a))], or [b = std::move(a)]
    for a distinct live [b], the source [a] holds the null handle and
    destroying it invokes no deleter, while destroying [b] invokes the
    deleter moved from [a], once, on the handle [a] held. *)
Theorem C7_unique_ownership (cs : list UniqueHpp.Command) (w : UniqueHpp.World) :
  UniqueHpp.run UniqueHpp.init_world cs = Some w →
  (NoDup (UniqueHpp.deleted_handles w) ∧
   (VK_NULL_HANDLE ∉ UniqueHpp.deleted_handles w) ∧
   (∀ h, h ∈ UniqueHpp.deleted_handles w → h ∈ UniqueHpp.created w)) ∧
  (∀ a b u,
     UniqueHpp.objects w !! a = Some u →
     UniqueHpp.get u ≠ VK_NULL_HANDLE →
     UniqueHpp.objects w !! b = None →
     ∃ w1 w2 w3 a',
       UniqueHpp.step w (UniqueHpp.MoveConstruct b a) = Some w1 ∧
       UniqueHpp.objects w1 !! a = Some a' ∧
       UniqueHpp.get a' = VK_NULL_HANDLE ∧
       UniqueHpp.deleter_calls w1 = UniqueHpp.deleter_calls w ∧
       UniqueHpp.step w1 (UniqueHpp.Destroy a) = Some w2 ∧
       UniqueHpp.deleter_calls w2 = UniqueHpp.deleter_calls w1 ∧
       UniqueHpp.step w2 (UniqueHpp.Destroy b) = Some w3 ∧
       UniqueHpp.deleter_calls w3
         = UniqueHpp.deleter_calls w2
           ++ [UniqueHpp.Deleted (UniqueHpp.get_deleter u) (UniqueHpp.get u)]) ∧
  (∀ a b u v,
     a ≠ b →
     UniqueHpp.objects w !! a = Some u →
     UniqueHpp.get u ≠ VK_NULL_HANDLE →
     UniqueHpp.objects w !! b = Some v →
     ∃ w1 w2 w3 a',
       UniqueHpp.step w (UniqueHpp.MoveAssign b a) = Some w1 ∧
       UniqueHpp.objects w1 !! a = Some a' ∧
       UniqueHpp.get a' = VK_NULL_HANDLE ∧
       UniqueHpp.deleter_calls w1
         = UniqueHpp.deleter_calls w ++ UniqueHpp.destroy v ∧
       UniqueHpp.step w1 (UniqueHpp.Destroy a) = Some w2 ∧
       UniqueHpp.deleter_calls w2 = UniqueHpp.deleter_calls w1 ∧
       UniqueHpp.step w2 (UniqueHpp.Destroy b) = Some w3 ∧
       UniqueHpp.deleter_calls w3
         = UniqueHpp.deleter_calls w2
           ++ [UniqueHpp.Deleted (UniqueHpp.get_deleter u) (UniqueHpp.get u)]).
Proof.
  intros Hrun.
  pose proof (run_inv cs _ _ init_world_inv Hrun) as Hinv.
  split; [|split].
  - split; [apply (UniqueHpp.inv_deleted_nodup w Hinv)|]. split.
    + intros Hin. apply (UniqueHpp.inv_deleted_created w Hinv) in Hin.
      apply (UniqueHpp.inv_created w Hinv) in Hin. unfold VK_NULL_HANDLE in Hin. lia.
    + apply (UniqueHpp.inv_deleted_created w Hinv).
  - intros a b u Ha Hnn Hb.
    assert (Hne : a ≠ b) by congruence.
    destruct (step_MoveConstruct_Some w a b u Ha Hb) as (w1 & Hs1 & Ho1 & Hc1).
    assert (Ha1 : UniqueHpp.objects w1 !! a
                  = Some {| UniqueHpp.get := VK_NULL_HANDLE;
                            UniqueHpp.get_deleter := UniqueHpp.get_deleter u |}).
    { rewrite Ho1. rewrite lookup_insert_ne by done. apply lookup_insert_eq. }
    assert (Hb1 : UniqueHpp.objects w1 !! b
                  = Some {| UniqueHpp.get := UniqueHpp.get u;
                            UniqueHpp.get_deleter := UniqueHpp.get_deleter u |}).
    { rewrite Ho1. apply lookup_insert_eq. }
    destruct (moved_then_destroyed w1 a b u Hne Hnn Ha1 Hb1)
      as (w2 & w3 & Hs2 & Hc2 & Hs3 & Hc3).
    exists w1, w2, w3. eexists. by repeat (split; [eassumption || reflexivity|]).
  - intros a b u v Hne Ha Hnn Hb.
    destruct (step_MoveAssign_Some w a b u v Hne Ha Hb) as (w1 & Hs1 & Ho1 & Hc1).
    assert (Ha1 : UniqueHpp.objects w1 !! a
                  = Some {| UniqueHpp.get := VK_NULL_HANDLE;
                            UniqueHpp.get_deleter := UniqueHpp.get_deleter u |}).
    { rewrite Ho1. rewrite lookup_insert_ne by done. apply lookup_insert_eq. }
    assert (Hb1 : UniqueHpp.objects w1 !! b
                  = Some {| UniqueHpp.get := UniqueHpp.get u;
                            UniqueHpp.get_deleter := UniqueHpp.get_deleter u |}).
    { rewrite Ho1. apply lookup_insert_eq. }
    destruct (moved_then_destroyed w1 a b u Hne Hnn Ha1 Hb1)
      as (w2 & w3 & Hs2 & Hc2 & Hs3 & Hc3).
    exists w1, w2, w3. eexists. by repeat (split; [eassumption || reflexivity|]).
Qed.

Lemma C7_unique_ownership_witness :
  ∃ w, UniqueHpp.run UniqueHpp.init_world
         [UniqueHpp.Construct 0 7 VK_SUCCESS;
          UniqueHpp.Construct 1 7 VK_ERROR_DEVICE_LOST;
          UniqueHpp.Construct 1 7 VK_SUCCESS;
          UniqueHpp.MoveAssign 1 0;
          UniqueHpp.MoveConstruct 2 1;
          UniqueHpp.Destroy 0;
          UniqueHpp.Destroy 1]%nat = Some w ∧
       NoDup (UniqueHpp.deleted_handles w) ∧
       (VK_NULL_HANDLE ∉ UniqueHpp.deleted_handles w) ∧
       ∃ w1 w2 w3 a',
         UniqueHpp.step w (UniqueHpp.MoveConstruct 3 2) = Some w1 ∧
         UniqueHpp.objects w1 !! 2%nat = Some a' ∧
         UniqueHpp.get a' = VK_NULL_HANDLE ∧
         UniqueHpp.deleter_calls w1 = UniqueHpp.deleter_calls w ∧
         UniqueHpp.step w1 (UniqueHpp.Destroy 2) = Some w2 ∧
         UniqueHpp.deleter_calls w2 = UniqueHpp.deleter_calls w1 ∧
         UniqueHpp.step w2 (UniqueHpp.Destroy 3) = Some w3 ∧
         UniqueHpp.deleter_calls w3
           = UniqueHpp.deleter_calls w2 ++ [UniqueHpp.Deleted 7 1%Z].
Proof.
  eexists. split; [vm_compute; reflexivity|].
  match goal with
  | |- NoDup (UniqueHpp.deleted_handles ?w) ∧ _ =>
      destruct (C7_unique_ownership
                  [UniqueHpp.Construct 0 7 VK_SUCCESS;
                   UniqueHpp.Construct 1 7 VK_ERROR_DEVICE_LOST;
                   UniqueHpp.Construct 1 7 VK_SUCCESS;
                   UniqueHpp.MoveAssign 1 0;
                   UniqueHpp.MoveConstruct 2 1;
                   UniqueHpp.Destroy 0;
                   UniqueHpp.Destroy 1]%nat w)
        as ((Hnd & Hnull & _) & Hmove & _)
  end.
  - vm_compute. reflexivity.
  - split; [exact Hnd|]. split; [exact Hnull|].
    apply (Hmove 2%nat 3%nat
             {| UniqueHpp.get := 1%Z; UniqueHpp.get_deleter := 7%nat |}).
    + vm_compute. reflexivity.
    + discriminate.
    + vm_compute. reflexivity.
Defined.

(** * Further properties of the modelled code *)

(** ** The order on versions *)

Lemma ApiVersion_compare_eq a b : ApiVersion_compare a b = Eq ↔ a = b.
Proof.
  unfold ApiVersion_compare. destruct a as [a1 a2 a3], b as [b1 b2 b3]. simpl.
  destruct (N.compare_spec a1 b1) as [?|?|?];
    destruct (N.compare_spec a2 b2) as [?|?|?];
    destruct (N.compare_spec a3 b3) as [?|?|?]; split; intros Heq;
    try discriminate; try (injection Heq; intros; lia); subst; reflexivity.
Qed.

(** X1. The defaulted three-way comparison of [ApiVersion] is a strict
    total order: it answers "equal" exactly on equal versions, [<] is
    irreflexive, asymmetric and transitive, two versions unrelated by [<]
    in both directions are equal, and [>], [<=], [>=] are the mirror
    images and complements of [<]. *)
Theorem X1_version_total_order (a b c : ApiVersion) :
  (ApiVersion_compare a b = Eq ↔ a = b) ∧
  ApiVersion_lt a a = false ∧
  (ApiVersion_lt a b = true → ApiVersion_lt b a = false) ∧
  (ApiVersion_lt a b = true → ApiVersion_lt b c = true → ApiVersion_lt a c = true) ∧
  (ApiVersion_lt a b = false → ApiVersion_lt b a = false → a = b) ∧
  ApiVersion_gt a b = ApiVersion_lt b a ∧
  ApiVersion_le a b = ApiVersion_ge b a.
Proof.
  split; [apply ApiVersion_compare_eq|].
  split; [apply ApiVersion_lt_false; unfold version_lt; lia|].
  split; [rewrite ApiVersion_lt_spec, ApiVersion_lt_false; unfold version_lt; lia|].
  split; [rewrite !ApiVersion_lt_spec; unfold version_lt; lia|].
  split.
  - rewrite !ApiVersion_lt_false. unfold version_lt.
    destruct a as [a1 a2 a3], b as [b1 b2 b3]. simpl. intros H1 H2.
    f_equal; lia.
  - split; [apply ApiVersion_gt_lt|].
    unfold ApiVersion_le, ApiVersion_ge. by rewrite ApiVersion_gt_lt.
Qed.

Lemma X1_version_total_order_witness :
  ApiVersion_lt (mkApiVersion 1 2 9) (mkApiVersion 1 10 0) = true ∧
  ApiVersion_lt (mkApiVersion 1 2 9) (mkApiVersion 2 0 0) = true.
Proof.
  destruct (X1_version_total_order (mkApiVersion 1 2 9) (mkApiVersion 1 3 0)
              (mkApiVersion 1 10 0)) as (_ & _ & _ & Htrans & _).
  destruct (X1_version_total_order (mkApiVersion 1 2 9) (mkApiVersion 1 10 0)
              (mkApiVersion 2 0 0)) as (_ & _ & _ & Htrans' & _).
  split.
  - apply Htrans; reflexivity.
  - apply Htrans'; reflexivity.
Defined.

(** ** Looking names up *)

Section Lookup.
Context (T : GeneratedTables).

Lemma LayerId_Ok name id :
  LayerId T name = Ok id → valid_layer T id ∧ LayerName T id = name.
Proof.
  unfold LayerId, valid_layer, LayerName.
  pose proof (find_if_le (String.eqb name) (LayerNames T)) as Hle.
  destruct (Nat.eqb_spec (find_if (String.eqb name) (LayerNames T))
                         (length (LayerNames T))) as [Heq|Hne];
    [discriminate|].
  intros [= <-].
  assert (Hlt : (find_if (String.eqb name) (LayerNames T)
                 < length (LayerNames T))%nat) by lia.
  split; [done|].
  destruct (find_if_found _ _ Hlt) as (x & Hx & Hp).
  apply String.eqb_eq in Hp as ->.
  by rewrite (nth_lookup_Some _ _ _ _ Hx).
Qed.

Lemma find_if_eqb_elem (name : string) (names : list string) :
  (find_if (String.eqb name) names < length names)%nat ↔ name ∈ names.
Proof.
  split.
  - intros Hlt. destruct (find_if_found _ _ Hlt) as (x & Hx & Hp).
    apply String.eqb_eq in Hp as ->. by eapply list_elem_of_lookup_2.
  - intros Hin. pose proof (find_if_le (String.eqb name) names) as Hle.
    destruct (decide (find_if (String.eqb name) names = length names)) as [Heq|];
      [|lia].
    pose proof (find_if_end _ _ Heq name Hin) as Hno.
    by rewrite String.eqb_refl in Hno.
Qed.

End Lookup.

(** X2. Looking a name up is sound and agrees with the validity test: an
    ID returned by [ExtensionId] lies inside the table and
    [ExtensionName] of it is the name looked up; [ValidExtensionName]
    holds exactly for the entries of the name array, exactly when
    [ExtensionId] returns an ID, and fails exactly when [ExtensionId]
    posts [ExtensionNameError]. The same holds for [LayerId],
    [LayerName] and [ValidLayerName]. *)
Theorem X2_lookup_sound (T : GeneratedTables) (name : string) :
  ((∀ id, ExtensionId T name = Ok id →
          valid_ext T id ∧ ExtensionName T id = name) ∧
   (ValidExtensionName T name = true ↔ name ∈ ExtensionNames T) ∧
   (ValidExtensionName T name = true ↔ ∃ id, ExtensionId T name = Ok id) ∧
   (ValidExtensionName T name = false ↔
    ExtensionId T name = Err (ExtensionNameError name))) ∧
  ((∀ id, LayerId T name = Ok id → valid_layer T id ∧ LayerName T id = name) ∧
   (ValidLayerName T name = true ↔ name ∈ LayerNames T) ∧
   (ValidLayerName T name = true ↔ ∃ id, LayerId T name = Ok id) ∧
   (ValidLayerName T name = false ↔ LayerId T name = Err (LayerNameError name))).
Proof.
  split.
  - split; [apply ExtensionId_Ok|]. split; [|split].
    + rewrite ValidExtensionName_index. apply find_if_eqb_elem.
    + unfold ValidExtensionName, ExtensionId.
      destruct (find_if _ _ =? _)%nat; simpl; split; try discriminate; eauto.
      intros [id Hid]. discriminate.
    + unfold ValidExtensionName, ExtensionId.
      destruct (find_if _ _ =? _)%nat; simpl; split; try discriminate; eauto.
  - split; [apply LayerId_Ok|]. split; [|split].
    + rewrite <- find_if_eqb_elem. unfold ValidLayerName.
      pose proof (find_if_le (String.eqb name) (LayerNames T)).
      rewrite negb_true_iff, Nat.eqb_neq. lia.
    + unfold ValidLayerName, LayerId.
      destruct (find_if _ _ =? _)%nat; simpl; split; try discriminate; eauto.
      intros [id Hid]. discriminate.
    + unfold ValidLayerName, LayerId.
      destruct (find_if _ _ =? _)%nat; simpl; split; try discriminate; eauto.
Qed.

Lemma X2_lookup_sound_witness :
  valid_ext Samples.tables 3%nat ∧
  ExtensionName Samples.tables 3%nat = "VK_EXT_memory_budget".
Proof.
  destruct (X2_lookup_sound Samples.tables "VK_EXT_memory_budget")
    as ((Hsound & _) & _).
  apply Hsound. vm_compute. reflexivity.
Defined.

(** ** Which error a rejected instance request gets *)

Lemma find_first_failing {A} (ok : A → bool) (before after : list A) (x : A) :
  Forall (fun y => ok y = true) before → ok x = false →
  List.find (fun y => negb (ok y)) (before ++ x :: after) = Some x.
Proof.
  induction 1 as [|y before Hy _ IH]; intros Hx; simpl.
  - by rewrite Hx.
  - rewrite Hy. simpl. by apply IH.
Qed.

(** X3. The checks of [CompiledInstanceCreateInfo] have a fixed priority.
    A version above the advertised one is reported as
    [ApiVersionUnsupported] with the advertised and the requested version,
    whatever layers and extensions are named. Otherwise the first absent
    layer in request order is reported as [LayerUnsupported], whatever
    extensions are named; and when all layers are advertised the first
    absent extension in request order is reported as
    [ExtensionUnsupported]. When none of the three checks fails the
    negotiation succeeds, and it succeeds in no other case. *)
Theorem X3_first_offender (T : GeneratedTables) library CI :
  (ApiVersion_lt (instanceAPIVersion library) (InstanceHpp.apiVersion CI) = true →
   InstanceHpp.CompiledInstanceCreateInfo T library CI
   = Err (ApiVersionUnsupported "Cannot create instance with requested api version"
            (instanceAPIVersion library) (InstanceHpp.apiVersion CI) SEM_VERSION)) ∧
  (∀ before id after,
     ApiVersion_lt (instanceAPIVersion library) (InstanceHpp.apiVersion CI) = false →
     InstanceHpp.requestedLayers CI = before ++ id :: after →
     Forall (fun l => hasLayer T library l = true) before →
     hasLayer T library id = false →
     InstanceHpp.CompiledInstanceCreateInfo T library CI
     = Err (LayerUnsupported id (LayerName T id))) ∧
  (∀ before id after,
     ApiVersion_lt (instanceAPIVersion library) (InstanceHpp.apiVersion CI) = false →
     Forall (fun l => hasLayer T library l = true) (InstanceHpp.requestedLayers CI) →
     InstanceHpp.requestedExtensions CI = before ++ id :: after →
     Forall (fun x => hasInstanceExtension T library x = true) before →
     hasInstanceExtension T library id = false →
     InstanceHpp.CompiledInstanceCreateInfo T library CI
     = Err (ExtensionUnsupported id (ExtensionName T id))) ∧
  (ApiVersion_lt (instanceAPIVersion library) (InstanceHpp.apiVersion CI) = false →
   Forall (fun l => hasLayer T library l = true) (InstanceHpp.requestedLayers CI) →
   Forall (fun x => hasInstanceExtension T library x = true)
          (InstanceHpp.requestedExtensions CI) →
   ∃ info, InstanceHpp.CompiledInstanceCreateInfo T library CI = Ok info) ∧
  (∀ info,
     InstanceHpp.CompiledInstanceCreateInfo T library CI = Ok info →
     ApiVersion_lt (instanceAPIVersion library) (InstanceHpp.apiVersion CI) = false ∧
     Forall (fun l => hasLayer T library l = true) (InstanceHpp.requestedLayers CI) ∧
     Forall (fun x => hasInstanceExtension T library x = true)
            (InstanceHpp.requestedExtensions CI)).
Proof.
  rewrite CompiledInstanceCreateInfo_checks. split; [|split; [|split; [|split]]].
  - by intros ->.
  - intros before id after -> -> Hbefore Hid.
    by rewrite (find_first_failing _ _ _ _ Hbefore Hid).
  - intros before id after -> Hlayers -> Hbefore Hid.
    rewrite (proj2 (find_negb_None _ _) Hlayers).
    by rewrite (find_first_failing _ _ _ _ Hbefore Hid).
  - intros -> Hlayers Hexts.
    rewrite (proj2 (find_negb_None _ _) Hlayers).
    rewrite (proj2 (find_negb_None _ _) Hexts). by eexists.
  - intros info.
    destruct (ApiVersion_lt _ _); [discriminate|].
    destruct (List.find _ (InstanceHpp.requestedLayers CI)) eqn:Hl;
      [discriminate|].
    destruct (List.find _ (InstanceHpp.requestedExtensions CI)) eqn:He;
      [discriminate|].
    intros _. split; [done|].
    split; by apply find_negb_None.
Qed.

Lemma X3_first_offender_witness :
  InstanceHpp.CompiledInstanceCreateInfo Samples.tables
    (Samples.library (mkApiVersion 1 3 0))
    (InstanceHpp.requestExtension 3%nat
       (InstanceHpp.requestExtension Samples.KHR_swapchain Samples.request11))
  = Err (ExtensionUnsupported Samples.KHR_swapchain "VK_KHR_swapchain").
Proof.
  destruct (X3_first_offender Samples.tables (Samples.library (mkApiVersion 1 3 0))
              (InstanceHpp.requestExtension 3%nat
                 (InstanceHpp.requestExtension Samples.KHR_swapchain
                                               Samples.request11)))
    as (_ & _ & Hext & _).
  apply (Hext [Samples.KHR_surface] Samples.KHR_swapchain [3%nat]).
  - reflexivity.
  - constructor.
  - reflexivity.
  - repeat constructor.
  - reflexivity.
Defined.

(** ** What an accepted instance request hands to the native call *)

Lemma ApiVersion_uint32_round_trip (v : ApiVersion) :
  (major v < 128)%N → (minor v < 1024)%N → (revision v < 4096)%N →
  ApiVersion_of_uint32 (ApiVersion_to_uint32 v) = v.
Proof.
destruct v as [M m r]. simpl. intros HM Hm Hr.
unfold ApiVersion_of_uint32, ApiVersion_to_uint32, VK_MAKE_API_VERSION. simpl.
assert (HA : wrap32 (N.shiftl M 22) = N.shiftl M 22).
{ unfold wrap32. apply N.mod_small. rewrite N.shiftl_mul_pow2.
  change (2 ^ 22)%N with 4194304%N. lia. }
assert (HB : wrap32 (N.shiftl m 12) = N.shiftl m 12).
{ unfold wrap32. apply N.mod_small. rewrite N.shiftl_mul_pow2.
  change (2 ^ 12)%N with 4096%N. lia. }
rewrite HA, HB. change (wrap32 0) with 0%N. rewrite N.lor_0_l.
assert (Hsmall : ∀ a k, (a < 2 ^ k)%N → N.shiftr a k = 0%N).
{ intros a k Ha. rewrite N.shiftr_div_pow2. by apply N.div_small. }
assert (Hkeep : ∀ a k, (a < 2 ^ k)%N → N.land a (N.ones k) = a).
{ intros a k Ha. rewrite N.land_ones. by apply N.mod_small. }
assert (Hdrop : ∀ a j k, (k ≤ j)%N → N.land (N.shiftl a j) (N.ones k) = 0%N).
{ intros a j k Hkj. rewrite N.land_ones, N.shiftl_mul_pow2.
  replace j with ((j - k) + k)%N by lia.
  rewrite N.pow_add_r, N.mul_assoc. apply N.Div0.mod_mul. }
unfold VK_API_VERSION_MAJOR, VK_API_VERSION_MINOR, VK_API_VERSION_PATCH.
change 127%N with (N.ones 7). change 1023%N with (N.ones 10).
change 4095%N with (N.ones 12).
f_equal.
- rewrite !N.shiftr_lor.
  rewrite (N.shiftr_shiftl_l M 22 22) by lia.
  rewrite (N.shiftr_shiftl_r m 12 22) by lia.
  change (22 - 22)%N with 0%N. change (22 - 12)%N with 10%N.
  rewrite N.shiftl_0_r, (Hsmall m 10), (Hsmall r 22), !N.lor_0_r by
    (simpl; lia).
  apply Hkeep. simpl. lia.
- rewrite !N.shiftr_lor.
  rewrite (N.shiftr_shiftl_l M 22 12) by lia.
  rewrite (N.shiftr_shiftl_l m 12 12) by lia.
  change (22 - 12)%N with 10%N. change (12 - 12)%N with 0%N.
  rewrite N.shiftl_0_r, (Hsmall r 12), N.lor_0_r by (simpl; lia).
  rewrite N.land_lor_distr_l, (Hdrop M 10%N 10%N), N.lor_0_l by lia.
  apply Hkeep. simpl. lia.
- rewrite !N.land_lor_distr_l.
  rewrite (Hdrop M 22%N 12%N), (Hdrop m 12%N 12%N), !N.lor_0_l by lia.
  apply Hkeep. simpl. lia.
Qed.

(** X4. When [CompiledInstanceCreateInfo] accepts a request, the native
    create info carries the requested version packed by
    [VK_MAKE_API_VERSION], which reads back as the requested version when
    major, minor and revision fit the 7, 10 and 12 bits of the packed
    form; it carries the layer names of the request in request order, and as
    extension names those of the request in request order, followed by
    the name of [KHR_get_physical_device_properties2] exactly when the
    loader advertises that extension and the request does not name it.
    Every name in both arrays is advertised by the loader, and when the
    loader advertises [KHR_get_physical_device_properties2] its name is
    always in the extension array. *)
Theorem X4_native_create_info (T : GeneratedTables) library CI info :
  InstanceHpp.CompiledInstanceCreateInfo T library CI = Ok info →
  pApplicationInfo_apiVersion info
    = ApiVersion_to_uint32 (InstanceHpp.apiVersion CI) ∧
  ((major (InstanceHpp.apiVersion CI) < 128)%N →
   (minor (InstanceHpp.apiVersion CI) < 1024)%N →
   (revision (InstanceHpp.apiVersion CI) < 4096)%N →
   ApiVersion_of_uint32 (pApplicationInfo_apiVersion info)
     = InstanceHpp.apiVersion CI) ∧
  ppEnabledLayerNames info = map (LayerName T) (InstanceHpp.requestedLayers CI) ∧
  ppEnabledExtensionNames info
  = map (ExtensionName T) (InstanceHpp.requestedExtensions CI)
    ++ (if hasInstanceExtension T library (KHR_get_physical_device_properties2 T) &&
           negb (bool_decide (KHR_get_physical_device_properties2 T
                              ∈ InstanceHpp.requestedExtensions CI))
        then [ExtensionName T (KHR_get_physical_device_properties2 T)]
        else []) ∧
  (∀ name, name ∈ ppEnabledExtensionNames info →
           name ∈ m_instance_extension_properties library) ∧
  (∀ name, name ∈ ppEnabledLayerNames info → name ∈ m_layer_properties library) ∧
  (hasInstanceExtension T library (KHR_get_physical_device_properties2 T) = true →
   ExtensionName T (KHR_get_physical_device_properties2 T)
     ∈ ppEnabledExtensionNames info).
Proof.
  intros Hc.
  destruct (instance_names_validated T _ _ _ Hc) as [Hext Hlay].
  assert (Hnone : ∀ (k : ext) (l : list ext),
            none_of (fun extension => (extension =? k)%nat) l
            = negb (bool_decide (k ∈ l))).
  { intros k l. unfold none_of. f_equal.
    destruct (bool_decide_reflect (k ∈ l)) as [Hin|Hin].
    - apply existsb_exists. exists k. split; [by apply list_elem_of_In|].
      apply Nat.eqb_refl.
    - destruct (existsb (fun extension => (extension =? k)%nat) l) eqn:Hex;
        [|done].
      apply existsb_exists in Hex as (x & Hx & Heq).
      apply Nat.eqb_eq in Heq as ->. by apply list_elem_of_In in Hx. }
  assert (Hshape : ppEnabledExtensionNames info
    = map (ExtensionName T) (InstanceHpp.requestedExtensions CI)
      ++ (if hasInstanceExtension T library (KHR_get_physical_device_properties2 T) &&
             negb (bool_decide (KHR_get_physical_device_properties2 T
                                ∈ InstanceHpp.requestedExtensions CI))
          then [ExtensionName T (KHR_get_physical_device_properties2 T)]
          else [])).
  { destruct (CompiledInstanceCreateInfo_Ok T _ _ _ Hc) as (_ & _ & _ & ->).
    rewrite Hnone. destruct (_ && _).
    - by rewrite map_app.
    - by rewrite app_nil_r. }
  assert (Hver : pApplicationInfo_apiVersion info
                 = ApiVersion_to_uint32 (InstanceHpp.apiVersion CI)).
  { revert Hc. rewrite CompiledInstanceCreateInfo_checks.
    destruct (ApiVersion_lt _ _); [discriminate|].
    destruct (List.find _ (InstanceHpp.requestedLayers CI)); [discriminate|].
    destruct (List.find _ (InstanceHpp.requestedExtensions CI)); [discriminate|].
    by intros [= <-]. }
  split; [exact Hver|].
  split; [rewrite Hver; apply ApiVersion_uint32_round_trip|].
  split; [by destruct (CompiledInstanceCreateInfo_Ok T _ _ _ Hc) as (_ & _ & -> & _)|].
  split; [exact Hshape|]. split; [exact Hext|]. split; [exact Hlay|].
  intros Hsupp. rewrite Hshape, Hsupp. simpl.
  destruct (bool_decide_reflect
              (KHR_get_physical_device_properties2 T
               ∈ InstanceHpp.requestedExtensions CI)) as [Hin|Hin]; simpl.
  - rewrite app_nil_r. apply list_elem_of_In, in_map. by apply list_elem_of_In.
  - apply elem_of_app. right. apply list_elem_of_here.
Qed.

(** Two accepted requests on a loader of version 1.3.0: version 1.1.0 is
    handed over as itself, and version 1.0.4096, whose revision does not
    fit 12 bits, is handed over as 1.1.0. *)
Lemma X4_native_create_info_witness :
  (∃ info,
     InstanceHpp.CompiledInstanceCreateInfo Samples.tables
       (Samples.library (mkApiVersion 1 3 0)) Samples.request11 = Ok info ∧
     ApiVersion_of_uint32 (pApplicationInfo_apiVersion info)
       = mkApiVersion 1 1 0 ∧
     ppEnabledExtensionNames info
     = ["VK_KHR_surface"; "VK_KHR_get_physical_device_properties2"] ∧
     ppEnabledLayerNames info = []) ∧
  (∃ info,
     InstanceHpp.CompiledInstanceCreateInfo Samples.tables
       (Samples.library (mkApiVersion 1 3 0))
       (InstanceHpp.requestApiVersion (mkApiVersion 1 0 4096)
          InstanceHpp.InstanceCreateInfo_default) = Ok info ∧
     ApiVersion_of_uint32 (pApplicationInfo_apiVersion info)
       = mkApiVersion 1 1 0).
Proof.
  split.
  - eexists. split; [vm_compute; reflexivity|].
    match goal with
    | |- ApiVersion_of_uint32 (pApplicationInfo_apiVersion ?i) = _ ∧ _ =>
        destruct (X4_native_create_info Samples.tables
                    (Samples.library (mkApiVersion 1 3 0)) Samples.request11 i)
          as (_ & Hv & Hl & He & _)
    end.
    + vm_compute. reflexivity.
    + split; [apply Hv; vm_compute; reflexivity|].
      split; [rewrite He; vm_compute; reflexivity|rewrite Hl; reflexivity].
  - eexists. split; [vm_compute; reflexivity|].
    match goal with
    | |- ApiVersion_of_uint32 (pApplicationInfo_apiVersion ?i) = _ =>
        destruct (X4_native_create_info Samples.tables
                    (Samples.library (mkApiVersion 1 3 0))
                    (InstanceHpp.requestApiVersion (mkApiVersion 1 0 4096)
                       InstanceHpp.InstanceCreateInfo_default) i)
          as (Hv & _)
    end.
    + vm_compute. reflexivity.
    + rewrite Hv. vm_compute. reflexivity.
Defined.

(** ** What a constructed Instance reports *)

(** X5. A constructed Instance reports an extension as enabled exactly
    when the request names it and a layer as enabled exactly when the
    request names it (repetitions in the request make no difference);
    every extension and layer it reports as enabled is advertised by the
    loader it was created from, which is its parent. *)
Theorem X5_instance_enabled_sets (T : GeneratedTables) library CI instance :
  InstanceHpp.Instance_ctor T library CI = Some (Ok instance) →
  InstanceHpp.parent instance = library ∧
  (∀ id, InstanceHpp.isExtensionEnabled instance id = true ↔
         id ∈ InstanceHpp.requestedExtensions CI) ∧
  (∀ id, InstanceHpp.isLayerEnabled instance id = true ↔
         id ∈ InstanceHpp.requestedLayers CI) ∧
  (∀ id, InstanceHpp.isExtensionEnabled instance id = true →
         hasInstanceExtension T library id = true) ∧
  (∀ id, InstanceHpp.isLayerEnabled instance id = true →
         hasLayer T library id = true).
Proof.
  intros Hctor.
  destruct (Instance_ctor_Ok T _ _ _ Hctor) as (info & symbols & Hc & _ & _ & ->).
  destruct (CompiledInstanceCreateInfo_Ok T _ _ _ Hc) as (Hl & He & _ & _).
  unfold InstanceHpp.isExtensionEnabled, InstanceHpp.isLayerEnabled. simpl.
  assert (Hes : ∀ id, bool_decide (id ∈ (list_to_set
                        (InstanceHpp.requestedExtensions CI) : gset ext)) = true
                      ↔ id ∈ InstanceHpp.requestedExtensions CI).
  { intros id. rewrite bool_decide_eq_true. apply elem_of_list_to_set. }
  assert (Hls : ∀ id, bool_decide (id ∈ (list_to_set
                        (InstanceHpp.requestedLayers CI) : gset layer)) = true
                      ↔ id ∈ InstanceHpp.requestedLayers CI).
  { intros id. rewrite bool_decide_eq_true. apply elem_of_list_to_set. }
  split; [done|]. split; [exact Hes|]. split; [exact Hls|]. split.
  - intros id Hid. apply Hes in Hid.
    exact (proj1 (list.Forall_forall _ _) He id Hid).
  - intros id Hid. apply Hls in Hid.
    exact (proj1 (list.Forall_forall _ _) Hl id Hid).
Qed.

Lemma X5_instance_enabled_sets_witness :
  InstanceHpp.isExtensionEnabled Samples.instance11 Samples.KHR_surface = true ∧
  hasInstanceExtension Samples.tables (Samples.library (mkApiVersion 1 3 0))
                       Samples.KHR_surface = true.
Proof.
  destruct (X5_instance_enabled_sets Samples.tables
              (Samples.library (mkApiVersion 1 3 0)) Samples.request11
              Samples.instance11) as (_ & He & _ & Hs & _).
  - vm_compute. reflexivity.
  - assert (InstanceHpp.isExtensionEnabled Samples.instance11 Samples.KHR_surface
            = true) as Hen.
    { apply He. apply (bool_decide_unpack _). vm_compute. exact I. }
    split; [exact Hen|by apply Hs].
Defined.

(** ** Version gates are downward closed *)

(** X6. If [core<M, m>()] succeeds on an Instance or a Device, then so does
    [core<M', m'>()] for every [(M', m', 0) <= (M, m, 0)], with the same
    table; if it fails, it fails for every higher pair as well. *)
Theorem X6_core_downward_closed (M m M' m' : N) :
  ApiVersion_le (mkApiVersion M' m' 0) (mkApiVersion M m 0) = true →
  (∀ (instance : InstanceHpp.Instance) t,
     InstanceHpp.core instance M m = Ok t → InstanceHpp.core instance M' m' = Ok t) ∧
  (∀ (instance : InstanceHpp.Instance) e,
     InstanceHpp.core instance M' m' = Err e →
     InstanceHpp.core instance M m
     = Err (SymbolsMissing (InstanceHpp.m_apiVer instance) (mkApiVersion M m 0))) ∧
  (∀ (device : DeviceHpp.Device) t,
     DeviceHpp.core device M m = Ok t → DeviceHpp.core device M' m' = Ok t) ∧
  (∀ (device : DeviceHpp.Device) e,
     DeviceHpp.core device M' m' = Err e →
     DeviceHpp.core device M m
     = Err (SymbolsMissing (DeviceHpp.apiVersion device) (mkApiVersion M m 0))).
Proof.
  intros Hle.
  assert (Hgate : ∀ v, ApiVersion_lt v (mkApiVersion M m 0) = false →
                       ApiVersion_lt v (mkApiVersion M' m' 0) = false).
  { intros v Hv.
    assert (ApiVersion_le (mkApiVersion M m 0) v = true) as Hle2.
    { unfold ApiVersion_le. by rewrite ApiVersion_gt_lt, Hv. }
    pose proof (ApiVersion_le_trans _ _ _ Hle Hle2) as Hle3.
    unfold ApiVersion_le in Hle3. rewrite ApiVersion_gt_lt in Hle3.
    by apply negb_true_iff in Hle3. }
  unfold InstanceHpp.core, DeviceHpp.core. repeat split.
  - intros instance t.
    destruct (ApiVersion_lt (InstanceHpp.m_apiVer instance) (mkApiVersion M m 0))
      eqn:Hv; [discriminate|]. by rewrite (Hgate _ Hv).
  - intros instance e.
    destruct (ApiVersion_lt (InstanceHpp.m_apiVer instance) (mkApiVersion M m 0))
      eqn:Hv; [done|]. by rewrite (Hgate _ Hv).
  - intros device t.
    destruct (ApiVersion_lt (DeviceHpp.apiVersion device) (mkApiVersion M m 0))
      eqn:Hv; [discriminate|]. by rewrite (Hgate _ Hv).
  - intros device e.
    destruct (ApiVersion_lt (DeviceHpp.apiVersion device) (mkApiVersion M m 0))
      eqn:Hv; [done|]. by rewrite (Hgate _ Hv).
Qed.

Lemma X6_core_downward_closed_witness :
  InstanceHpp.core Samples.instance11 1 0 = Ok (1, 1)%N.
Proof.
  destruct (X6_core_downward_closed 1 1 1 0) as (Hdown & _).
  - reflexivity.
  - apply Hdown. reflexivity.
Defined.

(** ** Which table the symbol loader builds *)

(** X7. The loader walks its chain of table classes in order and stops at
    the first one that covers the version. When it returns a table, every
    table before it on the chain fails to cover the version and the
    table's constructor has succeeded. When it posts an error, either
    that error comes from the constructor of the first covering table, or
    no table on the chain covers the version and the error is
    [ApiVersionUnsupported] naming the last table of the chain and the
    version. *)
Theorem X7_loader_first_covering (cores : list (N * N)) (details : string)
    (make : N * N → Result unit) (fuel : nat) (M m : N) (version : ApiVersion) :
  (∀ c, loadSymbols cores details make fuel M m version = Some (Ok c) →
        ∃ before after,
          core_chain cores fuel M m = before ++ c :: after ∧
          Forall (fun c' => covers c' version = false) before ∧
          covers c version = true ∧ make c = Ok tt) ∧
  (∀ e, loadSymbols cores details make fuel M m version = Some (Err e) →
        (∃ before c after,
           core_chain cores fuel M m = before ++ c :: after ∧
           Forall (fun c' => covers c' version = false) before ∧
           covers c version = true ∧ make c = Err e) ∨
        (∃ before c,
           core_chain cores fuel M m = before ++ [c] ∧
           Forall (fun c' => covers c' version = false)
                  (core_chain cores fuel M m) ∧
           e = ApiVersionUnsupported details (mkApiVersion (fst c) (snd c) 0)
                                     version SEM_VERSION)).
Proof.
  revert M m. induction fuel as [|fuel IH]; intros M m.
  { split; intros ?; simpl; discriminate. }
  simpl.
  destruct (ApiVersion_gt version (mkApiVersion M m UINT_MAX)) eqn:Hgt.
  - assert (Hnc : covers (M, m) version = false).
    { unfold covers. simpl. by rewrite Hgt. }
    assert (Hstep : ∀ M1 m1,
      (∀ c, loadSymbols cores details make fuel M1 m1 version = Some (Ok c) →
          ∃ before after,
            (M, m) :: core_chain cores fuel M1 m1 = before ++ c :: after ∧
            Forall (fun c' => covers c' version = false) before ∧
            covers c version = true ∧ make c = Ok tt) ∧
      (∀ e, loadSymbols cores details make fuel M1 m1 version = Some (Err e) →
          (∃ before c after,
             (M, m) :: core_chain cores fuel M1 m1 = before ++ c :: after ∧
             Forall (fun c' => covers c' version = false) before ∧
             covers c version = true ∧ make c = Err e) ∨
          (∃ before c,
             (M, m) :: core_chain cores fuel M1 m1 = before ++ [c] ∧
             Forall (fun c' => covers c' version = false)
                    ((M, m) :: core_chain cores fuel M1 m1) ∧
             e = ApiVersionUnsupported details (mkApiVersion (fst c) (snd c) 0)
                                       version SEM_VERSION))).
    { intros M1 m1. destruct (IH M1 m1) as [IHok IHerr]. split.
      - intros c Hc. destruct (IHok c Hc) as (before & after & -> & Hb & Hcov & Hmk).
        exists ((M, m) :: before), after. split; [done|]. split; [by constructor|done].
      - intros e He. destruct (IHerr e He)
          as [(before & c & after & -> & Hb & Hcov & Hmk)|(before & c & Heq & Hall & ->)].
        + left. exists ((M, m) :: before), c, after.
          split; [done|]. split; [by constructor|done].
        + right. exists ((M, m) :: before), c. rewrite Heq.
          split; [done|]. split; [|done]. constructor; [done|]. by rewrite <- Heq. }
    destruct (core_defined cores M (wrap32 (m + 1))); [apply Hstep|].
    destruct (core_defined cores (wrap32 (M + 1)) 0); [apply Hstep|].
    split; [discriminate|].
    intros e [= <-]. right. exists [], (M, m). split; [done|].
    split; [by repeat constructor|done].
  - assert (Hcov : covers (M, m) version = true).
    { unfold covers. simpl. by rewrite Hgt. }
    destruct (make (M, m)) as [[]|e'] eqn:Hmk; simpl; split.
    + intros c [= <-]. eexists [], _. split; [done|]. split; [constructor|done].
    + discriminate.
    + discriminate.
    + intros e [= <-]. left. eexists [], (M, m), _.
      split; [done|]. split; [constructor|done].
Qed.

Lemma X7_loader_first_covering_witness :
  ∃ before after,
    core_chain (InstanceCores Samples.tables) 5 1 0 = before ++ (1, 2)%N :: after ∧
    Forall (fun c' => covers c' (mkApiVersion 1 2 5) = false) before ∧
    covers (1, 2)%N (mkApiVersion 1 2 5) = true ∧
    (fun _ : N * N => Ok tt) (1, 2)%N = Ok tt.
Proof.
  destruct (X7_loader_first_covering (InstanceCores Samples.tables) "details"
              (fun _ => Ok tt) 5 1 0 (mkApiVersion 1 2 5)) as [Hok _].
  apply Hok. vm_compute. reflexivity.
Defined.

(** ** Queue requests *)

Section QueueRequests.
Import QueueFamilyHpp.
Context {float : Type}.
Implicit Types (family : QueueFamily float) (ps : list float).

Lemma requestQueues_app ps family :
  (N.of_nat (length (m_queuesRequested family) + length ps)
     ≤ queueCount (m_family family))%N →
  requestQueues ps family =
    inr {| m_queuesRequested := m_queuesRequested family ++ ps;
           m_index := m_index family;
           m_family := m_family family |}.
Proof.
revert family. induction ps as [|p ps IH]; intros family Hle; simpl.
- rewrite app_nil_r. by destruct family.
- unfold requestQueue.
  destruct (N.eqb_spec (N.of_nat (length (m_queuesRequested family)))
              (queueCount (m_family family))) as [Heq|Hne].
  + simpl in Hle. lia.
  + rewrite IH; simpl.
    * by rewrite <- app_assoc.
    * rewrite length_app. simpl in *. lia.
Qed.

Lemma requestQueues_overflow ps family :
  (N.of_nat (length (m_queuesRequested family))
     ≤ queueCount (m_family family))%N →
  (queueCount (m_family family)
     < N.of_nat (length (m_queuesRequested family) + length ps))%N →
  requestQueues ps family =
    inl {| neq_index := m_index family;
           neq_requested := wrap32 (queueCount (m_family family) + 1);
           neq_max := queueCount (m_family family) |}.
Proof.
revert family. induction ps as [|p ps IH]; intros family Hle Hlt; simpl.
- simpl in Hlt. lia.
- unfold requestQueue.
  destruct (N.eqb_spec (N.of_nat (length (m_queuesRequested family)))
              (queueCount (m_family family))) as [Heq|Hne]; [done|].
  rewrite IH; simpl; [done| |].
  + rewrite length_app. simpl. lia.
  + rewrite length_app. simpl in *. lia.
Qed.

(** X8. A run of [requestQueue] calls on a family that holds no more
    requests than it has queues succeeds exactly when the total stays within
    [queueCount]; it then records the priorities in call order and leaves
    index and properties alone.  Otherwise the run stops with
    [NotEnoughQueues] carrying the family's index, [queueCount + 1] (as an
    [unsigned]) and [queueCount], whatever the number of surplus calls. *)
Theorem X8_request_queue_bound ps family
    (Hheld : (N.of_nat (length (m_queuesRequested family))
                ≤ queueCount (m_family family))%N) :
  requestQueues ps family =
    if (N.of_nat (length (m_queuesRequested family) + length ps)
          <=? queueCount (m_family family))%N
    then inr {| m_queuesRequested := m_queuesRequested family ++ ps;
                m_index := m_index family;
                m_family := m_family family |}
    else inl {| neq_index := m_index family;
                neq_requested := wrap32 (queueCount (m_family family) + 1);
                neq_max := queueCount (m_family family) |}.
Proof.
destruct (N.leb_spec (N.of_nat (length (m_queuesRequested family) + length ps))
            (queueCount (m_family family))).
- by apply requestQueues_app.
- by apply requestQueues_overflow.
Qed.

End QueueRequests.

Lemma X8_request_queue_bound_witness :
  QueueFamilyHpp.requestQueues [5%N; 7%N; 9%N]
    (QueueFamilyHpp.QueueFamily_ctor
       {| QueueFamilyHpp.queueFlags := 1; QueueFamilyHpp.queueCount := 2 |} 4)
  = inl {| QueueFamilyHpp.neq_index := 4;
           QueueFamilyHpp.neq_requested := 3;
           QueueFamilyHpp.neq_max := 2 |}.
Proof.
apply (X8_request_queue_bound [5%N; 7%N; 9%N]
         (QueueFamilyHpp.QueueFamily_ctor
            {| QueueFamilyHpp.queueFlags := 1; QueueFamilyHpp.queueCount := 2 |} 4)).
vm_compute. discriminate.
Defined.

(** ** Queue capabilities *)

Section QueueCapabilities.
Import QueueFamilyHpp.
Local Open Scope Z_scope.

Lemma nonzero_land_bit (x k : Z) :
  0 ≤ k → nonzero (Z.land x (2 ^ k)) = Z.testbit x k.
Proof.
intros Hk. unfold nonzero.
assert (Hland : Z.land x (2 ^ k) = if Z.testbit x k then 2 ^ k else 0).
{ apply Z.bits_inj'. intros n Hn.
  rewrite Z.land_spec, Z.pow2_bits_eqb by done.
  destruct (Z.eqb_spec k n) as [->|Hne].
  - rewrite andb_true_r. destruct (Z.testbit x n) eqn:Hx.
    + by rewrite Z.pow2_bits_eqb, Z.eqb_refl.
    + by rewrite Z.bits_0.
  - rewrite andb_false_r. destruct (Z.testbit x k).
    + rewrite Z.pow2_bits_eqb by done. symmetry. by apply Z.eqb_neq.
    + by rewrite Z.bits_0. }
rewrite Hland. destruct (Z.testbit x k); [|done].
apply negb_true_iff, Z.eqb_neq. pose proof (Z.pow_pos_nonneg 2 k). lia.
Qed.

Lemma testbit_pick (b : bool) (acc : Z) (k n : Z) :
  0 ≤ k → 0 ≤ n →
  Z.testbit (if b then Z.lor acc (2 ^ k) else acc) n =
  Z.testbit acc n || (b && (k =? n)).
Proof.
intros Hk Hn. destruct b; simpl.
- by rewrite Z.lor_spec, Z.pow2_bits_eqb.
- by rewrite orb_false_r.
Qed.

(** X9. With the three capability masks being distinct single bits,
    [strictly(type)] holds exactly when the family's graphics, transfer and
    compute capabilities are each present or absent as the corresponding
    bit of [type] says; every other bit of [queueFlags], and every bit of
    [type] above the third, is ignored. *)
Theorem X9_strictly_exact {float : Type} (B : VkQueueFlagBits)
    (family : QueueFamily float) (type : Z)
    (HB : distinct_single_bits B) :
  strictly B family type =
    (eqb (graphics B family) (Z.testbit type 0) &&
     eqb (transfer B family) (Z.testbit type 1) &&
     eqb (compute B family) (Z.testbit type 2)) ∧
  strictly B family (Type_ctor type) = strictly B family type.
Proof.
destruct HB as (g & c & t & Hg & Hc & Ht & Hgc & Hgt & Hct & Eg & Ec & Et).
assert (Hmain : ∀ ty, strictly B family ty =
    (eqb (graphics B family) (Z.testbit ty 0) &&
     eqb (transfer B family) (Z.testbit ty 1) &&
     eqb (compute B family) (Z.testbit ty 2))).
{ intros ty. unfold strictly, graphics, transfer, compute, GRAPHICS, TRANSFER, COMPUTE.
  rewrite Eg, Ec, Et.
  rewrite (nonzero_land_bit ty 0 ltac:(lia) : nonzero (Z.land ty 1) = _).
  rewrite (nonzero_land_bit ty 1 ltac:(lia) : nonzero (Z.land ty 2) = _).
  rewrite (nonzero_land_bit ty 2 ltac:(lia) : nonzero (Z.land ty 4) = _).
  generalize (Z.testbit ty 0), (Z.testbit ty 1), (Z.testbit ty 2).
  intros b0 b1 b2.
  rewrite !nonzero_land_bit by lia.
  rewrite !Z.lxor_spec, !testbit_pick by lia.
  rewrite !Z.bits_0.
  rewrite !Z.eqb_refl.
  rewrite (proj2 (Z.eqb_neq t g)), (proj2 (Z.eqb_neq c g)),
          (proj2 (Z.eqb_neq g t)), (proj2 (Z.eqb_neq c t)),
          (proj2 (Z.eqb_neq g c)), (proj2 (Z.eqb_neq t c)) by done.
  by destruct b0, b1, b2,
       (Z.testbit (queueFlags (m_family family)) g),
       (Z.testbit (queueFlags (m_family family)) t),
       (Z.testbit (queueFlags (m_family family)) c). }
split; [apply Hmain|].
rewrite !Hmain. unfold Type_ctor.
rewrite !Z.land_spec. change 7 with (Z.ones 3).
by rewrite !Z.ones_spec_low, !andb_true_r by lia.
Qed.

End QueueCapabilities.

Lemma X9_strictly_exact_witness :
  let B := {| QueueFamilyHpp.VK_QUEUE_GRAPHICS_BIT := 1;
              QueueFamilyHpp.VK_QUEUE_COMPUTE_BIT := 2;
              QueueFamilyHpp.VK_QUEUE_TRANSFER_BIT := 4 |} in
  let family := QueueFamilyHpp.QueueFamily_ctor (float := N)
                  {| QueueFamilyHpp.queueFlags := 13;
                     QueueFamilyHpp.queueCount := 1 |} 0 in
  QueueFamilyHpp.strictly B family 10 =
    (eqb (QueueFamilyHpp.graphics B family) (Z.testbit 10 0) &&
     eqb (QueueFamilyHpp.transfer B family) (Z.testbit 10 1) &&
     eqb (QueueFamilyHpp.compute B family) (Z.testbit 10 2)) ∧
  QueueFamilyHpp.strictly B family (QueueFamilyHpp.Type_ctor 10) =
    QueueFamilyHpp.strictly B family 10.
Proof.
intros B family. apply (X9_strictly_exact B family 10).
exists 0%Z, 1%Z, 2%Z. repeat split; lia.
Defined.

(** ** Queue create infos *)

Section QueueCreateInfos.
Import QueueFamilyHpp.
Context {float : Type}.
Implicit Types (family : QueueFamily float) (fs : list (QueueFamily float)).

Lemma requestQueues_inr ps family family' :
  requestQueues ps family = inr family' →
  (N.of_nat (length (m_queuesRequested family))
     ≤ queueCount (m_family family))%N →
  m_index family' = m_index family ∧
  m_family family' = m_family family ∧
  m_queuesRequested family' = m_queuesRequested family ++ ps ∧
  (N.of_nat (length (m_queuesRequested family'))
     ≤ queueCount (m_family family))%N.
Proof.
intros Hrun Hheld.
destruct (N.leb_spec (N.of_nat (length (m_queuesRequested family) + length ps))
            (queueCount (m_family family))) as [Hle|Hlt].
- rewrite requestQueues_app in Hrun by done.
  injection Hrun as <-. simpl. rewrite length_app. done.
- rewrite requestQueues_overflow in Hrun by done. discriminate.
Qed.

Lemma makeQueueFamilies_lookup (raw : list VkQueueFamilyProperties)
    (acc : N) (i : nat) family :
  (acc + N.of_nat (length raw) ≤ 4294967296)%N →
  makeQueueFamilies (float := float) raw acc !! i = Some family →
  m_index family = (acc + N.of_nat i)%N ∧
  raw !! i = Some (m_family family) ∧
  m_queuesRequested family = [].
Proof.
revert acc i. induction raw as [|r raw IH]; intros acc i Hlen Hi; [done|].
simpl in Hi. destruct i as [|i].
- injection Hi as <-. simpl. split; [lia|done].
- simpl in Hi. cbn [length] in Hlen. rewrite Nat2N.inj_succ in Hlen.
  assert (Hw : wrap32 (acc + 1) = (acc + 1)%N).
  { unfold wrap32. apply N.mod_small. destruct raw; [done|].
    cbn [length] in Hlen. lia. }
  rewrite Hw in Hi.
  apply IH in Hi; [|lia]. destruct Hi as (Hidx & Hraw & Hreq).
  split; [lia|]. done.
Qed.

Lemma queueCreateInfos_elem fs info :
  info ∈ queueCreateInfos fs →
  ∃ family, family ∈ fs ∧ m_queuesRequested family ≠ [] ∧
    queueFamilyIndex info = m_index family ∧
    info_queueCount info = queueRequestedCount family ∧
    pQueuePriorities info = m_queuesRequested family.
Proof.
induction fs as [|f fs IH]; simpl; [by intros ?%elem_of_nil|].
unfold hasRequestedQueues.
destruct (m_queuesRequested f) eqn:Hreq; simpl.
- intros (family & Hin & H)%IH. exists family. split; [by right|done].
- intros [->|Hin]%elem_of_cons.
  + exists f. simpl. rewrite Hreq. split; [by left|done].
  + destruct (IH Hin) as (family & Hin' & H). exists family.
    split; [by right|done].
Qed.

Lemma queueCreateInfos_indices fs :
  map queueFamilyIndex (queueCreateInfos fs) =
  map m_index (filter (λ family, hasRequestedQueues family = true) fs).
Proof.
induction fs as [|f fs IH]; simpl; [done|].
destruct (hasRequestedQueues f) eqn:Hreq; simpl.
- rewrite filter_cons_True by done. simpl. by rewrite IH.
- rewrite filter_cons_False by (rewrite Hreq; done). done.
Qed.

Lemma requested_family (raw : list VkQueueFamilyProperties) fs i family :
  (N.of_nat (length raw) ≤ 4294967296)%N →
  Forall2 (λ f0 f, ∃ ps, requestQueues ps f0 = inr f)
    (makeQueueFamilies raw 0) fs →
  fs !! i = Some family →
  m_index family = N.of_nat i ∧
  raw !! i = Some (m_family family) ∧
  (N.of_nat (length (m_queuesRequested family))
     ≤ queueCount (m_family family))%N.
Proof.
intros Hlen Hall Hi.
destruct (Forall2_lookup_r _ _ _ _ _ Hall Hi) as (f0 & Hf0 & ps & Hps).
apply makeQueueFamilies_lookup in Hf0; [|lia].
destruct Hf0 as (Hidx & Hraw & Hnil).
apply requestQueues_inr in Hps; [|rewrite Hnil; simpl; lia].
destruct Hps as (Hidx' & Hfam & _ & Hle).
rewrite Hidx', Hfam, Hidx. split; [lia|]. by split.
Qed.

(** X10. For the queue families a [PhysicalDevice] builds from the native
    properties (fewer than 2^32 of them), on each of which any number of
    successful [requestQueue] calls were made, [DeviceInfo] emits one
    [VkDeviceQueueCreateInfo] per family that has a request, in family
    order: the family indices are pairwise distinct, each one is the
    position of the family's native properties, and each [queueCount] is
    at least one, at most the family's native [queueCount], and the number
    of priorities passed. *)
Theorem X10_queue_create_infos (raw : list VkQueueFamilyProperties) fs
    (Hlen : (N.of_nat (length raw) ≤ 4294967296)%N)
    (Hcount : Forall (λ rawProp, (queueCount rawProp < 4294967296)%N) raw)
    (Hreq : Forall2 (λ f0 f, ∃ ps, requestQueues ps f0 = inr f)
              (makeQueueFamilies raw 0) fs) :
  map queueFamilyIndex (queueCreateInfos fs) =
    map m_index (filter (λ family, hasRequestedQueues family = true) fs) ∧
  NoDup (map queueFamilyIndex (queueCreateInfos fs)) ∧
  Forall (λ info, ∃ rawProp,
            raw !! N.to_nat (queueFamilyIndex info) = Some rawProp ∧
            (1 ≤ info_queueCount info)%N ∧
            (info_queueCount info ≤ queueCount rawProp)%N ∧
            info_queueCount info = N.of_nat (length (pQueuePriorities info)))
    (queueCreateInfos fs).
Proof.
split; [apply queueCreateInfos_indices|]. split.
- rewrite queueCreateInfos_indices.
  apply (sublist_NoDup _ (m_index <$> fs)).
  + apply NoDup_alt. intros i j x Hi Hj.
    apply list_lookup_fmap_Some in Hi as (fi & -> & Hi).
    apply list_lookup_fmap_Some in Hj as (fj & Heq & Hj).
    apply (requested_family raw) in Hi as (Hi & _); [|done..].
    apply (requested_family raw) in Hj as (Hj & _); [|done..].
    rewrite Hi, Hj in Heq. lia.
  + apply (fmap_sublist m_index), sublist_filter.
- apply list.Forall_forall. intros info Hin.
  apply queueCreateInfos_elem in Hin
    as (family & Hin & Hne & Hidx & Hcnt & Hprio).
  apply list_elem_of_lookup in Hin as (i & Hi).
  apply (requested_family raw) in Hi as (Hi & Hraw & Hle); [|done..].
  exists (m_family family).
  rewrite Hidx, Hi, Nat2N.id, Hcnt, Hprio. split; [done|].
  pose proof (proj1 (list.Forall_forall _ _) Hcount (m_family family)
                (list_elem_of_lookup_2 _ _ _ Hraw)) as Hlt.
  simpl in Hlt.
  assert (Hw : queueRequestedCount family
               = N.of_nat (length (m_queuesRequested family))).
  { unfold queueRequestedCount, wrap32. apply N.mod_small. lia. }
  rewrite Hw. split; [|done].
  destruct (m_queuesRequested family); [done|simpl; lia].
Qed.

End QueueCreateInfos.

Lemma X10_queue_create_infos_witness :
  let props (flags : Z) (count : N) :=
    {| QueueFamilyHpp.queueFlags := flags; QueueFamilyHpp.queueCount := count |} in
  let family (requested : list N) (index : N) properties :=
    {| QueueFamilyHpp.m_queuesRequested := requested;
       QueueFamilyHpp.m_index := index;
       QueueFamilyHpp.m_family := properties |} in
  let raw := [props 7%Z 2%N; props 4%Z 1%N; props 2%Z 3%N] in
  let fs := [family [10%N; 20%N] 0%N (props 7%Z 2%N);
             family [] 1%N (props 4%Z 1%N);
             family [30%N] 2%N (props 2%Z 3%N)] in
  map QueueFamilyHpp.queueFamilyIndex (QueueFamilyHpp.queueCreateInfos fs)
    = [0%N; 2%N] ∧
  NoDup (map QueueFamilyHpp.queueFamilyIndex (QueueFamilyHpp.queueCreateInfos fs)).
Proof.
intros props family raw fs.
assert (Hlen : (N.of_nat (length raw) ≤ 4294967296)%N)
  by (vm_compute; discriminate).
assert (Hcount : Forall (fun rawProp =>
                           (QueueFamilyHpp.queueCount rawProp < 4294967296)%N)
                        raw).
{ repeat constructor. }
assert (Hreq : Forall2 (fun f0 f =>
                          ∃ ps, QueueFamilyHpp.requestQueues ps f0 = inr f)
                       (QueueFamilyHpp.makeQueueFamilies raw 0) fs).
{ repeat constructor.
  - by exists [10%N; 20%N].
  - by exists [].
  - by exists [30%N]. }
destruct (X10_queue_create_infos raw fs Hlen Hcount Hreq) as (Hidx & Hnd & _).
split; [exact Hidx|exact Hnd].
Defined.

(** ** Enumeration of physical devices *)

Section EnumerateDevices.
Import PhysicalDeviceHpp PhysicalDeviceRequests.
Context (T : GeneratedTables).

Lemma transform_Forall2 {A B : Type} (f : A → Result B) (P : A → B → Prop)
    (l : list A) :
  (∀ x, ∃ y, f x = Ok y ∧ P x y) →
  ∃ ys, transform f l = Ok ys ∧ Forall2 P l ys.
Proof.
intros Hf. induction l as [|x l (ys & Hys & Hrel)].
- exists []. split; [done|constructor].
- destruct (Hf x) as (y & Hy & HP). exists (y :: ys).
  split; [|by constructor].
  cbn [transform]. rewrite Hy. simpl. by rewrite Hys.
Qed.

Lemma PhysicalDevice_ctor_Ok instance device :
  ApiVersion_lt (InstanceHpp.m_apiVer instance) (mkApiVersion 1 0 0) = false →
  ∃ pd, PhysicalDevice_ctor T instance device = Ok pd ∧
    m_physicalDevice pd = native_handle device ∧
    supportedApiVersion pd = native_apiVersion device ∧
    requestedApiVersion pd = mkApiVersion 1 0 0 ∧
    m_enabledExtensions pd = [] ∧
    Forall (valid_ext T) (m_supportedExtensions pd).
Proof.
intros Hlt. rewrite PhysicalDevice_ctor_cases, Hlt.
eexists. split; [done|]. simpl. repeat (split; [done|]).
destruct (0 <? native_extCount device)%N; [|constructor].
destruct (decide _); [|constructor].
eapply list.Forall_impl; [apply collected_valid|]. by intros id [? _].
Qed.

(** X11. [PhysicalDevice::enumerate] posts [SymbolsMissing] on an instance
    below version 1.0.0, even when there is no device to report.  On every
    other instance it returns: one [PhysicalDevice] per slot of the
    resized vector, in order, so [deviceCount] of them (none when it is
    zero); slot [i] wraps the [i]-th handle the second native call wrote,
    or the null handle where that call wrote fewer than [deviceCount],
    and reports the version the driver answers for that handle;
    every entry starts with no enabled extension, requested version
    1.0.0, and supported extensions inside the registry. *)
Theorem X11_enumerate_devices (instance : InstanceHpp.Instance)
    (deviceCount : N) (written : list Handle)
    (properties : Handle → NativePhysicalDevice) :
  if ApiVersion_lt (InstanceHpp.m_apiVer instance) (mkApiVersion 1 0 0)
  then enumerate T instance deviceCount written properties
       = Err (SymbolsMissing (InstanceHpp.m_apiVer instance) (mkApiVersion 1 0 0))
  else ∃ pds,
    enumerate T instance deviceCount written properties = Ok pds ∧
    length pds = N.to_nat deviceCount ∧
    map m_physicalDevice pds
      = resize (N.to_nat deviceCount) VK_NULL_HANDLE written ∧
    ∀ i pd, pds !! i = Some pd →
      m_physicalDevice pd = nth i written VK_NULL_HANDLE ∧
      supportedApiVersion pd
        = native_apiVersion (properties (nth i written VK_NULL_HANDLE)) ∧
      requestedApiVersion pd = mkApiVersion 1 0 0 ∧
      m_enabledExtensions pd = [] ∧
      Forall (valid_ext T) (m_supportedExtensions pd).
Proof.
unfold enumerate, InstanceHpp.core.
destruct (ApiVersion_lt (InstanceHpp.m_apiVer instance) (mkApiVersion 1 0 0))
  eqn:Hlt; simpl; [done|].
destruct (N.eqb_spec deviceCount 0) as [->|Hne].
{ exists []. split; [done|]. split; [done|].
  split; [by rewrite resize_0|].
  intros i pd Hi. by rewrite lookup_nil in Hi. }
set (devs := resize (N.to_nat deviceCount) VK_NULL_HANDLE written).
set (ctor := fun device : Handle =>
       PhysicalDevice_ctor T instance
         {| native_handle := device;
            native_apiVersion := native_apiVersion (properties device);
            native_extCount := native_extCount (properties device);
            native_extResult := native_extResult (properties device);
            native_extensions := native_extensions (properties device) |}).
assert (Hall : ∃ pds,
  transform ctor devs = Ok pds ∧
  Forall2 (fun h pd =>
    m_physicalDevice pd = h ∧
    supportedApiVersion pd = native_apiVersion (properties h) ∧
    requestedApiVersion pd = mkApiVersion 1 0 0 ∧
    m_enabledExtensions pd = [] ∧
    Forall (valid_ext T) (m_supportedExtensions pd)) devs pds).
{ apply transform_Forall2. intros h.
  apply (PhysicalDevice_ctor_Ok instance
           {| native_handle := h;
              native_apiVersion := native_apiVersion (properties h);
              native_extCount := native_extCount (properties h);
              native_extResult := native_extResult (properties h);
              native_extensions := native_extensions (properties h) |} Hlt). }
destruct Hall as (pds & -> & Hrel).
exists pds. split; [done|].
pose proof (list.Forall2_length _ _ _ Hrel) as Hlen.
unfold devs in Hlen. rewrite length_resize in Hlen.
split; [done|].
split.
{ clear Hlen. induction Hrel as [|h pd l k (Hh & _) _ IH]; simpl; [done|].
  by rewrite Hh, IH. }
intros i pd Hi.
destruct (Forall2_lookup_r _ _ _ _ _ Hrel Hi) as (h & Hh & Hpd).
assert (Hnth : h = nth i written VK_NULL_HANDLE).
{ unfold devs in Hh.
  assert (i < N.to_nat deviceCount)%nat as Hlt'.
  { apply lookup_lt_Some in Hi. lia. }
  destruct (decide (i < length written)%nat) as [Hin|Hout].
  - rewrite lookup_resize in Hh by done.
    by rewrite (nth_lookup_Some _ _ _ _ Hh).
  - rewrite lookup_resize_new in Hh by lia.
    injection Hh as <-. rewrite nth_overflow; [done|lia]. }
by rewrite <- Hnth.
Qed.

End EnumerateDevices.

Lemma X11_enumerate_devices_witness :
  ∃ pds,
    PhysicalDeviceRequests.enumerate Samples.tables Samples.instance11 3
      [41%Z; 42%Z] (fun _ => Samples.gpu) = Ok pds ∧
    map PhysicalDeviceHpp.m_physicalDevice pds = [41%Z; 42%Z; VK_NULL_HANDLE].
Proof.
pose proof (X11_enumerate_devices Samples.tables Samples.instance11 3
              [41%Z; 42%Z] (fun _ => Samples.gpu)) as H.
destruct H as (pds & Hpds & _ & Hhandles & _).
exists pds. split; [exact Hpds|exact Hhandles].
Defined.

(** ** Sequences of extension requests on a physical device *)

Section EnableExtensions.
Import PhysicalDeviceHpp PhysicalDeviceRequests.
Context (T : GeneratedTables).

Lemma enableExtension_cases extension pd :
  enableExtension T extension pd =
  if bool_decide (extension ∈ m_supportedExtensions pd)
  then Ok (if bool_decide (extension ∈ m_enabledExtensions pd) then pd
           else {| m_physicalDevice := m_physicalDevice pd;
                   m_properties_apiVersion := m_properties_apiVersion pd;
                   m_supportedExtensions := m_supportedExtensions pd;
                   m_enabledExtensions := m_enabledExtensions pd ++ [extension];
                   m_requestedApiVersion := m_requestedApiVersion pd |})
  else Err (ExtensionUnsupported extension (ExtensionName T extension)).
Proof.
unfold enableExtension, extensionSupported.
destruct (bool_decide (extension ∈ m_supportedExtensions pd)); simpl; [|done].
by destruct (bool_decide (extension ∈ m_enabledExtensions pd)).
Qed.

Lemma enableExtensions_spec (supported : list ext) ids pd :
  m_supportedExtensions pd = supported →
  NoDup (m_enabledExtensions pd) →
  match find (fun id => negb (bool_decide (id ∈ supported))) ids with
  | Some id =>
      enableExtensions T ids pd
      = Err (ExtensionUnsupported id (ExtensionName T id))
  | None =>
      ∃ added,
        enableExtensions T ids pd =
          Ok {| m_physicalDevice := m_physicalDevice pd;
                m_properties_apiVersion := m_properties_apiVersion pd;
                m_supportedExtensions := supported;
                m_enabledExtensions := m_enabledExtensions pd ++ added;
                m_requestedApiVersion := m_requestedApiVersion pd |} ∧
        NoDup (m_enabledExtensions pd ++ added) ∧
        (∀ id, id ∈ added ↔ id ∈ ids ∧ id ∉ m_enabledExtensions pd)
  end.
Proof.
intros Hsup. revert pd Hsup.
induction ids as [|id ids IH]; intros pd Hsup Hnd; simpl.
- exists []. rewrite app_nil_r. split; [subst supported; by destruct pd|].
  split; [done|]. intros id.
  split; [by intros ?%elem_of_nil|by intros [?%elem_of_nil _]].
- subst supported. rewrite enableExtension_cases.
  destruct (bool_decide (id ∈ m_supportedExtensions pd)) eqn:Hid; simpl; [|done].
  destruct (bool_decide_reflect (id ∈ m_enabledExtensions pd)) as [Hen|Hen].
  + specialize (IH pd eq_refl Hnd).
    destruct (find _ ids); [done|].
    destruct IH as (added & Hrun & Hnd' & Hadded).
    exists added. split; [done|]. split; [done|].
    intros x. rewrite Hadded, elem_of_cons.
    split; [intros [? ?]; by auto|].
    intros [[->|?] ?]; [done|by split].
  + set (pd1 := {| m_physicalDevice := m_physicalDevice pd;
                   m_properties_apiVersion := m_properties_apiVersion pd;
                   m_supportedExtensions := m_supportedExtensions pd;
                   m_enabledExtensions := m_enabledExtensions pd ++ [id];
                   m_requestedApiVersion := m_requestedApiVersion pd |}).
    assert (Hnd1 : NoDup (m_enabledExtensions pd1)).
    { simpl. apply list.NoDup_app. split; [done|].
      split; [|apply NoDup_singleton].
      intros x Hx ->%list_elem_of_singleton. done. }
    specialize (IH pd1 eq_refl Hnd1).
    destruct (find _ ids); [done|].
    destruct IH as (added & Hrun & Hnd' & Hadded).
    exists (id :: added). simpl in *.
    rewrite <- app_assoc in Hrun, Hnd'. simpl in *.
    split; [done|]. split; [done|].
    intros x. rewrite !elem_of_cons, Hadded, elem_of_app, list_elem_of_singleton.
    destruct (decide (x = id)) as [->|Hne]; [by intuition|].
    intuition congruence.
Qed.

(** X12. A run of [enableExtension] calls on a device whose enabled list
    has no repetition: it posts [ExtensionUnsupported] for the first
    requested ID outside the supported list, with that ID's registered
    name, and otherwise succeeds.  On success the old enabled list is a
    prefix of the new one, which still has no repetition and holds
    exactly the old and the requested IDs, all supported when the old ones
    were; the handle, the supported list and both versions are untouched;
    and running the same requests again changes nothing. *)
Theorem X12_enable_extensions_run (ids : list ext) (pd : PhysicalDevice)
    (Hnd : NoDup (m_enabledExtensions pd)) :
  match find (fun id => negb (extensionSupported pd id)) ids with
  | Some id =>
      enableExtensions T ids pd
      = Err (ExtensionUnsupported id (ExtensionName T id))
  | None =>
      ∃ pd',
        enableExtensions T ids pd = Ok pd' ∧
        m_enabledExtensions pd `prefix_of` m_enabledExtensions pd' ∧
        NoDup (m_enabledExtensions pd') ∧
        (∀ id, isExtensionEnabled pd' id = true
               ↔ id ∈ m_enabledExtensions pd ∨ id ∈ ids) ∧
        ((∀ id, id ∈ m_enabledExtensions pd → extensionSupported pd id = true) →
         ∀ id, isExtensionEnabled pd' id = true → extensionSupported pd' id = true) ∧
        m_physicalDevice pd' = m_physicalDevice pd ∧
        m_supportedExtensions pd' = m_supportedExtensions pd ∧
        supportedApiVersion pd' = supportedApiVersion pd ∧
        requestedApiVersion pd' = requestedApiVersion pd ∧
        enableExtensions T ids pd' = Ok pd'
  end.
Proof.
pose proof (enableExtensions_spec (m_supportedExtensions pd) ids pd eq_refl Hnd)
  as Hspec.
unfold extensionSupported.
destruct (find _ ids) as [bad|] eqn:Hfind; [done|].
destruct Hspec as (added & Hrun & Hnd' & Hadded).
eexists. split; [exact Hrun|]. simpl.
assert (Henabled : ∀ l id, negb (count l id =? 0)%nat = true ↔ id ∈ l).
{ intros l id. unfold count. rewrite negb_true_iff, Nat.eqb_neq. split.
  - intros Hlen. destruct (filter _ l) as [|y ys] eqn:Hf; [done|].
    assert (y ∈ filter (fun x => x = id) l) as Hy by (rewrite Hf; left).
    by apply list_elem_of_filter in Hy as [-> ?].
  - intros Hin Hlen.
    assert (id ∈ filter (fun x => x = id) l) as Hy
      by (by apply list_elem_of_filter).
    destruct (filter _ l); [by apply elem_of_nil in Hy|done]. }
assert (Hall : ∀ id, id ∈ ids → id ∈ m_supportedExtensions pd).
{ intros id Hin. destruct (decide (id ∈ m_supportedExtensions pd)); [done|].
  pose proof (find_none _ _ Hfind id (proj1 (list_elem_of_In _ _) Hin)) as Hf.
  simpl in Hf. by rewrite bool_decide_eq_false_2 in Hf. }
split; [by eexists|]. split; [done|].
split.
{ intros id. unfold isExtensionEnabled. simpl.
  rewrite Henabled, elem_of_app, Hadded.
  destruct (decide (id ∈ m_enabledExtensions pd)); intuition. }
split.
{ intros Hold id. unfold isExtensionEnabled. simpl.
  rewrite Henabled, elem_of_app, Hadded. intros [Hin|[Hin _]].
  - apply Hold in Hin. done.
  - by apply bool_decide_eq_true_2, Hall. }
repeat (split; [done|]).
set (pd' := {| m_enabledExtensions := m_enabledExtensions pd ++ added |}).
pose proof (enableExtensions_spec (m_supportedExtensions pd) ids pd' eq_refl Hnd')
  as Hspec'.
rewrite Hfind in Hspec'. destruct Hspec' as (added' & Hrun' & _ & Hadded').
assert (added' = []) as ->.
{ destruct added' as [|x xs]; [done|].
  destruct (proj1 (Hadded' x)) as [Hin Hnot]; [left|].
  exfalso. apply Hnot. simpl. apply elem_of_app.
  destruct (decide (x ∈ m_enabledExtensions pd)); [by left|right].
  by apply Hadded. }
rewrite Hrun'. simpl. by rewrite app_nil_r.
Qed.

End EnableExtensions.

Lemma X12_enable_extensions_run_witness :
  ∃ pd',
    PhysicalDeviceRequests.enableExtensions Samples.tables [3; 1; 3]%nat
      Samples.physical_device12 = Ok pd' ∧
    NoDup (PhysicalDeviceHpp.m_enabledExtensions pd').
Proof.
pose proof (X12_enable_extensions_run Samples.tables [3; 1; 3]%nat
              Samples.physical_device12 (NoDup_singleton _)) as H.
destruct H as (pd' & Hrun & _ & Hnd & _).
exists pd'. split; [exact Hrun|exact Hnd].
Defined.

(** ** Sequences of feature requests *)

Section EnableFeatures.
Import PhysicalDeviceRequests.
Context {feature : Type} `{EqDecision feature}.
Context (m_featureNameMap : feature → string).

Lemma enableFeatures_spec (supported : feature → N)
    (fs : list feature) (pd : Features) :
  m_features pd = supported →
  match find (fun f => negb (negb (supported f =? 0)%N)) fs with
  | Some f =>
      enableFeatures m_featureNameMap fs pd =
        inl {| unsupported_feature := f;
               unsupported_what := m_featureNameMap f |}
  | None =>
      ∃ pd', enableFeatures m_featureNameMap fs pd = inr pd' ∧
        m_features pd' = supported ∧
        ∀ g, m_enabledFeatures pd' g =
             if bool_decide (g ∈ fs) then 1%N else m_enabledFeatures pd g
  end.
Proof.
revert pd. induction fs as [|f fs IH]; intros pd Hsup; simpl.
- exists pd. by repeat split.
- unfold enableFeature, isFeatureSupported. rewrite Hsup.
  destruct (negb (negb (supported f =? 0)%N)); [done|].
  set (pd1 := {| m_features := supported |}).
  specialize (IH pd1 eq_refl).
  destruct (find _ fs); [done|].
  destruct IH as (pd' & Hrun & Hsup' & Hen).
  exists pd'. split; [done|]. split; [done|].
  intros g. rewrite Hen. simpl.
  destruct (decide (g = f)) as [->|Hne].
  + rewrite (bool_decide_eq_true_2 (f ∈ f :: fs)) by left.
    by destruct (bool_decide (f ∈ fs)).
  + destruct (bool_decide_reflect (g ∈ fs)) as [Hin|Hin].
    * rewrite bool_decide_eq_true_2; [done|by right].
    * rewrite bool_decide_eq_false_2; [done|].
      by intros [?|?]%elem_of_cons.
Qed.

(** X13. A run of [enableFeature] calls posts [FeatureUnsupported] for
    the first requested feature whose supported member is zero, carrying
    the feature and its generated name, and otherwise succeeds.  On
    success the supported members are unchanged, the enabled member of
    every requested feature is one and every other enabled member keeps
    its value; so if every feature enabled before was supported, every
    feature enabled afterwards is. *)
Theorem X13_enable_features_run (fs : list feature) (pd : Features) :
  match find (fun f => negb (isFeatureSupported pd f)) fs with
  | Some f =>
      enableFeatures m_featureNameMap fs pd =
        inl {| unsupported_feature := f;
               unsupported_what := m_featureNameMap f |}
  | None =>
      ∃ pd', enableFeatures m_featureNameMap fs pd = inr pd' ∧
        m_features pd' = m_features pd ∧
        (∀ g, m_enabledFeatures pd' g =
              if bool_decide (g ∈ fs) then 1%N else m_enabledFeatures pd g) ∧
        ((∀ g, m_enabledFeatures pd g ≠ 0%N → isFeatureSupported pd g = true) →
         ∀ g, m_enabledFeatures pd' g ≠ 0%N → isFeatureSupported pd' g = true)
  end.
Proof.
pose proof (enableFeatures_spec (m_features pd) fs pd eq_refl) as Hspec.
unfold isFeatureSupported.
destruct (find _ fs) as [bad|] eqn:Hfind; [done|].
destruct Hspec as (pd' & Hrun & Hsup & Hen).
exists pd'. split; [done|]. split; [done|]. split; [done|].
intros Hold g. rewrite Hen, Hsup.
destruct (bool_decide_reflect (g ∈ fs)) as [Hin|Hin]; [|apply Hold].
intros _.
pose proof (find_none _ _ Hfind g (proj1 (list_elem_of_In _ _) Hin)) as Hf.
simpl in Hf. by apply negb_false_iff in Hf.
Qed.

End EnableFeatures.

Lemma X13_enable_features_run_witness :
  PhysicalDeviceRequests.enableFeatures (fun f : nat => String.EmptyString)
    [2; 5; 0]%nat
    {| PhysicalDeviceRequests.m_features := fun f => if (f =? 5)%nat then 0%N else 1%N;
       PhysicalDeviceRequests.m_enabledFeatures := fun _ => 0%N |}
  = inl {| PhysicalDeviceRequests.unsupported_feature := 5%nat;
           PhysicalDeviceRequests.unsupported_what := String.EmptyString |}.
Proof.
exact (X13_enable_features_run (fun f : nat => String.EmptyString)
         [2; 5; 0]%nat
         {| PhysicalDeviceRequests.m_features := fun f => if (f =? 5)%nat then 0%N else 1%N;
            PhysicalDeviceRequests.m_enabledFeatures := fun _ => 0%N |}).
Defined.

(** ** Queue families that can present to a surface *)

Section Presenting.
Import SurfaceHpp.
Context (query : N → VkResult * N).


Lemma presentingLoop_spec (remaining : nat) (i : N) (ret : list N) :
  presentingLoop query remaining i ret =
  match find (fun i => negb (bool_decide ((query i).1 = VK_SUCCESS)))
          (loopIndices i remaining) with
  | Some j => Err (VulkanError (query j).1 Surface_hpp 149)
  | None => Ok (ret ++ filter (fun i => (query i).2 ≠ 0%N) (loopIndices i remaining))
  end.
Proof.
revert i ret. induction remaining as [|n IH]; intros i ret; simpl.
- by rewrite app_nil_r.
- destruct (query i) as [res supported] eqn:Hq. simpl.
  destruct (decide (res = VK_SUCCESS)) as [->|Hne].
  + rewrite bool_decide_eq_true_2 by done. simpl. rewrite IH.
    destruct (find _ _); [done|]. f_equal.
    destruct (N.eqb_spec supported 0) as [->|Hs].
    * rewrite filter_cons_False; [done|]. rewrite Hq. simpl. by intros ?.
    * rewrite filter_cons_True by (by rewrite Hq).
      by rewrite <- app_assoc.
  + rewrite bool_decide_eq_false_2 by done. simpl. by rewrite Hq.
Qed.

Lemma loopIndices_elem (i : N) (remaining : nat) (j : N) :
  j ∈ loopIndices i remaining ↔ (i ≤ j ∧ j < i + N.of_nat remaining)%N.
Proof.
revert i. induction remaining as [|n IH]; intros i; simpl.
- rewrite elem_of_nil. lia.
- rewrite elem_of_cons, IH. lia.
Qed.

Lemma loopIndices_filter_increasing (P : N → Prop) `{∀ x, Decision (P x)}
    (i : N) (remaining : nat) :
  ∀ a b x y,
    filter P (loopIndices i remaining) !! a = Some x →
    filter P (loopIndices i remaining) !! b = Some y →
    (a < b)%nat → (x < y)%N.
Proof.
revert i. induction remaining as [|n IH]; intros i a b x y; simpl; [done|].
destruct (decide (P i)) as [Hi|Hi].
- rewrite filter_cons_True by done.
  destruct a as [|a], b as [|b]; simpl; try lia.
  + intros [= <-] Hy _.
    apply list_elem_of_lookup_2, list_elem_of_filter in Hy as [_ Hy].
    apply loopIndices_elem in Hy. lia.
  + intros Hx Hy Hab. apply (IH (i + 1)%N a b); [done..|lia].
- rewrite filter_cons_False by done. apply IH.
Qed.

(** X14. [getQueueFamilyIndicesThatSupportPresenting] posts
    [SymbolsMissing] on an instance below version 1.0.0.  Otherwise it asks
    the families in index order: at the first index whose support query
    does not answer [VK_SUCCESS] it posts [VulkanError] with that answer,
    whatever the later queries would say; when every query below the
    family count succeeds it returns, in strictly increasing order,
    exactly the indices below the count whose support flag is not zero. *)
Theorem X14_presenting_indices (parent : InstanceHpp.Instance)
    (queueFamilyCount : N) :
  if ApiVersion_lt (InstanceHpp.m_apiVer parent) (mkApiVersion 1 0 0)
  then getQueueFamilyIndicesThatSupportPresenting parent queueFamilyCount query
       = Err (SymbolsMissing (InstanceHpp.m_apiVer parent) (mkApiVersion 1 0 0))
  else
    match find (fun i => negb (bool_decide ((query i).1 = VK_SUCCESS)))
            (loopIndices 0 (N.to_nat queueFamilyCount)) with
    | Some j =>
        getQueueFamilyIndicesThatSupportPresenting parent queueFamilyCount query
        = Err (VulkanError (query j).1 Surface_hpp 149) ∧
        (j < queueFamilyCount)%N ∧ (query j).1 ≠ VK_SUCCESS
    | None =>
        ∃ ret,
          getQueueFamilyIndicesThatSupportPresenting parent queueFamilyCount query
          = Ok ret ∧
          (∀ i, i ∈ ret ↔ (i < queueFamilyCount)%N ∧ (query i).2 ≠ 0%N) ∧
          (∀ a b x y, ret !! a = Some x → ret !! b = Some y →
                      (a < b)%nat → (x < y)%N)
    end.
Proof.
unfold getQueueFamilyIndicesThatSupportPresenting, InstanceHpp.core.
destruct (ApiVersion_lt _ _); simpl; [done|].
rewrite presentingLoop_spec.
destruct (find _ _) as [j|] eqn:Hfind.
- split; [done|]. apply find_some in Hfind as [Hin Hbad].
  apply list_elem_of_In, loopIndices_elem in Hin.
  apply negb_true_iff, bool_decide_eq_false in Hbad.
  split; [lia|done].
- eexists. split; [done|]. simpl. split.
  + intros i. rewrite list_elem_of_filter, loopIndices_elem. lia.
  + apply loopIndices_filter_increasing.
Qed.

End Presenting.

Lemma X14_presenting_indices_witness :
  ∃ ret,
    SurfaceHpp.getQueueFamilyIndicesThatSupportPresenting Samples.instance11 4
      (fun i => (VK_SUCCESS, if (i =? 2)%N then 0%N else 1%N)) = Ok ret ∧
    ∀ i, i ∈ ret ↔ (i < 4)%N ∧ (if (i =? 2)%N then 0%N else 1%N) ≠ 0%N.
Proof.
pose proof (X14_presenting_indices
              (fun i => (VK_SUCCESS, if (i =? 2)%N then 0%N else 1%N))
              Samples.instance11 4) as H.
destruct H as (ret & Hret & Hmem & _).
exists ret. split; [exact Hret|exact Hmem].
Defined.

(** ** The set counter of a descriptor pool *)

Section PoolCounter.
Import DescriptorPoolHpp.

Lemma wrap32_pred_succ (n : N) :
  (n < 4294967296)%N → wrap32 (wrap32 (n + 1) + UINT_MAX) = n.
Proof.
intros Hn. unfold wrap32, UINT_MAX.
destruct (decide (n = 4294967295%N)) as [->|Hne]; [done|].
rewrite (N.mod_small (n + 1)) by lia.
replace (n + 1 + 4294967295)%N with (n + 1 * 4294967296)%N by lia.
rewrite N.Div0.mod_add. apply N.mod_small. lia.
Qed.

(** X15. On a device of version 1.0.0 or later, a successful
    [allocateSet] returns the native set handle and adds one to the set
    counter, as a 32-bit unsigned number.  A successful [freeSet] that
    follows brings the counter back to its old value when the pool was
    created with the free-descriptor-set bit; without the bit [freeSet]
    returns at once and the counter keeps the incremented value.  Parent
    and flags never change. *)
Theorem X15_pool_counter (VKW_ENABLE_EXCEPTIONS : bool)
    (irrecoverableCallbacks : list Callback) (FREE_BIT : Z)
    (pool : DescriptorPool) (set : Handle)
    (Hrange : (m_setCount pool < 4294967296)%N)
    (Hcore : ApiVersion_lt (DeviceHpp.apiVersion (parent pool))
                           (mkApiVersion 1 0 0) = false) :
  ∃ pool1 pool2,
    allocateSet pool (VK_SUCCESS, set) = Ok (set, pool1) ∧
    currentSetsCount pool1 = wrap32 (currentSetsCount pool + 1) ∧
    freeSet VKW_ENABLE_EXCEPTIONS irrecoverableCallbacks FREE_BIT pool1 VK_SUCCESS
      = ([], Returned, pool2) ∧
    currentSetsCount pool2 =
      (if (Z.land (flags pool) FREE_BIT =? 0)%Z
       then currentSetsCount pool1 else currentSetsCount pool) ∧
    parent pool2 = parent pool ∧ flags pool2 = flags pool.
Proof.
set (pool1 := {| parent := parent pool; flags := flags pool;
                 m_setCount := wrap32 (m_setCount pool + 1) |}).
exists pool1.
unfold allocateSet, freeSet, freeSet_try, DeviceHpp.core. simpl.
rewrite Hcore. simpl.
destruct (Z.land (flags pool) FREE_BIT =? 0)%Z.
- by exists pool1.
- eexists. split; [done|]. split; [done|]. split; [done|].
  simpl. split; [|done]. by apply wrap32_pred_succ.
Qed.

(** X16. [freeSet] never lets an exception out, in either build.  It
    returns normally exactly when the pool lacks the free-descriptor-set
    bit or the native call is reached and answers [VK_SUCCESS]; in every
    other case the pool is left as it was and the call ends in
    [std::terminate].  When the native call fails, both builds first run
    every registered callback once, in registration order, on the
    [VulkanError] of that answer.  When the device is below version
    1.0.0, the build without exceptions runs the callbacks on
    [SymbolsMissing], while the build with exceptions terminates without
    running any. *)
Theorem X16_free_set_exits (VKW_ENABLE_EXCEPTIONS : bool)
    (irrecoverableCallbacks : list Callback) (FREE_BIT : Z)
    (pool : DescriptorPool) (native : VkResult) :
  let version := DeviceHpp.apiVersion (parent pool) in
  let result :=
    freeSet VKW_ENABLE_EXCEPTIONS irrecoverableCallbacks FREE_BIT pool native in
  (∀ e, result.1.2 ≠ Thrown e) ∧
  (result.1.2 = Returned ↔
     Z.land (flags pool) FREE_BIT = 0%Z ∨
     (ApiVersion_lt version (mkApiVersion 1 0 0) = false ∧ native = VK_SUCCESS)) ∧
  (result.1.2 ≠ Returned → result.1.2 = Terminated ∧ result.2 = pool) ∧
  (Z.land (flags pool) FREE_BIT = 0%Z → result = ([], Returned, pool)) ∧
  (Z.land (flags pool) FREE_BIT ≠ 0%Z →
   ApiVersion_lt version (mkApiVersion 1 0 0) = false →
   native ≠ VK_SUCCESS →
   result.1.1 = map (fun callback =>
                       Invoked callback (VulkanError native DescriptorPool_hpp 76))
                    irrecoverableCallbacks) ∧
  (Z.land (flags pool) FREE_BIT ≠ 0%Z →
   ApiVersion_lt version (mkApiVersion 1 0 0) = true →
   result.1.1 =
     if VKW_ENABLE_EXCEPTIONS then []
     else map (fun callback =>
                 Invoked callback (SymbolsMissing version (mkApiVersion 1 0 0)))
              irrecoverableCallbacks).
Proof.
intros version result. subst version result.
unfold freeSet, freeSet_try, DeviceHpp.core, postError, irrecoverableError.
destruct (Z.eqb_spec (Z.land (flags pool) FREE_BIT) 0) as [Hbit|Hbit]; simpl.
{ repeat split; intros; try done; by auto. }
destruct (ApiVersion_lt _ _) eqn:Hlt; simpl.
- destruct VKW_ENABLE_EXCEPTIONS; simpl; rewrite ?foldl_snoc_map; simpl;
    repeat split; intros; try done; intuition congruence.
- destruct (decide (native = VK_SUCCESS)) as [->|Hne]; simpl.
  + repeat split; intros; try done; intuition congruence.
  + destruct VKW_ENABLE_EXCEPTIONS; simpl; rewrite ?foldl_snoc_map; simpl;
      repeat split; intros; try done; intuition congruence.
Qed.

End PoolCounter.

Lemma X15_pool_counter_witness :
  let pool := {| DescriptorPoolHpp.parent := Samples.device12;
                 DescriptorPoolHpp.flags := 1;
                 DescriptorPoolHpp.m_setCount := 4294967295 |} in
  ∃ pool1 pool2,
    DescriptorPoolHpp.allocateSet pool (VK_SUCCESS, 9%Z) = Ok (9%Z, pool1) ∧
    DescriptorPoolHpp.currentSetsCount pool1 = 0%N ∧
    DescriptorPoolHpp.freeSet true [] 1 pool1 VK_SUCCESS = ([], Returned, pool2) ∧
    DescriptorPoolHpp.currentSetsCount pool2 = 4294967295%N.
Proof.
intros pool.
destruct (X15_pool_counter true [] 1 pool 9%Z)
  as (pool1 & pool2 & Halloc & Hone & Hfree & Htwo & _).
- reflexivity.
- reflexivity.
- exists pool1, pool2.
  split; [exact Halloc|]. split; [exact Hone|]. split; [exact Hfree|exact Htwo].
Defined.

Lemma X16_free_set_exits_witness :
  let pool := {| DescriptorPoolHpp.parent := Samples.device12;
                 DescriptorPoolHpp.flags := 1;
                 DescriptorPoolHpp.m_setCount := 2 |} in
  let result := DescriptorPoolHpp.freeSet true [3; 5]%nat 1 pool VK_ERROR_UNKNOWN in
  result.1.1 =
    [Invoked 3%nat (VulkanError VK_ERROR_UNKNOWN DescriptorPoolHpp.DescriptorPool_hpp 76);
     Invoked 5%nat (VulkanError VK_ERROR_UNKNOWN DescriptorPoolHpp.DescriptorPool_hpp 76)] ∧
  result.1.2 = Terminated ∧ result.2 = pool.
Proof.
intros pool result.
destruct (X16_free_set_exits true [3; 5]%nat 1 pool VK_ERROR_UNKNOWN)
  as (_ & _ & Hterm & _ & Htrace & _).
split.
- apply Htrace; [vm_compute; discriminate|reflexivity|discriminate].
- apply Hterm. vm_compute. discriminate.
Defined.

(** ** No created handle is lost *)

Section Accounting.
Import UniqueHpp UniqueAccounting.

Lemma created_nonnull w h :
  world_inv w → h ∈ created w → h ≠ VK_NULL_HANDLE.
Proof.
intros Hinv Hh. apply (inv_created w Hinv) in Hh. unfold VK_NULL_HANDLE. lia.
Qed.

Lemma init_world_accounted : accounted init_world.
Proof.
split; simpl; [constructor|]. intros h Hh. by apply elem_of_nil in Hh.
Qed.

Lemma step_Construct_accounted w x creator res w' :
  world_inv w → accounted w →
  step w (Construct x creator res) = Some w' → accounted w'.
Proof.
intros Hinv [Hnd Hacc]. simpl.
destruct (objects w !! x) eqn:Hx; [done|].
unfold Unique_ctor, UniqueDeleter_create.
destruct (decide (res = VK_SUCCESS)); simpl; [|by intros [= <-]].
intros [= <-]. split; simpl.
- apply list.NoDup_app. split; [done|]. split; [|apply NoDup_singleton].
  intros h Hh ->%list_elem_of_singleton.
  apply (inv_created w Hinv) in Hh. lia.
- intros h [Hh| ->%list_elem_of_singleton]%elem_of_app.
  + destruct (Hacc h Hh) as [Hdel|(y & u & Hy & Hu)]; [by left|right].
    exists y, u. split; [|done].
    rewrite lookup_insert_ne; [done|]. intros ->. by rewrite Hx in Hy.
  + right. eexists x, _. split; [apply lookup_insert_eq|done].
Qed.

Lemma step_MoveConstruct_accounted w dst src w' :
  world_inv w → accounted w →
  step w (MoveConstruct dst src) = Some w' → accounted w'.
Proof.
intros Hinv [Hnd Hacc]. simpl.
destruct (objects w !! src) as [a|] eqn:Hsrc; [|done].
destruct (objects w !! dst) eqn:Hdst; [done|].
intros [= <-]. split; simpl; [done|].
intros h Hh.
destruct (Hacc h Hh) as [Hdel|(y & u & Hy & Hu)]; [by left|right].
destruct (decide (y = src)) as [->|Hne].
- rewrite Hsrc in Hy. injection Hy as <-.
  eexists dst, _. split; [apply lookup_insert_eq|done].
- exists y, u. split; [|done].
  rewrite !lookup_insert_ne; [done|done|]. intros ->. by rewrite Hdst in Hy.
Qed.

Lemma step_MoveAssign_accounted w dst src w' :
  world_inv w → accounted w →
  step w (MoveAssign dst src) = Some w' → accounted w'.
Proof.
intros Hinv [Hnd Hacc]. simpl.
destruct (objects w !! src) as [a|] eqn:Hsrc; [|done].
destruct (<[src := _]> (objects w) !! dst) as [b|] eqn:Hdst; [|done].
intros [= <-]. split; simpl; [done|].
intros h Hh. unfold deleted_handles. simpl. rewrite map_app, elem_of_app.
destruct (Hacc h Hh) as [Hdel|(y & u & Hy & Hu)]; [by left; left|].
destruct (decide (y = src)) as [->|Hys].
- rewrite Hsrc in Hy. injection Hy as <-. right.
  eexists dst, _. split; [apply lookup_insert_eq|done].
- destruct (decide (y = dst)) as [->|Hyd].
  + rewrite lookup_insert_ne in Hdst by done.
    rewrite Hy in Hdst. injection Hdst as <-.
    left. right. rewrite destroy_handles.
    rewrite decide_False; [subst h; left|].
    subst h. by apply (created_nonnull w).
  + right. exists y, u. split; [|done].
    by rewrite !lookup_insert_ne.
Qed.

Lemma step_Destroy_accounted w x w' :
  world_inv w → accounted w →
  step w (Destroy x) = Some w' → accounted w'.
Proof.
intros Hinv [Hnd Hacc]. simpl.
destruct (objects w !! x) as [u|] eqn:Hx; [|done].
intros [= <-]. split; simpl; [done|].
intros h Hh. unfold deleted_handles. simpl. rewrite map_app, elem_of_app.
destruct (Hacc h Hh) as [Hdel|(y & v & Hy & Hv)]; [by left; left|].
destruct (decide (y = x)) as [->|Hne].
- rewrite Hx in Hy. injection Hy as <-.
  left. right. rewrite destroy_handles.
  rewrite decide_False; [subst h; left|].
  subst h. by apply (created_nonnull w).
- right. exists y, v. split; [|done]. by rewrite lookup_delete_ne.
Qed.

Lemma step_accounted w c w' :
  world_inv w → accounted w → step w c = Some w' → accounted w'.
Proof.
destruct c.
- apply step_Construct_accounted.
- apply step_MoveConstruct_accounted.
- apply step_MoveAssign_accounted.
- apply step_Destroy_accounted.
Qed.

Lemma run_accounted cs :
  ∀ w w', world_inv w → accounted w → run w cs = Some w' → accounted w'.
Proof.
induction cs as [|c cs IH]; intros w w' Hinv Hacc; simpl.
- by intros [= <-].
- destruct (step w c) as [w1|] eqn:Hstep; [|discriminate].
  apply IH; [by eapply step_inv|by eapply step_accounted].
Qed.

End Accounting.

(** X17. In every execution of construct, move and destroy statements
    from the empty program state, where a handle stands for the create
    call that returned it, every created handle is in exactly one of two
    places: held by a live object, or in the deleter log.  So once every
    object has left its scope the deleter log is a rearrangement of the
    created handles: each one was handed to a deleter, once, and none was
    lost. *)
Theorem X17_no_handle_lost (cs : list UniqueHpp.Command) (w : UniqueHpp.World) :
  UniqueHpp.run UniqueHpp.init_world cs = Some w →
  (∀ h, h ∈ UniqueHpp.created w →
     (h ∈ UniqueHpp.deleted_handles w ∧
      ¬ ∃ x u, UniqueHpp.objects w !! x = Some u ∧ UniqueHpp.get u = h) ∨
     ((h ∉ UniqueHpp.deleted_handles w) ∧
      ∃ x u, UniqueHpp.objects w !! x = Some u ∧ UniqueHpp.get u = h)) ∧
  (UniqueHpp.objects w = ∅ →
   UniqueHpp.deleted_handles w ≡ₚ UniqueHpp.created w).
Proof.
intros Hrun.
pose proof (run_inv cs _ _ init_world_inv Hrun) as Hinv.
pose proof (run_accounted cs _ _ init_world_inv init_world_accounted Hrun)
  as [Hnd Hacc].
split.
- intros h Hh.
  destruct (decide (h ∈ UniqueHpp.deleted_handles w)) as [Hdel|Hdel].
  + left. split; [done|]. intros (x & u & Hx & Hu).
    pose proof (created_nonnull w h Hinv Hh) as Hnull. subst h.
    by destruct (UniqueHpp.inv_held w Hinv x u Hx Hnull).
  + right. split; [done|]. by destruct (Hacc h Hh).
- intros Hempty. apply NoDup_Permutation.
  + apply (UniqueHpp.inv_deleted_nodup w Hinv).
  + done.
  + intros h. split; [apply (UniqueHpp.inv_deleted_created w Hinv)|].
    intros Hh. destruct (Hacc h Hh) as [?|(x & u & Hx & _)]; [done|].
    by rewrite Hempty, lookup_empty in Hx.
Qed.

Lemma X17_no_handle_lost_witness :
  ∃ w,
    UniqueHpp.run UniqueHpp.init_world
      [UniqueHpp.Construct 0 7 VK_SUCCESS; UniqueHpp.Construct 1 7 VK_SUCCESS;
       UniqueHpp.MoveAssign 1 0; UniqueHpp.Destroy 0; UniqueHpp.Destroy 1]
      = Some w ∧
    UniqueHpp.deleted_handles w ≡ₚ UniqueHpp.created w.
Proof.
eexists. split; [vm_compute; reflexivity|].
eapply (X17_no_handle_lost
          [UniqueHpp.Construct 0 7 VK_SUCCESS; UniqueHpp.Construct 1 7 VK_SUCCESS;
           UniqueHpp.MoveAssign 1 0; UniqueHpp.Destroy 0; UniqueHpp.Destroy 1]);
  vm_compute; reflexivity.
Defined.

(** ** The extension names handed to device creation *)

Section DeviceNames.
Import PhysicalDeviceHpp PhysicalDeviceRequests DeviceHpp.
Context (T : GeneratedTables).

Lemma ExtensionName_inj (a b : ext) :
  tables_wf T → valid_ext T a → valid_ext T b →
  ExtensionName T a = ExtensionName T b → a = b.
Proof.
intros Hwf Ha Hb Heq. unfold ExtensionName in Heq.
destruct (lookup_lt_is_Some_2 _ _ Ha) as [x Hx].
destruct (lookup_lt_is_Some_2 _ _ Hb) as [y Hy].
rewrite (nth_lookup_Some _ _ _ _ Hx), (nth_lookup_Some _ _ _ _ Hy) in Heq.
subst y.
by apply (proj1 (NoDup_alt _) (ExtensionNames_NoDup T Hwf) a b x).
Qed.

Lemma ExtensionName_nonempty (id : ext) :
  valid_ext T id → ExtensionName T id ≠ EmptyString.
Proof.
intros Hid. unfold ExtensionName.
destruct (lookup_lt_is_Some_2 _ _ Hid) as [x Hx].
rewrite (nth_lookup_Some _ _ _ _ Hx).
unfold ExtensionNames in Hx.
apply list_lookup_fmap_Some in Hx as (entry & -> & _). done.
Qed.

Lemma none_of_eqb_elem (id : ext) (l : list ext) :
  none_of (fun extension => (extension =? id)%nat) l = true ↔ id ∉ l.
Proof.
unfold none_of. rewrite negb_true_iff. split.
- intros Hnone Hin.
  assert (existsb (fun extension => (extension =? id)%nat) l = true) as Hex.
  { apply existsb_exists. exists id.
    split; [by apply list_elem_of_In|apply Nat.eqb_refl]. }
  by rewrite Hex in Hnone.
- intros Hnot. apply not_true_is_false. intros Hex.
  apply existsb_exists in Hex as (x & Hin & Heq).
  apply Nat.eqb_eq in Heq as ->. by apply Hnot, list_elem_of_In.
Qed.

(** X18. The device path end to end: a physical device built from a
    driver report, then any run of successful [enableExtension] calls,
    then [DeviceInfo].  With generated names free of repetition, the name
    array handed to device creation has no repetition, every name in it
    was reported by the driver and is registered, every requested ID is
    named in it, and [VK_EXT_memory_budget] is named in it exactly when
    it was requested, or the instance has
    [KHR_get_physical_device_properties2] enabled and the device
    supports the extension.  The device version is the constructor's
    default 1.0.0. *)
Theorem X18_device_names (instance : InstanceHpp.Instance)
    (device : NativePhysicalDevice) (ids : list ext)
    (pd pd' : PhysicalDevice) (inf : DeviceInfo)
    (Hwf : tables_wf T)
    (Hctor : PhysicalDevice_ctor T instance device = Ok pd)
    (Hrun : enableExtensions T ids pd = Ok pd')
    (Hinfo : DeviceInfo_ctor T instance pd' = Ok inf) :
  NoDup (m_enabledExtensionsRaw inf) ∧
  (∀ name, name ∈ m_enabledExtensionsRaw inf →
           name ∈ native_extensions device ∧ ValidExtensionName T name = true) ∧
  (∀ id, id ∈ ids → ExtensionName T id ∈ m_enabledExtensionsRaw inf) ∧
  (ExtensionName T (EXT_memory_budget T) ∈ m_enabledExtensionsRaw inf ↔
     EXT_memory_budget T ∈ ids ∨
     (InstanceHpp.isExtensionEnabled instance
        (KHR_get_physical_device_properties2 T) = true ∧
      extensionSupported pd (EXT_memory_budget T) = true)) ∧
  m_apiVer inf = mkApiVersion 1 0 0.
Proof.
(* the constructed device *)
rewrite PhysicalDevice_ctor_cases in Hctor.
destruct (ApiVersion_lt _ _); [discriminate|].
assert (Hsup : Forall (fun id => valid_ext T id ∧
                                 ExtensionName T id ∈ native_extensions device)
                      (m_supportedExtensions pd)).
{ injection Hctor as <-. simpl.
  destruct (0 <? native_extCount device)%N; [|constructor].
  destruct (decide _); [|constructor]. apply collected_valid. }
assert (Hen0 : m_enabledExtensions pd = []) by (by injection Hctor as <-).
assert (Hver0 : m_requestedApiVersion pd = mkApiVersion 1 0 0)
  by (by injection Hctor as <-).
clear Hctor.
(* the requests *)
pose proof (enableExtensions_spec T (m_supportedExtensions pd) ids pd eq_refl)
  as Hspec.
rewrite Hen0 in Hspec. specialize (Hspec (NoDup_nil_2)).
destruct (find _ ids) eqn:Hfind; [by rewrite Hrun in Hspec|].
destruct Hspec as (added & Hrun' & Hnd & Hadded).
rewrite Hrun in Hrun'. injection Hrun' as ->. simpl in Hnd.
assert (Hids : ∀ id, id ∈ added ↔ id ∈ ids).
{ intros id. rewrite Hadded. split; [by intros [? _]|].
  intros Hin. split; [done|]. by intros ?%elem_of_nil. }
assert (Hall : ∀ id, id ∈ ids → id ∈ m_supportedExtensions pd).
{ intros id Hin. destruct (decide (id ∈ m_supportedExtensions pd)); [done|].
  pose proof (find_none _ _ Hfind id (proj1 (list_elem_of_In _ _) Hin)) as Hf.
  simpl in Hf. by rewrite bool_decide_eq_false_2 in Hf. }
clear Hadded Hfind Hrun.
(* the device info *)
unfold DeviceInfo_ctor in Hinfo. simpl in Hinfo.
rewrite enableExtension_cases in Hinfo. simpl in Hinfo.
unfold extensionSupported in *. simpl in Hinfo.
set (gpdp2 := InstanceHpp.isExtensionEnabled instance
                (KHR_get_physical_device_properties2 T)) in *.
set (mb := EXT_memory_budget T) in *.
assert (Hraw : ∃ enabled,
  m_enabledExtensionsRaw inf = map (ExtensionName T) enabled ∧
  m_apiVer inf = mkApiVersion 1 0 0 ∧
  NoDup enabled ∧
  (∀ id, id ∈ enabled ↔
         id ∈ ids ∨ (id = mb ∧ gpdp2 = true ∧ mb ∈ m_supportedExtensions pd))).
{ destruct gpdp2; simpl in Hinfo.
  - destruct (bool_decide_reflect (mb ∈ m_supportedExtensions pd)) as [Hs|Hs];
      simpl in Hinfo.
    + destruct (none_of (fun extension => (extension =? mb)%nat) added)
        eqn:Hnone; simpl in Hinfo.
      * apply none_of_eqb_elem in Hnone.
        rewrite bool_decide_eq_false_2 in Hinfo by done.
        injection Hinfo as <-. simpl. rewrite Hver0.
        exists (added ++ [mb]). split; [done|]. split; [done|]. split.
        { apply list.NoDup_app. split; [done|].
          split; [|apply NoDup_singleton].
          by intros x Hx ->%list_elem_of_singleton. }
        intros id. rewrite elem_of_app, list_elem_of_singleton, Hids. tauto.
      * injection Hinfo as <-. simpl. rewrite Hver0.
        exists added. split; [done|]. split; [done|]. split; [done|].
        intros id. rewrite Hids. split; [by left|].
        intros [?|(-> & _ & _)]; [done|].
        apply Hids. destruct (decide (mb ∈ added)) as [?|Hnot]; [done|].
        apply none_of_eqb_elem in Hnot. by rewrite Hnot in Hnone.
    + injection Hinfo as <-. simpl. rewrite Hver0.
      exists added. split; [done|]. split; [done|]. split; [done|].
      intros id. rewrite Hids. tauto.
  - injection Hinfo as <-. simpl. rewrite Hver0.
    exists added. split; [done|]. split; [done|]. split; [done|].
    intros id. rewrite Hids. split; [by left|]. by intros [?|(_ & ? & _)]. }
destruct Hraw as (enabled & Hraw & Hver & Hnd' & Hmem).
assert (Hvalid : ∀ id, id ∈ enabled →
          valid_ext T id ∧ ExtensionName T id ∈ native_extensions device).
{ intros id [Hin|(-> & _ & Hin)]%Hmem.
  - apply (proj1 (list.Forall_forall _ _) Hsup), Hall, Hin.
  - by apply (proj1 (list.Forall_forall _ _) Hsup). }
rewrite Hraw.
split.
{ apply (NoDup_fmap_2_strong (ExtensionName T)); [|done].
  intros a b Ha Hb. apply ExtensionName_inj; [done|by apply Hvalid..]. }
split.
{ intros name (id & -> & Hin)%(list_elem_of_fmap_1 (ExtensionName T)).
  destruct (Hvalid id Hin) as [Hv Hn]. split; [done|].
  apply ValidExtensionName_index. apply find_if_eqb_elem.
  unfold ExtensionName. apply list_elem_of_In, nth_In. exact Hv. }
split.
{ intros id Hin. apply (list_elem_of_fmap_2 (ExtensionName T)).
  apply Hmem. by left. }
split; [|done].
split.
- intros (id & Heq & Hin)%(list_elem_of_fmap_1 (ExtensionName T)).
  destruct (Hvalid id Hin) as [Hv _].
  assert (mb = id) as <-.
  { destruct (decide (mb < length (ExtensionNames T))%nat) as [Hmb|Hmb].
    - by apply ExtensionName_inj.
    - exfalso. apply (ExtensionName_nonempty id Hv). rewrite <- Heq.
      unfold ExtensionName. apply nth_overflow. lia. }
  apply Hmem in Hin as [?|(_ & ? & ?)]; [by left|right].
  split; [done|]. by apply bool_decide_eq_true_2.
- intros Hcase. apply (list_elem_of_fmap_2 (ExtensionName T)), Hmem.
  destruct Hcase as [?|[? Hs]]; [by left|right].
  split; [done|]. split; [done|]. by apply bool_decide_eq_true_1 in Hs.
Qed.

End DeviceNames.

Lemma X18_device_names_witness :
  ∃ pd pd' inf,
    PhysicalDeviceHpp.PhysicalDevice_ctor Samples.tables Samples.instance11
      Samples.gpu = Ok pd ∧
    PhysicalDeviceRequests.enableExtensions Samples.tables [1; 3; 1]%nat pd
      = Ok pd' ∧
    DeviceHpp.DeviceInfo_ctor Samples.tables Samples.instance11 pd' = Ok inf ∧
    NoDup (DeviceHpp.m_enabledExtensionsRaw inf).
Proof.
eexists _, _, _.
split; [vm_compute; reflexivity|].
split; [vm_compute; reflexivity|].
split; [vm_compute; reflexivity|].
eapply proj1.
eapply (X18_device_names Samples.tables Samples.instance11 Samples.gpu
          [1; 3; 1]%nat).
- solve_tables_wf.
- vm_compute; reflexivity.
- vm_compute; reflexivity.
- vm_compute; reflexivity.
Defined.

(** ** Property lookups and the names carried by errors *)

Section PropertyLookups.
Import LibraryQueries.
Context (T : GeneratedTables).

Lemma lookup_by_name (name : string) (names : list string) :
  let found := find_if (fun x => String.eqb name x) names in
  if any_of (fun x => String.eqb name x) names
  then (found < length names)%nat ∧ nth found names EmptyString = name
  else found = length names.
Proof.
simpl. destruct (any_of _ names) eqn:Hany.
- apply (any_of_eqb_elem name names) in Hany.
  apply (find_if_eqb_elem name names) in Hany. split; [done|].
  destruct (find_if_found _ _ Hany) as (x & Hx & Heq).
  apply String.eqb_eq in Heq as <-. by apply nth_lookup_Some.
- apply find_if_none. intros x Hx.
  destruct (String.eqb_spec name x) as [->|]; [|done].
  apply (any_of_eqb_elem x names) in Hx. by rewrite Hx in Hany.
Qed.

Lemma layerProperties_cases (library : Library) (layerId : layer) :
  layerProperties T library layerId =
    if hasLayer T library layerId then Ok (LayerName T layerId)
    else Err (LayerMissing layerId (LayerName T layerId)).
Proof.
unfold layerProperties, hasLayer. simpl.
pose proof (lookup_by_name (LayerName T layerId) (m_layer_properties library))
  as Hl. simpl in Hl.
destruct (any_of _ _).
- destruct Hl as [Hlt ->].
  by destruct (Nat.eqb_spec
                 (find_if (fun x => String.eqb (LayerName T layerId) x)
                          (m_layer_properties library))
                 (length (m_layer_properties library))); [lia|].
- by rewrite Hl, Nat.eqb_refl.
Qed.

Lemma instanceExtensionProperties_cases (library : Library) (extensionId : ext) :
  instanceExtensionProperties T library extensionId =
    if hasInstanceExtension T library extensionId
    then Ok (ExtensionName T extensionId)
    else Err (ExtensionMissing extensionId (ExtensionName T extensionId)).
Proof.
unfold instanceExtensionProperties, hasInstanceExtension. simpl.
pose proof (lookup_by_name (ExtensionName T extensionId)
              (m_instance_extension_properties library)) as He. simpl in He.
destruct (any_of _ _).
- destruct He as [Hlt ->].
  by destruct (Nat.eqb_spec
                 (find_if (fun x => String.eqb (ExtensionName T extensionId) x)
                          (m_instance_extension_properties library))
                 (length (m_instance_extension_properties library))); [lia|].
- by rewrite He, Nat.eqb_refl.
Qed.

(** X19. The two lookups of the loader agree with its two membership
    tests: [layerProperties] returns the advertised entry named after the
    layer exactly when [hasLayer] holds and posts [LayerMissing] with the
    layer and its registered name otherwise, and
    [instanceExtensionProperties] relates in the same way to
    [hasInstanceExtension] and [ExtensionMissing]. *)
Theorem X19_property_lookups (library : Library) (layerId : layer)
    (extensionId : ext) :
  layerProperties T library layerId =
    (if hasLayer T library layerId then Ok (LayerName T layerId)
     else Err (LayerMissing layerId (LayerName T layerId))) ∧
  instanceExtensionProperties T library extensionId =
    (if hasInstanceExtension T library extensionId
     then Ok (ExtensionName T extensionId)
     else Err (ExtensionMissing extensionId (ExtensionName T extensionId))).
Proof.
split; [apply layerProperties_cases|apply instanceExtensionProperties_cases].
Qed.

(** X20. Every extension or layer error that an accessor constructor, a
    device extension request, the instance negotiation or a property
    lookup posts carries the registered name of the ID it carries.  With
    generated names free of repetition, translating the name of such an
    error back yields the ID of the error, when that ID is inside the
    table. *)
Theorem X20_errors_name_their_id (e : Error) (Hwf : tables_wf T) :
  ((∃ id instance, LayersHpp.Layer_ctor T id instance = Err e) ∨
   (∃ id (instance : InstanceHpp.Instance),
      ExtensionsHpp.ExtensionBase_ctor T id instance = Err e) ∨
   (∃ id (device : DeviceHpp.Device),
      ExtensionsHpp.ExtensionBase_ctor T id device = Err e) ∨
   (∃ id pd, PhysicalDeviceHpp.enableExtension T id pd = Err e) ∨
   (∃ library CI, InstanceHpp.CompiledInstanceCreateInfo T library CI = Err e) ∨
   (∃ library id, layerProperties T library id = Err e) ∨
   (∃ library id, instanceExtensionProperties T library id = Err e)) →
  names_its_id T e ∧
  match e with
  | ExtensionMissing id _ | ExtensionUnsupported id _ =>
      valid_ext T id →
      ∃ name, extName e = Some name ∧ ExtensionId T name = Ok id
  | LayerMissing id _ | LayerUnsupported id _ =>
      valid_layer T id →
      ∃ name, layerName e = Some name ∧ LayerId T name = Ok id
  | _ => True
  end.
Proof.
intros Hsrc.
assert (Hname : names_its_id T e).
{ destruct Hsrc as [(id & instance & H)|[(id & instance & H)|[(id & device & H)|
                   [(id & pd & H)|[(library & CI & H)|[(library & id & H)|
                    (library & id & H)]]]]]].
  - unfold LayersHpp.Layer_ctor in H.
    destruct (negb _); by inversion H.
  - unfold ExtensionsHpp.ExtensionBase_ctor in H. simpl in H.
    destruct (negb _); by inversion H.
  - unfold ExtensionsHpp.ExtensionBase_ctor in H. simpl in H.
    unfold InstanceHpp.core in H.
    destruct (ApiVersion_lt _ _); simpl in H; [by inversion H|].
    destruct (negb _); by inversion H.
  - rewrite enableExtension_cases in H.
    destruct (bool_decide _); by inversion H.
  - rewrite CompiledInstanceCreateInfo_checks in H.
    destruct (ApiVersion_lt _ _); [by inversion H|].
    destruct (find _ _); [by inversion H|].
    destruct (find _ _); by inversion H.
  - rewrite layerProperties_cases in H.
    destruct (hasLayer _ _ _); by inversion H.
  - rewrite instanceExtensionProperties_cases in H.
    destruct (hasInstanceExtension _ _ _); by inversion H. }
split; [done|].
destruct e; try done; simpl in Hname; subst; intros Hid; eexists;
  (split; [done|]).
- simpl. unfold ExtensionId, ExtensionName.
  rewrite find_if_nth; [|by apply ExtensionNames_NoDup|done].
  unfold valid_ext in Hid.
  by destruct (Nat.eqb_spec id (length (ExtensionNames T))); [lia|].
- simpl. unfold ExtensionId, ExtensionName.
  rewrite find_if_nth; [|by apply ExtensionNames_NoDup|done].
  unfold valid_ext in Hid.
  by destruct (Nat.eqb_spec id (length (ExtensionNames T))); [lia|].
- simpl. unfold LayerId, LayerName.
  rewrite find_if_nth; [|by apply LayerNames_NoDup|done].
  unfold valid_layer in Hid.
  by destruct (Nat.eqb_spec id (length (LayerNames T))); [lia|].
- simpl. unfold LayerId, LayerName.
  rewrite find_if_nth; [|by apply LayerNames_NoDup|done].
  unfold valid_layer in Hid.
  by destruct (Nat.eqb_spec id (length (LayerNames T))); [lia|].
Qed.

End PropertyLookups.

Lemma X19_property_lookups_witness :
  LibraryQueries.layerProperties Samples.tables
    (Samples.library (mkApiVersion 1 3 0)) Samples.KHRONOS_validation
    = Ok "VK_LAYER_KHRONOS_validation" ∧
  LibraryQueries.instanceExtensionProperties Samples.tables
    (Samples.library (mkApiVersion 1 3 0)) Samples.KHR_swapchain
    = Err (ExtensionMissing Samples.KHR_swapchain "VK_KHR_swapchain").
Proof.
exact (X19_property_lookups Samples.tables (Samples.library (mkApiVersion 1 3 0))
         Samples.KHRONOS_validation Samples.KHR_swapchain).
Defined.

Lemma X20_errors_name_their_id_witness :
  PhysicalDeviceHpp.enableExtension Samples.tables Samples.KHR_surface
    Samples.physical_device12
    = Err (ExtensionUnsupported Samples.KHR_surface "VK_KHR_surface") ∧
  ∃ name,
    extName (ExtensionUnsupported Samples.KHR_surface "VK_KHR_surface")
      = Some name ∧
    ExtensionId Samples.tables name = Ok Samples.KHR_surface.
Proof.
split; [reflexivity|].
apply (X20_errors_name_their_id Samples.tables
         (ExtensionUnsupported Samples.KHR_surface "VK_KHR_surface")).
- solve_tables_wf.
- right. right. right. left.
  exists Samples.KHR_surface, Samples.physical_device12. reflexivity.
- vm_compute. lia.
Defined.
